(** * Pool accounting reducers of the Balancer v2 subgraph

    A shallow embedding of the event handlers of [src/mappings] (the vault
    handlers, the pricing handlers and [helpers/misc.ts]) together with the
    properties of the accounting engine that the specification states about
    them.

    Conventions of the embedding.
    - [BigInt] is [Z].  [BigInt.div] truncates toward zero ([Z.quot]) and
      aborts on a zero divisor.
    - [i32] values are [Z]; [BigInt.toI32] aborts outside the 32-bit range,
      the cast [u8(x)] keeps the low eight bits.
    - [Address] and [Bytes] values are identified with their lower-case hex
      rendering, so [toHexString] is the identity and [==] on them is string
      equality.
    - An entity handler is a computation in a state-and-error monad over the
      entity store: [throw new Error(..)] and host aborts are [Err], a
      [log.warning] appends to the diagnostic log.
    - Entities carry the fields that the handlers in scope read or write. *)

From Stdlib Require Import ZArith QArith Qround Qabs Qpower Lia Lqa Ascii String List.
From stdpp Require Import gmap strings list fin_maps pretty.

Local Open Scope Z_scope.

(** ** BigDecimal

    graph-ts represents a decimal by an integer [digits] and an exponent
    [exp]; its value is [digits * 10^exp].  Arithmetic is exact. *)

Module BigDecimal.

Record t := mk { digits : Z; exp : Z }.

Definition value (x : t) : Q := (inject_Z (digits x) * Qpower 10 (exp x))%Q.

(** [BigInt.toBigDecimal] *)
Definition fromBigInt (n : Z) : t := mk n 0.

Definition zero : t := fromBigInt 0.
Definition one : t := fromBigInt 1.

(** The digits of [x] rescaled to the exponent [e <= exp x]. *)
Definition align (x : t) (e : Z) : Z := digits x * 10 ^ (exp x - e).

Definition plus (x y : t) : t :=
  let e := Z.min (exp x) (exp y) in mk (align x e + align y e) e.

Definition minus (x y : t) : t :=
  let e := Z.min (exp x) (exp y) in mk (align x e - align y e) e.

Definition times (x y : t) : t := mk (digits x * digits y) (exp x + exp y).

(** [x.div(scale)] where [scale] is the decimal [10^k]: every call site in
    the handlers divides by such a scale, for which the quotient is a
    finite decimal. *)
Definition divPow10 (x : t) (k : Z) : t := mk (digits x) (exp x - k).

(** The [==] operator of graph-ts compares values, not representations. *)
Definition equals (x y : t) : bool :=
  let e := Z.min (exp x) (exp y) in align x e =? align y e.

(** [BigDecimal.truncate(decimals)] of graph-ts: drop
    [truncateLength = -exp - decimals] low digits, one integer division by
    ten per digit, and leave the number alone when there is nothing to
    drop. *)
Definition truncate (x : t) (decimals : Z) : t :=
  let truncateLength := - exp x - decimals in
  if truncateLength <? 0 then x
  else mk (Nat.iter (Z.to_nat truncateLength) (fun d => d ÷ 10) (digits x))
          (- decimals).

(** [BigInt.fromString(x.toString())]: the decimal rendering of [x] parses
    as an integer exactly when [x] has no fractional part. *)
Definition toBigInt (x : t) : option Z :=
  if 0 <=? exp x then Some (digits x * 10 ^ exp x)
  else if digits x mod 10 ^ (- exp x) =? 0 then Some (digits x / 10 ^ (- exp x))
  else None.

End BigDecimal.

Abbreviation BigDecimal := BigDecimal.t.

(** Rounding toward zero of a rational. *)
Definition Qtrunc (q : Q) : Z := if Qle_bool 0 q then Qfloor q else Qceiling q.

Section BigDecimalFacts.
Import BigDecimal.

Lemma Qpow10_nonzero (e : Z) : ~ (Qpower 10 e == 0)%Q.
Proof.
  apply Qpower_not_0. discriminate.
Qed.

Lemma Qpow10_add (a b : Z) : (Qpower 10 (a + b) == Qpower 10 a * Qpower 10 b)%Q.
Proof. apply Qpower_plus. discriminate. Qed.

Lemma Qpow10_inject (k : Z) : 0 <= k -> (inject_Z (10 ^ k) == Qpower 10 k)%Q.
Proof. intros Hk. rewrite Zpower_Qpower by assumption. reflexivity. Qed.

Lemma value_align (x : t) (e : Z) :
  e <= exp x -> (inject_Z (align x e) * Qpower 10 e == value x)%Q.
Proof.
  intros He. unfold align, value.
  rewrite inject_Z_mult, Qpow10_inject by lia.
  rewrite <- Qmult_assoc, <- Qpow10_add.
  replace (exp x - e + e) with (exp x) by lia. reflexivity.
Qed.

Lemma value_fromBigInt (n : Z) : (value (fromBigInt n) == inject_Z n)%Q.
Proof. unfold value; simpl. ring. Qed.

Lemma value_zero : (value zero == 0)%Q.
Proof. reflexivity. Qed.

Lemma value_plus (x y : t) : (value (plus x y) == value x + value y)%Q.
Proof.
  unfold plus. set (e := Z.min (exp x) (exp y)).
  rewrite <- (value_align x e), <- (value_align y e) by lia.
  unfold value at 1; simpl. rewrite inject_Z_plus. ring.
Qed.

Lemma value_minus (x y : t) : (value (minus x y) == value x - value y)%Q.
Proof.
  unfold minus. set (e := Z.min (exp x) (exp y)).
  rewrite <- (value_align x e), <- (value_align y e) by lia.
  unfold value at 1; simpl. unfold Z.sub.
  rewrite inject_Z_plus, inject_Z_opp. ring.
Qed.


Lemma value_divPow10 (x : t) (k : Z) :
  (value (divPow10 x k) == value x / Qpower 10 k)%Q.
Proof.
  unfold divPow10, value; simpl.
  replace (exp x - k) with (exp x + - k) by lia.
  rewrite Qpow10_add, Qpower_opp. field. apply Qpow10_nonzero.
Qed.

Lemma equals_value (x y : t) : equals x y = true <-> (value x == value y)%Q.
Proof.
  unfold equals. set (e := Z.min (exp x) (exp y)).
  rewrite <- (value_align x e), <- (value_align y e) by lia.
  rewrite Z.eqb_eq. split.
  - intros ->. reflexivity.
  - intros H. apply Qmult_inj_r in H; [ | apply Qpow10_nonzero ].
    apply inject_Z_injective. exact H.
Qed.

Lemma iter_quot10 (k : nat) (m : Z) :
  Nat.iter k (fun d => d ÷ 10) m = m ÷ 10 ^ Z.of_nat k.
Proof.
  induction k as [ | k IH ].
  - simpl. now rewrite Z.quot_1_r.
  - rewrite Nat.iter_succ, IH, Nat2Z.inj_succ, Z.pow_succ_r by lia.
    assert (0 < 10 ^ Z.of_nat k) by (apply Z.pow_pos_nonneg; lia).
    rewrite Z.quot_quot by lia. f_equal. lia.
Qed.

Lemma Qtrunc_comp (p q : Q) : (p == q)%Q -> Qtrunc p = Qtrunc q.
Proof.
  intros H. unfold Qtrunc. rewrite H.
  now rewrite (Qfloor_comp _ _ H), (Qceiling_comp _ _ H).
Qed.

Lemma Qtrunc_inject (n : Z) : Qtrunc (inject_Z n) = n.
Proof. unfold Qtrunc. rewrite Qfloor_Z, Qceiling_Z. now destruct (Qle_bool _ _). Qed.

Lemma Qtrunc_frac (a : Z) (b : positive) : Qtrunc (a # b) = a ÷ Z.pos b.
Proof.
  unfold Qtrunc, Qle_bool, Qceiling, Qfloor. cbn [Qnum Qden Qopp].
  rewrite Z.mul_1_r, Z.mul_0_l. destruct (Z.leb_spec 0 a) as [Ha | Ha].
  - symmetry. apply Z.quot_div_nonneg; lia.
  - rewrite <- (Z.quot_div_nonneg (- a)) by lia.
    rewrite Z.quot_opp_l by lia. lia.
Qed.

(** The value [m * 10^j] rounded toward zero. *)
Lemma Qtrunc_scaled (m j : Z) :
  Qtrunc (inject_Z m * Qpower 10 j) =
  if 0 <=? j then m * 10 ^ j else m ÷ 10 ^ (- j).
Proof.
  destruct (Z.leb_spec 0 j) as [Hj | Hj].
  - rewrite <- (Qtrunc_inject (m * 10 ^ j)). apply Qtrunc_comp.
    rewrite inject_Z_mult, Qpow10_inject by assumption. reflexivity.
  - assert (Hpos : 0 < 10 ^ (- j)) by (apply Z.pow_pos_nonneg; lia).
    destruct (10 ^ (- j)) as [ | p | p ] eqn:Hp; try lia.
    rewrite <- Qtrunc_frac. apply Qtrunc_comp.
    rewrite (Qmake_Qdiv m p), <- Hp, Qpow10_inject by lia.
    replace j with (- - j) at 1 by lia. rewrite Qpower_opp. reflexivity.
Qed.

End BigDecimalFacts.

(** ** Decimal utility layer ([helpers/misc.ts]) *)

Inductive Res (A : Type) : Type :=
| Ok (a : A)
| Err (msg : string).
Arguments Ok {A} a.
Arguments Err {A} msg.

(** The cast [x as u8] / [u8(x)] of an [i32]. *)
Definition u8 (x : Z) : Z := x mod 256.

Definition tokenToDecimal (amount : Z) (decimals : Z) : BigDecimal :=
  let scale := u8 decimals in
  BigDecimal.divPow10 (BigDecimal.fromBigInt amount) scale.

Definition scaleDown (num : Z) (decimals : Z) : BigDecimal :=
  BigDecimal.divPow10 (BigDecimal.fromBigInt num) (u8 decimals).

Definition scaleUp (num : BigDecimal) (decimals : Z) : Res Z :=
  match
    BigDecimal.toBigInt
      (BigDecimal.times (BigDecimal.truncate num decimals)
                        (BigDecimal.fromBigInt (10 ^ u8 decimals)))
  with
  | Some n => Ok n
  | None => Err "BigInt.fromString: invalid integer"
  end.

Section DecimalUtility.
Import BigDecimal.

Lemma u8_small (d : Z) : 0 <= d < 256 -> u8 d = d.
Proof. intros H. unfold u8. now apply Z.mod_small. Qed.


Lemma tokenToDecimal_scaleDown (n d : Z) : tokenToDecimal n d = scaleDown n d.
Proof. reflexivity. Qed.

Lemma value_scaleDown (n d : Z) :
  (value (scaleDown n d) == inject_Z n / Qpower 10 (u8 d))%Q.
Proof. unfold scaleDown. now rewrite value_divPow10, value_fromBigInt. Qed.

Lemma toBigInt_scaled (m k : Z) :
  0 <= k -> toBigInt (mk (m * 10 ^ k) (- k)) = Some m.
Proof.
  intros Hk. unfold toBigInt; simpl.
  destruct (Z.leb_spec 0 (- k)) as [H0 | H0].
  - assert (k = 0) as -> by lia. simpl. f_equal. lia.
  - rewrite Z.opp_involutive.
    assert (Hpos : 0 < 10 ^ k) by (apply Z.pow_pos_nonneg; lia).
    rewrite Z.mod_mul by lia. simpl. now rewrite Z.div_mul by lia.
Qed.

Lemma scaleUp_trunc (x : BigDecimal) (d : Z) :
  0 <= d < 256 ->
  scaleUp x d = Ok (Qtrunc (value x * Qpower 10 d)).
Proof.
  intros Hd. unfold scaleUp, truncate. rewrite (u8_small d Hd).
  rewrite (Qtrunc_comp _ (inject_Z (digits x) * Qpower 10 (exp x + d)))
    by (unfold value; rewrite Qpow10_add; ring).
  rewrite Qtrunc_scaled. destruct x as [m e]; simpl.
  destruct (Z.ltb_spec (- e - d) 0) as [Hlt | Hge].
  - (* nothing to drop: the scaled value is an integer *)
    destruct (Z.leb_spec 0 (e + d)) as [_ | ?]; [ | lia ].
    unfold times, toBigInt; simpl. rewrite Z.add_0_r.
    destruct (Z.leb_spec 0 e) as [He | He].
    + f_equal. rewrite Z.pow_add_r by lia. ring.
    + replace (m * 10 ^ d) with (m * 10 ^ (e + d) * 10 ^ (- e)).
      * assert (Hpos : 0 < 10 ^ (- e)) by (apply Z.pow_pos_nonneg; lia).
        rewrite Z.mod_mul by lia. simpl. now rewrite Z.div_mul by lia.
      * rewrite <- Z.mul_assoc, <- Z.pow_add_r by lia. do 2 f_equal. lia.
  - (* [- e - d] digits are dropped *)
    rewrite iter_quot10, Z2Nat.id by lia.
    unfold times; simpl. rewrite Z.add_0_r.
    rewrite toBigInt_scaled by lia.
    destruct (Z.leb_spec 0 (e + d)) as [Hz | Hz].
    + assert (e + d = 0) as -> by lia.
      replace (- e - d) with 0 by lia. simpl.
      rewrite Z.quot_1_r. do 2 f_equal. lia.
    + do 3 f_equal. lia.
Qed.


End DecimalUtility.

(** ** Entities ([types/schema]) *)

Abbreviation Address := string.

Module Pool.
Record t := mk {
  id : string;
  address : Address;
  poolType : option string;
  tokensList : list Address;
  totalWeight : BigDecimal;
  totalShares : BigDecimal;
  swapsCount : Z;
  holdersCount : Z;
  amp : option Z;
  lastPostJoinExitInvariant : option BigDecimal;
  lastJoinExitAmp : option Z
}.

Definition set_totalShares (v : BigDecimal) (p : t) : t :=
  mk (id p) (address p) (poolType p) (tokensList p) (totalWeight p) v
     (swapsCount p) (holdersCount p) (amp p) (lastPostJoinExitInvariant p)
     (lastJoinExitAmp p).

Definition set_swapsCount (v : Z) (p : t) : t :=
  mk (id p) (address p) (poolType p) (tokensList p) (totalWeight p)
     (totalShares p) v (holdersCount p) (amp p) (lastPostJoinExitInvariant p)
     (lastJoinExitAmp p).

Definition set_amp (v : option Z) (p : t) : t :=
  mk (id p) (address p) (poolType p) (tokensList p) (totalWeight p)
     (totalShares p) (swapsCount p) (holdersCount p) v
     (lastPostJoinExitInvariant p) (lastJoinExitAmp p).

Definition set_lastPostJoinExit (inv : option BigDecimal) (a : option Z) (p : t) : t :=
  mk (id p) (address p) (poolType p) (tokensList p) (totalWeight p)
     (totalShares p) (swapsCount p) (holdersCount p) (amp p) inv a.
End Pool.

Module PoolToken.
Record t := mk {
  id : string;
  poolId : string;
  address : string;
  symbol : string;
  decimals : Z;
  balance : BigDecimal;
  cashBalance : BigDecimal;
  managedBalance : BigDecimal;
  priceRate : BigDecimal
}.

Definition set_balance (v : BigDecimal) (p : t) : t :=
  mk (id p) (poolId p) (address p) (symbol p) (decimals p) v
     (cashBalance p) (managedBalance p) (priceRate p).

Definition set_cashBalance (v : BigDecimal) (p : t) : t :=
  mk (id p) (poolId p) (address p) (symbol p) (decimals p) (balance p)
     v (managedBalance p) (priceRate p).

Definition set_managedBalance (v : BigDecimal) (p : t) : t :=
  mk (id p) (poolId p) (address p) (symbol p) (decimals p) (balance p)
     (cashBalance p) v (priceRate p).
End PoolToken.

Module Token.
(** [fxOracleDecimals] is a nullable [Int]: unset reads as [0]. *)
Record t := mk {
  id : string;
  name : string;
  symbol : string;
  decimals : Z;
  totalBalanceNotional : BigDecimal;
  totalSwapCount : Z;
  address : string;
  latestFXPrice : option BigDecimal;
  fxOracleDecimals : Z
}.

Definition set_totalBalanceNotional (v : BigDecimal) (k : t) : t :=
  mk (id k) (name k) (symbol k) (decimals k) v (totalSwapCount k) (address k)
     (latestFXPrice k) (fxOracleDecimals k).

Definition set_totalSwapCount (v : Z) (k : t) : t :=
  mk (id k) (name k) (symbol k) (decimals k) (totalBalanceNotional k) v
     (address k) (latestFXPrice k) (fxOracleDecimals k).

Definition set_latestFXPrice (v : option BigDecimal) (k : t) : t :=
  mk (id k) (name k) (symbol k) (decimals k) (totalBalanceNotional k)
     (totalSwapCount k) (address k) v (fxOracleDecimals k).

Definition set_fxOracleDecimals (v : Z) (k : t) : t :=
  mk (id k) (name k) (symbol k) (decimals k) (totalBalanceNotional k)
     (totalSwapCount k) (address k) (latestFXPrice k) v.
End Token.

Module PoolShare.
Record t := mk {
  id : string;
  userAddress : string;
  poolId : string;
  balance : BigDecimal
}.

Definition set_balance (v : BigDecimal) (p : t) : t :=
  mk (id p) (userAddress p) (poolId p) v.
End PoolShare.

Module Swap.
Record t := mk {
  id : string;
  tokenIn : Address;
  tokenInSym : string;
  tokenAmountIn : BigDecimal;
  tokenOut : Address;
  tokenOutSym : string;
  tokenAmountOut : BigDecimal;
  caller : Address;
  userAddress : string;
  poolId : string;
  timestamp : Z;
  tx : string;
  block : Z
}.
End Swap.

Module JoinExit.
(** [amounts] is created by [new Array<BigDecimal>(n)]: a slot that was
    never assigned is [None]. *)
Record t := mk {
  id : string;
  type : string;
  sender : Address;
  amounts : list (option BigDecimal);
  pool : string;
  user : string;
  timestamp : Z;
  tx : string;
  block : Z
}.
End JoinExit.

Module Balancer.
Record t := mk { id : string; totalSwapCount : Z }.
End Balancer.

Module FXOracle.
(** [decimals] is a nullable [Int] (unset reads as [0]); [divisor] is a
    nullable string. *)
Record t := mk {
  id : string;
  tokens : list Address;
  decimals : Z;
  divisor : option string
}.
End FXOracle.

Module PoolSnapshot.
Record t := mk {
  id : string;
  pool : string;
  amounts : list (option BigDecimal);
  totalShares : BigDecimal;
  swapsCount : Z;
  holdersCount : Z;
  timestamp : Z
}.

(** [new PoolSnapshot(id)]: only the identifier is set. *)
Definition new (i : string) : t :=
  mk i "" [] BigDecimal.zero 0 0 0.
End PoolSnapshot.

(** ** Events *)

Module PoolBalanceChanged.
Record t := mk {
  poolId : string;
  liquidityProvider : Address;
  deltas : list Z;
  protocolFeeAmounts : list Z;
  logIndex : Z;
  transactionHash : string;
  blockNumber : Z;
  blockTimestamp : Z
}.
End PoolBalanceChanged.

Module PoolBalanceManaged.
Record t := mk {
  poolId : string;
  token : Address;
  cashDelta : Z;
  managedDelta : Z
}.
End PoolBalanceManaged.

Module SwapEvent.
Record t := mk {
  poolId : string;
  tokenIn : Address;
  tokenOut : Address;
  amountIn : Z;
  amountOut : Z;
  logIndex : Z;
  transactionHash : string;
  transactionFrom : Address;
  blockNumber : Z;
  blockTimestamp : Z
}.
End SwapEvent.

Module AnswerUpdated.
Record t := mk { address : Address; current : Z }.
End AnswerUpdated.

(** The share-token [Transfer] event, as the handlers build it for the
    share-transfer handler. *)
Module Transfer.
Record t := mk {
  address : Address;
  from : Address;
  to : Address;
  value : Z;
  logIndex : Z;
  transactionHash : string;
  blockNumber : Z;
  blockTimestamp : Z
}.
End Transfer.

(** ** The entity store *)

Record Store := mkStore {
  pools : gmap string Pool.t;
  poolTokens : gmap string PoolToken.t;
  tokens : gmap string Token.t;
  poolShares : gmap string PoolShare.t;
  users : gset string;
  swaps : gmap string Swap.t;
  joinExits : gmap string JoinExit.t;
  balancers : gmap string Balancer.t;
  fxOracles : gmap string FXOracle.t;
  poolSnapshots : gmap string PoolSnapshot.t
}.

Definition set_pools (m : gmap string Pool.t) (s : Store) : Store :=
  mkStore m (poolTokens s) (tokens s) (poolShares s) (users s) (swaps s)
          (joinExits s) (balancers s) (fxOracles s) (poolSnapshots s).
Definition set_poolTokens (m : gmap string PoolToken.t) (s : Store) : Store :=
  mkStore (pools s) m (tokens s) (poolShares s) (users s) (swaps s)
          (joinExits s) (balancers s) (fxOracles s) (poolSnapshots s).
Definition set_tokens (m : gmap string Token.t) (s : Store) : Store :=
  mkStore (pools s) (poolTokens s) m (poolShares s) (users s) (swaps s)
          (joinExits s) (balancers s) (fxOracles s) (poolSnapshots s).
Definition set_poolShares (m : gmap string PoolShare.t) (s : Store) : Store :=
  mkStore (pools s) (poolTokens s) (tokens s) m (users s) (swaps s)
          (joinExits s) (balancers s) (fxOracles s) (poolSnapshots s).
Definition set_users (m : gset string) (s : Store) : Store :=
  mkStore (pools s) (poolTokens s) (tokens s) (poolShares s) m (swaps s)
          (joinExits s) (balancers s) (fxOracles s) (poolSnapshots s).
Definition set_swaps (m : gmap string Swap.t) (s : Store) : Store :=
  mkStore (pools s) (poolTokens s) (tokens s) (poolShares s) (users s) m
          (joinExits s) (balancers s) (fxOracles s) (poolSnapshots s).
Definition set_joinExits (m : gmap string JoinExit.t) (s : Store) : Store :=
  mkStore (pools s) (poolTokens s) (tokens s) (poolShares s) (users s) (swaps s)
          m (balancers s) (fxOracles s) (poolSnapshots s).
Definition set_balancers (m : gmap string Balancer.t) (s : Store) : Store :=
  mkStore (pools s) (poolTokens s) (tokens s) (poolShares s) (users s) (swaps s)
          (joinExits s) m (fxOracles s) (poolSnapshots s).
Definition set_poolSnapshots (m : gmap string PoolSnapshot.t) (s : Store) : Store :=
  mkStore (pools s) (poolTokens s) (tokens s) (poolShares s) (users s) (swaps s)
          (joinExits s) (balancers s) (fxOracles s) m.

Definition emptyStore : Store := mkStore ∅ ∅ ∅ ∅ ∅ ∅ ∅ ∅ ∅ ∅.

(** ** The handler monad

    The world a handler runs in: the store, the diagnostics written with
    [log.warning], and the synthetic [Transfer] events handed to the
    share-transfer handler. *)

Record LogEntry := mkLog { message : string; args : list string }.

Record World := mkWorld {
  store : Store;
  logs : list LogEntry;
  dispatched : list Transfer.t
}.

Definition M (A : Type) : Type := World -> Res (A * World).

Definition ret {A} (a : A) : M A := fun w => Ok (a, w).

Definition bind {A B} (m : M A) (k : A -> M B) : M B :=
  fun w => match m w with
           | Ok (a, w') => k a w'
           | Err e => Err e
           end.

Declare Scope handler_scope.
Delimit Scope handler_scope with handler.
Notation "'let*' x := c1 'in' c2" := (bind c1 (fun x => c2))
  (at level 10, x name, c1 at level 100, c2 at level 200,
   format "'[v' 'let*'  x  :=  c1  'in' '/' c2 ']'") : handler_scope.
Notation "c1 ;; c2" := (bind c1 (fun _ => c2))
  (at level 100, c2 at level 200, right associativity,
   format "'[v' c1  ;; '/' c2 ']'") : handler_scope.
Local Open Scope handler_scope.

(** [throw new Error(msg)] and host aborts. *)
Definition throw {A} (msg : string) : M A := fun _ => Err msg.

Definition gets {A} (f : Store -> A) : M A := fun w => Ok (f (store w), w).

Definition modify (f : Store -> Store) : M unit :=
  fun w => Ok (tt, mkWorld (f (store w)) (logs w) (dispatched w)).

Definition log_warning (msg : string) (a : list string) : M unit :=
  fun w => Ok (tt, mkWorld (store w) (logs w ++ [mkLog msg a]) (dispatched w)).

(** [arr[i]] on an AssemblyScript array aborts out of range. *)
Definition index {A} (l : list A) (i : nat) : M A :=
  match l !! i with
  | Some a => ret a
  | None => throw "Index out of range"
  end.

(** [BigInt.toI32] *)
Definition toI32 (x : Z) : M Z :=
  if (- 2 ^ 31 <=? x) && (x <? 2 ^ 31) then ret x
  else throw "BigInt value does not fit into i32".

(** [for (let i = start; i < l.length; i++) { .. l[i] .. }] with the
    variables the body assigns threaded as [s]. *)
Fixpoint for_each {A V} (body : nat -> A -> V -> M V)
         (i : nat) (l : list A) (s : V) : M V :=
  match l with
  | [] => ret s
  | a :: l' => let* s' := body i a s in for_each body (S i) l' s'
  end.

(** ** Collaborators

    The handlers import constants, pool-kind predicates, the time
    interpolation of weights and amplification, the stable invariant and the
    share-transfer handler from modules that are not part of the sources under
    verification ([helpers/constants], [helpers/pools], [helpers/weighted],
    [helpers/stable], [poolController]) and read token metadata through
    contract calls.  They are parameters of the development. *)

Record ERC20 := mkERC20 {
  try_name : option string;
  try_symbol : option string;
  try_decimals : option Z
}.

Class Collaborators := {
  VAULT_ADDRESS : Address;
  ZERO_ADDRESS : Address;
  SWAP_IN : Z;
  SWAP_OUT : Z;
  AMP_PRECISION : Z;
  PoolType_StablePhantom : string;
  (** pairs [token, aggregator] *)
  FX_ASSET_AGGREGATORS : list (Address * Address);
  getPoolAddress : string -> Address;
  hasVirtualSupply : Pool.t -> bool;
  isVariableWeightPool : Pool.t -> bool;
  isStableLikePool : Pool.t -> bool;
  isComposableStablePool : Pool.t -> bool;
  isManagedPool : Pool.t -> bool;
  (** [updatePoolWeights(poolId)] works on the store. *)
  updatePoolWeights : string -> Store -> Store;
  (** [updateAmpFactor(pool, timestamp)] is handed the handler's pool object
      and may assign to it. *)
  updateAmpFactor : Pool.t -> Z -> Store -> Pool.t * Store;
  calculateInvariant : Z -> list Z -> string -> Z;
  (** [handleTransfer(event)] of the pool controller. *)
  handleTransfer : Transfer.t -> Store -> Store;
  (** [ERC20.bind(address)] and its [try_] calls. *)
  erc20 : Address -> ERC20
}.

Definition ZERO : Z := 0.
Definition ZERO_BD : BigDecimal := BigDecimal.zero.
Definition DAY : Z := 24 * 60 * 60.

(** [BigInt.fromString]: an optional minus sign and decimal digits. *)
Fixpoint parseDigits (s : string) (acc : Z) : option Z :=
  match s with
  | EmptyString => Some acc
  | String c s' =>
      let n := Z.of_nat (nat_of_ascii c) - 48 in
      if (0 <=? n) && (n <=? 9) then parseDigits s' (acc * 10 + n) else None
  end.

Definition BigInt_fromString (s : string) : option Z :=
  match s with
  | EmptyString => None
  | String "-"%char EmptyString => None
  | String "-"%char s' => Z.opp <$> parseDigits s' 0
  | _ => parseDigits s 0
  end.

(** [BigInt.div] *)
Definition BigInt_div (a b : Z) : M Z :=
  if b =? 0 then throw "attempt to divide by zero" else ret (a ÷ b).

Section Handlers.
Context `{Collaborators}.

(** *** Entity accessors ([helpers/misc.ts]) *)

Definition getPoolShareId (poolControllerAddress lpAddress : Address) : string :=
  poolControllerAddress +:+ "-" +:+ lpAddress.

Definition createUserEntity (address : Address) : M unit :=
  let addressHex := address in
  let* known := gets (fun s => bool_decide (addressHex ∈ users s)) in
  if known then ret tt
  else modify (fun s => set_users ({[addressHex]} ∪ users s) s).

Definition createPoolShareEntity (poolId : string) (lpAddress : Address)
  : M PoolShare.t :=
  createUserEntity lpAddress ;;
  let id := getPoolShareId (getPoolAddress poolId) lpAddress in
  let poolShare := PoolShare.mk id lpAddress poolId ZERO_BD in
  modify (fun s => set_poolShares (<[id := poolShare]> (poolShares s)) s) ;;
  ret poolShare.

Definition getPoolShare (poolId : string) (lpAddress : Address) : M PoolShare.t :=
  let poolShareId := getPoolShareId (getPoolAddress poolId) lpAddress in
  let* poolShare := gets (fun s => poolShares s !! poolShareId) in
  match poolShare with
  | None => createPoolShareEntity poolId lpAddress
  | Some poolShare => ret poolShare
  end.

Definition savePoolShare (p : PoolShare.t) : M unit :=
  modify (fun s => set_poolShares (<[PoolShare.id p := p]> (poolShares s)) s).

Definition getPoolTokenId (poolId : string) (tokenAddress : Address) : string :=
  poolId +:+ "-" +:+ tokenAddress.

Definition loadPoolToken (poolId : string) (tokenAddress : Address)
  : M (option PoolToken.t) :=
  gets (fun s => poolTokens s !! getPoolTokenId poolId tokenAddress).

Definition savePoolToken (p : PoolToken.t) : M unit :=
  modify (fun s => set_poolTokens (<[PoolToken.id p := p]> (poolTokens s)) s).

Definition loadPool (poolId : string) : M (option Pool.t) :=
  gets (fun s => pools s !! poolId).

Definition savePool (p : Pool.t) : M unit :=
  modify (fun s => set_pools (<[Pool.id p := p]> (pools s)) s).

Definition saveToken (k : Token.t) : M unit :=
  modify (fun s => set_tokens (<[Token.id k := k]> (tokens s)) s).

Definition createToken (tokenAddress : Address) : M Token.t :=
  let erc20token := erc20 tokenAddress in
  let name := default "" (try_name erc20token) in
  let symbol := default "" (try_symbol erc20token) in
  let decimals := default 0 (try_decimals erc20token) in
  let token :=
    Token.mk tokenAddress name symbol decimals ZERO_BD ZERO tokenAddress None 0 in
  saveToken token ;;
  ret token.

Definition getToken (tokenAddress : Address) : M Token.t :=
  let* token := gets (fun s => tokens s !! tokenAddress) in
  match token with
  | None => createToken tokenAddress
  | Some token => ret token
  end.

Definition uptickSwapsForToken (tokenAddress : Address) : M unit :=
  let* token := getToken tokenAddress in
  saveToken (Token.set_totalSwapCount (Token.totalSwapCount token + 1) token).

Definition updateTokenBalances (tokenAddress : Address)
           (notionalBalance : BigDecimal) (swapDirection : Z) : M unit :=
  let* token := getToken tokenAddress in
  let token :=
    if swapDirection =? SWAP_IN then
      Token.set_totalBalanceNotional
        (BigDecimal.plus (Token.totalBalanceNotional token) notionalBalance) token
    else if swapDirection =? SWAP_OUT then
      Token.set_totalBalanceNotional
        (BigDecimal.minus (Token.totalBalanceNotional token) notionalBalance) token
    else token in
  saveToken token.

(** *** Snapshot builder ([createPoolSnapshot], [updatePoolLiquidity]) *)

(** [timestamp % DAY] is the remainder of the truncating division.  The
    guard [pool == null || !pool.tokensList] never fires: both are
    references that are set. *)
Definition createPoolSnapshot (pool : Pool.t) (timestamp : Z) : M unit :=
  let dayTimestamp := timestamp - Z.rem timestamp DAY in
  let poolId := Pool.id pool in
  let snapshotId := poolId +:+ "-" +:+ pretty dayTimestamp in
  let* loaded := gets (fun s => poolSnapshots s !! snapshotId) in
  let snapshot := default (PoolSnapshot.new snapshotId) loaded in
  let tokens := Pool.tokensList pool in
  let* amounts :=
    for_each
      (fun i token amounts =>
         let tokenAddress := token in
         let* poolToken := loadPoolToken poolId tokenAddress in
         match poolToken with
         | None => ret amounts
         | Some poolToken => ret (<[i := Some (PoolToken.balance poolToken)]> amounts)
         end)
      0%nat tokens (replicate (length tokens) None) in
  let snapshot :=
    PoolSnapshot.mk (PoolSnapshot.id snapshot) poolId amounts
                    (Pool.totalShares pool) (Pool.swapsCount pool)
                    (Pool.holdersCount pool) dayTimestamp in
  modify (fun s =>
    set_poolSnapshots (<[PoolSnapshot.id snapshot := snapshot]> (poolSnapshots s)) s).

Definition updatePoolLiquidity (poolId : string) (block_number timestamp : Z)
  : M bool :=
  let* pool := loadPool poolId in
  match pool with
  | None => ret false
  | Some pool =>
      let* ts := toI32 timestamp in
      createPoolSnapshot pool ts ;;
      ret true
  end.

(** The synthetic [Transfer] is processed by the share-transfer handler. *)
Definition dispatchTransfer (mockEvent : Transfer.t) : M unit :=
  fun w => Ok (tt, mkWorld (handleTransfer mockEvent (store w)) (logs w)
                           (dispatched w ++ [mockEvent])).

(** *** Deposits and withdrawals ([handleBalanceChange]) *)

Definition saveJoinExit (j : JoinExit.t) : M unit :=
  modify (fun s => set_joinExits (<[JoinExit.id j := j]> (joinExits s)) s).

Definition handlePoolJoined (event : PoolBalanceChanged.t) : M unit :=
  let poolId := PoolBalanceChanged.poolId event in
  let amounts := PoolBalanceChanged.deltas event in
  let protocolFeeAmounts := PoolBalanceChanged.protocolFeeAmounts event in
  let* blockTimestamp := toI32 (PoolBalanceChanged.blockTimestamp event) in
  let logIndex := PoolBalanceChanged.logIndex event in
  let transactionHash := PoolBalanceChanged.transactionHash event in
  let* pool := loadPool poolId in
  match pool with
  | None =>
      log_warning "Pool not found in handlePoolJoined: {} {}" [poolId; transactionHash]
  | Some pool =>
      let tokenAddresses := Pool.tokensList pool in
      let joinId := transactionHash +:+ pretty logIndex in
      let* joinAmounts :=
        for_each
          (fun i tokenAddress joinAmounts =>
             let* poolToken := loadPoolToken poolId tokenAddress in
             match poolToken with
             | None => throw "poolToken not found"
             | Some poolToken =>
                 let* amount := index amounts i in
                 let joinAmount := scaleDown amount (PoolToken.decimals poolToken) in
                 ret (<[i := Some joinAmount]> joinAmounts)
             end)
          0%nat tokenAddresses (replicate (length amounts) None) in
      saveJoinExit
        (JoinExit.mk joinId "Join" (PoolBalanceChanged.liquidityProvider event)
                     joinAmounts poolId (PoolBalanceChanged.liquidityProvider event)
                     blockTimestamp transactionHash
                     (PoolBalanceChanged.blockNumber event)) ;;
      for_each
        (fun i tokenAddress (_ : unit) =>
           let* poolToken := loadPoolToken poolId tokenAddress in
           match poolToken with
           | None => throw "poolToken not found"
           | Some poolToken =>
               let* amount := index amounts i in
               let* fee := index protocolFeeAmounts i in
               let amountIn := amount - fee in
               let tokenAmountIn := tokenToDecimal amountIn (PoolToken.decimals poolToken) in
               let newBalance := BigDecimal.plus (PoolToken.balance poolToken) tokenAmountIn in
               savePoolToken (PoolToken.set_balance newBalance poolToken) ;;
               let* token := getToken tokenAddress in
               let tokenTotalBalanceNotional :=
                 BigDecimal.plus (Token.totalBalanceNotional token) tokenAmountIn in
               saveToken (Token.set_totalBalanceNotional tokenTotalBalanceNotional token)
           end)
        0%nat tokenAddresses tt ;;
      let* pool :=
        if bool_decide (Pool.poolType pool = Some PoolType_StablePhantom)
           || isComposableStablePool pool || isManagedPool pool
        then
          let* preMinted :=
            for_each
              (fun i tokenAddress (acc : Z * BigDecimal) =>
                 if bool_decide (tokenAddress = Pool.address pool) then
                   let* preMintedBpt := index amounts i in
                   ret (preMintedBpt, scaleDown preMintedBpt 18)
                 else ret acc)
              0%nat tokenAddresses (ZERO, ZERO_BD) in
          let '(preMintedBpt, scaledPreMintedBpt) := preMinted in
          let pool :=
            Pool.set_totalShares
              (BigDecimal.minus (Pool.totalShares pool) scaledPreMintedBpt) pool in
          let mockEvent :=
            Transfer.mk (Pool.address pool) VAULT_ADDRESS ZERO_ADDRESS preMintedBpt
                        logIndex transactionHash
                        (PoolBalanceChanged.blockNumber event)
                        (PoolBalanceChanged.blockTimestamp event) in
          dispatchTransfer mockEvent ;;
          ret pool
        else ret pool in
      savePool pool ;;
      updatePoolLiquidity poolId (PoolBalanceChanged.blockNumber event)
                          (PoolBalanceChanged.blockTimestamp event) ;;
      ret tt
  end.

Definition handlePoolExited (event : PoolBalanceChanged.t) : M unit :=
  let poolId := PoolBalanceChanged.poolId event in
  let amounts := PoolBalanceChanged.deltas event in
  let protocolFeeAmounts := PoolBalanceChanged.protocolFeeAmounts event in
  let* blockTimestamp := toI32 (PoolBalanceChanged.blockTimestamp event) in
  let logIndex := PoolBalanceChanged.logIndex event in
  let transactionHash := PoolBalanceChanged.transactionHash event in
  let* pool := loadPool poolId in
  match pool with
  | None =>
      log_warning "Pool not found in handlePoolExited: {} {}" [poolId; transactionHash]
  | Some pool =>
      let tokenAddresses := Pool.tokensList pool in
      let exitId := transactionHash +:+ pretty logIndex in
      let* exitAmounts :=
        for_each
          (fun i tokenAddress exitAmounts =>
             let* poolToken := loadPoolToken poolId tokenAddress in
             match poolToken with
             | None => throw "poolToken not found"
             | Some poolToken =>
                 let* amount := index amounts i in
                 let exitAmount := scaleDown (- amount) (PoolToken.decimals poolToken) in
                 ret (<[i := Some exitAmount]> exitAmounts)
             end)
          0%nat tokenAddresses (replicate (length amounts) None) in
      saveJoinExit
        (JoinExit.mk exitId "Exit" (PoolBalanceChanged.liquidityProvider event)
                     exitAmounts poolId (PoolBalanceChanged.liquidityProvider event)
                     blockTimestamp transactionHash
                     (PoolBalanceChanged.blockNumber event)) ;;
      for_each
        (fun i tokenAddress (_ : unit) =>
           let* poolToken := loadPoolToken poolId tokenAddress in
           match poolToken with
           | None => throw "poolToken not found"
           | Some poolToken =>
               let* amount := index amounts i in
               let* fee := index protocolFeeAmounts i in
               let amountOut := - (amount - fee) in
               let tokenAmountOut := tokenToDecimal amountOut (PoolToken.decimals poolToken) in
               let newBalance := BigDecimal.minus (PoolToken.balance poolToken) tokenAmountOut in
               savePoolToken (PoolToken.set_balance newBalance poolToken) ;;
               let* token := getToken tokenAddress in
               let tokenTotalBalanceNotional :=
                 BigDecimal.minus (Token.totalBalanceNotional token) tokenAmountOut in
               saveToken (Token.set_totalBalanceNotional tokenTotalBalanceNotional token)
           end)
        0%nat tokenAddresses tt ;;
      updatePoolLiquidity poolId (PoolBalanceChanged.blockNumber event)
                          (PoolBalanceChanged.blockTimestamp event) ;;
      ret tt
  end.

Definition handleBalanceChange (event : PoolBalanceChanged.t) : M unit :=
  let amounts := PoolBalanceChanged.deltas event in
  if bool_decide (length amounts = 0%nat) then ret tt
  else
    let total := fold_left (fun sum amount => sum + amount) amounts 0 in
    if total >? ZERO then handlePoolJoined event else handlePoolExited event.

(** *** Investments ([handleBalanceManage]) *)

Definition handleBalanceManage (event : PoolBalanceManaged.t) : M unit :=
  let poolId := PoolBalanceManaged.poolId event in
  let* pool := loadPool poolId in
  match pool with
  | None => log_warning "Pool not found in handleBalanceManage: {}" [poolId]
  | Some pool =>
      let tokenAddress := PoolBalanceManaged.token event in
      let cashDelta := PoolBalanceManaged.cashDelta event in
      let managedDelta := PoolBalanceManaged.managedDelta event in
      let* poolToken := loadPoolToken poolId tokenAddress in
      match poolToken with
      | None => throw "poolToken not found"
      | Some poolToken =>
          let cashDeltaAmount := tokenToDecimal cashDelta (PoolToken.decimals poolToken) in
          let managedDeltaAmount :=
            tokenToDecimal managedDelta (PoolToken.decimals poolToken) in
          let deltaAmount := BigDecimal.plus cashDeltaAmount managedDeltaAmount in
          let poolToken :=
            PoolToken.set_balance
              (BigDecimal.plus (PoolToken.balance poolToken) deltaAmount) poolToken in
          let poolToken :=
            PoolToken.set_cashBalance
              (BigDecimal.plus (PoolToken.cashBalance poolToken) cashDeltaAmount)
              poolToken in
          let poolToken :=
            PoolToken.set_managedBalance
              (BigDecimal.plus (PoolToken.managedBalance poolToken) managedDeltaAmount)
              poolToken in
          savePoolToken poolToken ;;
          let* token := getToken tokenAddress in
          let tokenTotalBalanceNotional :=
            BigDecimal.plus (Token.totalBalanceNotional token) deltaAmount in
          saveToken (Token.set_totalBalanceNotional tokenTotalBalanceNotional token)
      end
  end.

(** *** Swaps ([handleSwapEvent]) *)

Definition liftRes {A} (r : Res A) : M A :=
  match r with
  | Ok a => ret a
  | Err e => throw e
  end.

Definition saveSwap (x : Swap.t) : M unit :=
  modify (fun s => set_swaps (<[Swap.id x := x]> (swaps s)) s).

Definition saveBalancer (b : Balancer.t) : M unit :=
  modify (fun s => set_balancers (<[Balancer.id b := b]> (balancers s)) s).

Definition handleSwapEvent (event : SwapEvent.t) : M unit :=
  createUserEntity (SwapEvent.transactionFrom event) ;;
  let poolId := SwapEvent.poolId event in
  let* pool := loadPool poolId in
  match pool with
  | None => log_warning "Pool not found in handleSwapEvent: {}" [poolId]
  | Some pool =>
      let* pool :=
        if isVariableWeightPool pool then
          modify (updatePoolWeights poolId) ;;
          ret pool
        else if isStableLikePool pool then
          fun w =>
            let '(pool', s') :=
              updateAmpFactor pool (SwapEvent.blockTimestamp event) (store w) in
            Ok (pool', mkWorld s' (logs w) (dispatched w))
        else ret pool in
      let* pool :=
        if hasVirtualSupply pool then
          let* pool :=
            if bool_decide (SwapEvent.tokenIn event = Pool.address pool) then
              let scaledAmount := tokenToDecimal (SwapEvent.amountIn event) 18 in
              let pool :=
                Pool.set_totalShares
                  (BigDecimal.minus (Pool.totalShares pool) scaledAmount) pool in
              let* vaultPoolShare := getPoolShare poolId VAULT_ADDRESS in
              let vaultPoolShareBalance := PoolShare.balance vaultPoolShare in
              let vaultPoolShareBalance :=
                BigDecimal.minus vaultPoolShareBalance scaledAmount in
              savePoolShare (PoolShare.set_balance vaultPoolShareBalance vaultPoolShare) ;;
              ret pool
            else ret pool in
          if bool_decide (SwapEvent.tokenOut event = Pool.address pool) then
            let scaledAmount := tokenToDecimal (SwapEvent.amountOut event) 18 in
            let pool :=
              Pool.set_totalShares
                (BigDecimal.plus (Pool.totalShares pool) scaledAmount) pool in
            let* vaultPoolShare := getPoolShare poolId VAULT_ADDRESS in
            let vaultPoolShareBalance := PoolShare.balance vaultPoolShare in
            let vaultPoolShareBalance :=
              BigDecimal.plus vaultPoolShareBalance scaledAmount in
            savePoolShare (PoolShare.set_balance vaultPoolShareBalance vaultPoolShare) ;;
            ret pool
          else ret pool
        else ret pool in
      let poolAddress := Pool.address pool in
      let tokenInAddress := SwapEvent.tokenIn event in
      let tokenOutAddress := SwapEvent.tokenOut event in
      let logIndex := SwapEvent.logIndex event in
      let transactionHash := SwapEvent.transactionHash event in
      let* blockTimestamp := toI32 (SwapEvent.blockTimestamp event) in
      let* poolTokenIn := loadPoolToken poolId tokenInAddress in
      let* poolTokenOut := loadPoolToken poolId tokenOutAddress in
      match poolTokenIn, poolTokenOut with
      | Some poolTokenIn, Some poolTokenOut =>
          let tokenAmountIn :=
            scaleDown (SwapEvent.amountIn event) (PoolToken.decimals poolTokenIn) in
          let tokenAmountOut :=
            scaleDown (SwapEvent.amountOut event) (PoolToken.decimals poolTokenOut) in
          let newInAmount := BigDecimal.plus (PoolToken.balance poolTokenIn) tokenAmountIn in
          savePoolToken (PoolToken.set_balance newInAmount poolTokenIn) ;;
          let newOutAmount :=
            BigDecimal.minus (PoolToken.balance poolTokenOut) tokenAmountOut in
          savePoolToken (PoolToken.set_balance newOutAmount poolTokenOut) ;;
          let swapId := transactionHash +:+ pretty logIndex in
          let isJoinExitSwap :=
            bool_decide (poolAddress = tokenInAddress)
            || bool_decide (poolAddress = tokenOutAddress) in
          let* pool :=
            if isJoinExitSwap then
              if isComposableStablePool pool then
                let tokenAddresses := Pool.tokensList pool in
                let* balances :=
                  for_each
                    (fun i tokenAddress (balances : list Z) =>
                       if bool_decide (tokenAddress = Pool.address pool) then ret balances
                       else
                         let* poolToken := loadPoolToken (Pool.id pool) tokenAddress in
                         match poolToken with
                         | None => throw "poolToken not found"
                         | Some poolToken =>
                             let* balance :=
                               liftRes
                                 (scaleUp
                                    (BigDecimal.times (PoolToken.balance poolToken)
                                                      (PoolToken.priceRate poolToken))
                                    18) in
                             ret (balances ++ [balance])
                         end)
                    0%nat tokenAddresses [] in
                match Pool.amp pool with
                | Some a =>
                    let amp := a * AMP_PRECISION in
                    let invariantInt := calculateInvariant amp balances swapId in
                    let invariant := scaleDown invariantInt 18 in
                    ret (Pool.set_lastPostJoinExit (Some invariant) (Pool.amp pool) pool)
                | None => ret pool
                end
              else ret pool
            else ret pool in
          let swap :=
            Swap.mk swapId tokenInAddress (PoolToken.symbol poolTokenIn) tokenAmountIn
                    tokenOutAddress (PoolToken.symbol poolTokenOut) tokenAmountOut
                    (SwapEvent.transactionFrom event) (SwapEvent.transactionFrom event)
                    poolId blockTimestamp transactionHash
                    (SwapEvent.blockNumber event) in
          saveSwap swap ;;
          let pool := Pool.set_swapsCount (Pool.swapsCount pool + 1) pool in
          savePool pool ;;
          let* vault := gets (fun s => balancers s !! "2") in
          match vault with
          | None => throw "unexpected null"
          | Some vault =>
              saveBalancer
                (Balancer.mk (Balancer.id vault) (Balancer.totalSwapCount vault + 1)) ;;
              uptickSwapsForToken tokenInAddress ;;
              uptickSwapsForToken tokenOutAddress ;;
              updateTokenBalances tokenInAddress tokenAmountIn SWAP_IN ;;
              updateTokenBalances tokenOutAddress tokenAmountOut SWAP_OUT ;;
              if BigDecimal.equals (Swap.tokenAmountOut swap) ZERO_BD
                 || BigDecimal.equals (Swap.tokenAmountIn swap) ZERO_BD
              then ret tt
              else
                let blockNumber := SwapEvent.blockNumber event in
                updatePoolLiquidity poolId blockNumber (SwapEvent.blockTimestamp event) ;;
                ret tt
          end
      | _, _ =>
          log_warning
            "PoolToken not found in handleSwapEvent: (tokenIn: {}), (tokenOut: {})"
            [tokenInAddress; tokenOutAddress]
      end
  end.

(** *** Oracle answers ([handleAnswerUpdated]) *)

Definition VNXAU : Address := "0xc8bb8eda94931ca2f20ef43ea7dbd58e68400400".

Definition parseBigInt (s : string) : M Z :=
  match BigInt_fromString s with
  | Some n => ret n
  | None => throw "BigInt.fromString: invalid integer"
  end.

Definition handleAnswerUpdated (event : AnswerUpdated.t) : M unit :=
  let aggregatorAddress := AnswerUpdated.address event in
  let answer := AnswerUpdated.current event in
  let tokenAddressesToUpdate :=
    fold_left
      (fun acc entry =>
         if bool_decide (aggregatorAddress = entry.2) then acc ++ [entry.1] else acc)
      FX_ASSET_AGGREGATORS [] in
  let* oracle := gets (fun s => fxOracles s !! aggregatorAddress) in
  let* tokenAddressesToUpdate :=
    match oracle with
    | Some oracle =>
        ret (fold_left
               (fun acc tokenAddress =>
                  let tokenExists := bool_decide (tokenAddress ∈ acc) in
                  if negb tokenExists then acc ++ [tokenAddress] else acc)
               (FXOracle.tokens oracle) tokenAddressesToUpdate)
    | None =>
        log_warning "Oracle not found: {}" [aggregatorAddress] ;;
        ret tokenAddressesToUpdate
    end in
  for_each
    (fun i tokenAddress (_ : unit) =>
       let* token := gets (fun s => tokens s !! tokenAddress) in
       match token with
       | None => log_warning "Token with address {} not found" [tokenAddress]
       | Some token =>
           let token :=
             if Token.fxOracleDecimals token =? 0
             then Token.set_fxOracleDecimals 8 token else token in
           let direct := Token.set_latestFXPrice (Some (scaleDown answer 8)) token in
           let* token :=
             if bool_decide (tokenAddress = VNXAU) then
               let divisor := "3110347680" in
               let multiplier := "100000000" in
               let* m := parseBigInt multiplier in
               let* d := parseBigInt divisor in
               let* pricePerGram := BigInt_div (answer * m) d in
               ret (Token.set_latestFXPrice (Some (scaleDown pricePerGram 8)) token)
             else
               match oracle with
               | Some oracle =>
                   match FXOracle.divisor oracle with
                   | Some divisor =>
                       if negb (FXOracle.decimals oracle =? 0) then
                         let* ten := parseBigInt "10" in
                         let* d := parseBigInt divisor in
                         let* updatedAnswer :=
                           BigInt_div (answer * ten ^ u8 (FXOracle.decimals oracle)) d in
                         ret (Token.set_latestFXPrice
                                (Some (scaleDown updatedAnswer 8)) token)
                       else ret direct
                   | None => ret direct
                   end
               | None => ret direct
               end in
           saveToken token
       end)
    0%nat tokenAddressesToUpdate tt.

End Handlers.

(** ** Reasoning about handlers

    [wp m Q w]: running [m] in the world [w] returns normally, with a result
    and a final world that satisfy [Q]. *)

Definition wp {A} (m : M A) (Q : A -> World -> Prop) (w : World) : Prop :=
  match m w with
  | Ok (a, w') => Q a w'
  | Err _ => False
  end.

Definition fails {A} (m : M A) (w : World) : Prop := exists msg, m w = Err msg.

Section WeakestPre.

Lemma wp_elim {A} (m : M A) Q w :
  wp m Q w -> exists a w', m w = Ok (a, w') /\ Q a w'.
Proof. unfold wp. destruct (m w) as [[a w'] | e]; [ eauto | tauto ]. Qed.

Lemma wp_intro {A} (m : M A) (Q : A -> World -> Prop) w a w' :
  m w = Ok (a, w') -> Q a w' -> wp m Q w.
Proof. unfold wp. now intros ->. Qed.

Lemma wp_mono {A} (m : M A) (Q Q' : A -> World -> Prop) w :
  wp m Q w -> (forall a w', Q a w' -> Q' a w') -> wp m Q' w.
Proof. unfold wp. destruct (m w) as [[a w'] | e]; [ auto | tauto ]. Qed.

Lemma wp_ret {A} (a : A) (Q : A -> World -> Prop) w : Q a w -> wp (ret a) Q w.
Proof. exact (fun q => q). Qed.

Lemma wp_bind {A B} (m : M A) (k : A -> M B) Q w :
  wp m (fun a w' => wp (k a) Q w') w -> wp (bind m k) Q w.
Proof. unfold wp, bind. destruct (m w) as [[a w'] | e]; [ auto | tauto ]. Qed.

Lemma wp_gets {A} (f : Store -> A) (Q : A -> World -> Prop) w :
  Q (f (store w)) w -> wp (gets f) Q w.
Proof. exact (fun q => q). Qed.

Lemma wp_modify (f : Store -> Store) (Q : unit -> World -> Prop) w :
  Q tt (mkWorld (f (store w)) (logs w) (dispatched w)) -> wp (modify f) Q w.
Proof. exact (fun q => q). Qed.

Lemma wp_log msg a (Q : unit -> World -> Prop) w :
  Q tt (mkWorld (store w) (logs w ++ [mkLog msg a]) (dispatched w)) ->
  wp (log_warning msg a) Q w.
Proof. exact (fun q => q). Qed.

Lemma wp_index {A} (l : list A) i x (Q : A -> World -> Prop) w :
  l !! i = Some x -> Q x w -> wp (index l i) Q w.
Proof. intros Hl q. unfold wp, index. now rewrite Hl. Qed.

Lemma wp_toI32 x (Q : Z -> World -> Prop) w :
  - 2 ^ 31 <= x < 2 ^ 31 -> Q x w -> wp (toI32 x) Q w.
Proof.
  intros Hx q. unfold wp, toI32.
  destruct (Z.leb_spec (- 2 ^ 31) x); [ | lia ].
  destruct (Z.ltb_spec x (2 ^ 31)); [ | lia ]. exact q.
Qed.


Lemma fails_bind_r {A B} (m : M A) (k : A -> M B) w a w' :
  m w = Ok (a, w') -> fails (k a) w' -> fails (bind m k) w.
Proof. intros Hm [e He]. exists e. unfold bind. now rewrite Hm. Qed.

Lemma fails_throw {A} msg w : fails (@throw A msg) w.
Proof. now exists msg. Qed.

Lemma wp_not_fails {A} (m : M A) Q w : wp m Q w -> ~ fails m w.
Proof. unfold wp. intros Hwp [e He]. now rewrite He in Hwp. Qed.

End WeakestPre.

Ltac wp_step :=
  lazymatch goal with
  | |- wp (bind _ _) _ _ => apply wp_bind
  | |- wp (ret _) _ _ => apply wp_ret
  | |- wp (gets _) _ _ => apply wp_gets
  | |- wp (modify _) _ _ => apply wp_modify
  | |- wp (log_warning _ _) _ _ => apply wp_log
  end.

(** Entities are stored under their own identifier: [save] writes the
    entity at the key held in its [id] field. *)
Definition keyed {V} (key : V -> string) (m : gmap string V) : Prop :=
  map_Forall (fun k v => key v = k) m.

Lemma keyed_lookup {V} (key : V -> string) (m : gmap string V) k v :
  keyed key m -> m !! k = Some v -> key v = k.
Proof. intros Hk Hm. exact (Hk k v Hm). Qed.

Lemma keyed_insert {V} (key : V -> string) (m : gmap string V) k v :
  keyed key m -> key v = k -> keyed key (<[k := v]> m).
Proof. intros Hk Hv. now apply map_Forall_insert_2. Qed.

Section SnapshotFacts.
Context `{Collaborators}.

(** The balances a snapshot records: one slot per entry of [tokensList],
    left unassigned where the pool token is unknown. *)
Definition snapshotAmounts (s : Store) (poolId : string) (tokens : list Address)
  : list (option BigDecimal) :=
  map (fun a => PoolToken.balance <$> poolTokens s !! getPoolTokenId poolId a) tokens.

Definition dayOf (timestamp : Z) : Z := timestamp - Z.rem timestamp 86400.

Definition snapshotId (poolId : string) (timestamp : Z) : string :=
  poolId +:+ "-" +:+ pretty (dayOf timestamp).

Definition snapshotOf (s : Store) (pool : Pool.t) (timestamp : Z) : PoolSnapshot.t :=
  PoolSnapshot.mk (snapshotId (Pool.id pool) timestamp) (Pool.id pool)
                  (snapshotAmounts s (Pool.id pool) (Pool.tokensList pool))
                  (Pool.totalShares pool) (Pool.swapsCount pool)
                  (Pool.holdersCount pool) (dayOf timestamp).

Lemma snapshot_loop (poolId : string) (l : list Address) (pre : list (option BigDecimal)) w :
  for_each
    (fun i token amounts =>
       let* poolToken := loadPoolToken poolId token in
       match poolToken with
       | None => ret amounts
       | Some poolToken => ret (<[i := Some (PoolToken.balance poolToken)]> amounts)
       end)
    (length pre) l (pre ++ replicate (length l) None) w
  = Ok (pre ++ snapshotAmounts (store w) poolId l, w).
Proof.
  set (body := fun (i : nat) (token : Address) (amounts : list (option BigDecimal)) => _).
  revert pre. induction l as [ | a l IH ]; intros pre.
  - reflexivity.
  - assert (Hb : body (length pre) a (pre ++ replicate (length (a :: l)) None) w
                 = Ok (pre ++ (PoolToken.balance <$> poolTokens (store w) !! getPoolTokenId poolId a)
                           :: replicate (length l) None, w)).
    { unfold body, loadPoolToken, bind, gets. cbn [length replicate].
      destruct (poolTokens (store w) !! getPoolTokenId poolId a) as [pt | ]; [ | reflexivity ].
      unfold ret. do 2 f_equal.
      replace (length pre) with (length pre + 0)%nat by lia.
      now rewrite insert_app_r. }
    cbn [for_each]. unfold bind at 1. rewrite Hb.
    specialize (IH (pre ++ [PoolToken.balance <$> poolTokens (store w) !! getPoolTokenId poolId a])).
    rewrite length_app, Nat.add_1_r, <- app_assoc in IH. cbn [app] in IH.
    rewrite IH. now rewrite <- app_assoc.
Qed.

(** The key under which a refresh writes: the identifier of the snapshot it
    loaded, or of the fresh one. *)
Definition snapshotKey (s : Store) (pool : Pool.t) (timestamp : Z) : string :=
  PoolSnapshot.id
    (default (PoolSnapshot.new (snapshotId (Pool.id pool) timestamp))
             (poolSnapshots s !! snapshotId (Pool.id pool) timestamp)).

Definition snapshotWritten (s : Store) (pool : Pool.t) (timestamp : Z) : PoolSnapshot.t :=
  PoolSnapshot.mk (snapshotKey s pool timestamp) (Pool.id pool)
                  (snapshotAmounts s (Pool.id pool) (Pool.tokensList pool))
                  (Pool.totalShares pool) (Pool.swapsCount pool)
                  (Pool.holdersCount pool) (dayOf timestamp).

Lemma createPoolSnapshot_total (pool : Pool.t) (timestamp : Z) w :
  createPoolSnapshot pool timestamp w =
  Ok (tt, mkWorld
            (set_poolSnapshots
               (<[snapshotKey (store w) pool timestamp := snapshotWritten (store w) pool timestamp]>
                  (poolSnapshots (store w)))
               (store w))
            (logs w) (dispatched w)).
Proof.
  unfold createPoolSnapshot.
  change (24 * 60 * 60) with 86400. unfold DAY.
  change (timestamp - Z.rem timestamp (24 * 60 * 60)) with (dayOf timestamp).
  change (Pool.id pool +:+ "-" +:+ pretty (dayOf timestamp))
    with (snapshotId (Pool.id pool) timestamp).
  unfold bind at 1. unfold gets at 1.
  unfold bind at 1.
  pose proof (snapshot_loop (Pool.id pool) (Pool.tokensList pool) [] w) as Hloop.
  cbn [length app] in Hloop. rewrite Hloop. reflexivity.
Qed.

Lemma snapshotKey_keyed (s : Store) (pool : Pool.t) (timestamp : Z) :
  (forall x, poolSnapshots s !! snapshotId (Pool.id pool) timestamp = Some x ->
             PoolSnapshot.id x = snapshotId (Pool.id pool) timestamp) ->
  snapshotKey s pool timestamp = snapshotId (Pool.id pool) timestamp.
Proof.
  intros Hkey. unfold snapshotKey.
  destruct (poolSnapshots s !! snapshotId (Pool.id pool) timestamp) eqn:E;
    [ now apply Hkey | reflexivity ].
Qed.

Lemma createPoolSnapshot_run (pool : Pool.t) (timestamp : Z) w :
  (forall x, poolSnapshots (store w) !! snapshotId (Pool.id pool) timestamp = Some x ->
             PoolSnapshot.id x = snapshotId (Pool.id pool) timestamp) ->
  createPoolSnapshot pool timestamp w =
  Ok (tt, mkWorld
            (set_poolSnapshots
               (<[snapshotId (Pool.id pool) timestamp := snapshotOf (store w) pool timestamp]>
                  (poolSnapshots (store w)))
               (store w))
            (logs w) (dispatched w)).
Proof.
  intros Hkey. rewrite createPoolSnapshot_total.
  unfold snapshotWritten. now rewrite (snapshotKey_keyed _ _ _ Hkey).
Qed.

Lemma wp_updatePoolLiquidity poolId blockNumber timestamp pool (Q : bool -> World -> Prop) w :
  pools (store w) !! poolId = Some pool ->
  - 2 ^ 31 <= timestamp < 2 ^ 31 ->
  Q true (mkWorld
            (set_poolSnapshots
               (<[snapshotKey (store w) pool timestamp := snapshotWritten (store w) pool timestamp]>
                  (poolSnapshots (store w)))
               (store w))
            (logs w) (dispatched w)) ->
  wp (updatePoolLiquidity poolId blockNumber timestamp) Q w.
Proof.
  intros Hpool Hts HQ. unfold updatePoolLiquidity, loadPool.
  apply wp_bind, wp_gets. rewrite Hpool.
  apply wp_bind, wp_toI32; [ assumption | ].
  apply wp_bind. unfold wp at 1. rewrite createPoolSnapshot_total.
  apply wp_ret. exact HQ.
Qed.

End SnapshotFacts.

Section TokenFacts.
Context `{Collaborators}.

(** The entity [createToken] writes for an address seen for the first
    time. *)
Definition newToken (tokenAddress : Address) : Token.t :=
  Token.mk tokenAddress
           (default "" (try_name (erc20 tokenAddress)))
           (default "" (try_symbol (erc20 tokenAddress)))
           (default 0 (try_decimals (erc20 tokenAddress)))
           ZERO_BD ZERO tokenAddress None 0.

(** What [getToken] returns. *)
Definition tokenOrNew (T : gmap string Token.t) (a : Address) : Token.t :=
  default (newToken a) (T !! a).

Lemma tokenOrNew_id T a :
  (forall t, T !! a = Some t -> Token.id t = a) -> Token.id (tokenOrNew T a) = a.
Proof.
  intros Hk. unfold tokenOrNew. destruct (T !! a) as [t | ]; [ now apply Hk | reflexivity ].
Qed.

(** [getToken] followed by a [save] of the updated entity. *)
Lemma wp_touch_token (a : Address) (f : Token.t -> Token.t) (Q : unit -> World -> Prop) w :
  (forall t, tokens (store w) !! a = Some t -> Token.id t = a) ->
  (forall t, Token.id (f t) = Token.id t) ->
  Q tt (mkWorld (set_tokens (<[a := f (tokenOrNew (tokens (store w)) a)]> (tokens (store w)))
                            (store w))
                (logs w) (dispatched w)) ->
  wp (let* token := getToken a in saveToken (f token)) Q w.
Proof.
  intros Hk Hf HQ. unfold getToken, createToken, saveToken.
  unfold wp, bind, gets, modify, ret. fold (newToken a).
  unfold tokenOrNew in HQ.
  destruct (tokens (store w) !! a) as [t | ] eqn:Ht.
  - rewrite Hf, (Hk t eq_refl). exact HQ.
  - cbn [store logs dispatched]. rewrite Hf.
    cbn [Token.id newToken set_tokens tokens pools poolTokens poolShares
         users swaps joinExits balancers fxOracles poolSnapshots].
    rewrite insert_insert_eq. exact HQ.
Qed.

End TokenFacts.

Section JoinFacts.
Context `{Collaborators}.

Lemma for_each_cons {A V} (body : nat -> A -> V -> M V) i a l s :
  for_each body i (a :: l) s = bind (body i a s) (fun s' => for_each body (S i) l s').
Proof. reflexivity. Qed.

(** The loop that fills the audit amounts of a [JoinExit] record; [g] is
    the identity for a join and the negation for an exit. *)
Definition grossBody (g : Z -> Z) (poolId : string) (amounts : list Z)
  : nat -> Address -> list (option BigDecimal) -> M (list (option BigDecimal)) :=
  fun i tokenAddress joinAmounts =>
    let* poolToken := loadPoolToken poolId tokenAddress in
    match poolToken with
    | None => throw "poolToken not found"
    | Some poolToken =>
        let* amount := index amounts i in
        let joinAmount := scaleDown (g amount) (PoolToken.decimals poolToken) in
        ret (<[i := Some joinAmount]> joinAmounts)
    end.

Lemma grossBody_run g poolId amounts i a acc w :
  grossBody g poolId amounts i a acc w =
  match poolTokens (store w) !! getPoolTokenId poolId a with
  | None => Err "poolToken not found"
  | Some pt =>
      match amounts !! i with
      | None => Err "Index out of range"
      | Some amount =>
          Ok (<[i := Some (scaleDown (g amount) (PoolToken.decimals pt))]> acc, w)
      end
  end.
Proof.
  unfold grossBody, loadPoolToken, bind, gets, index.
  destruct (poolTokens (store w) !! getPoolTokenId poolId a); [ | reflexivity ].
  now destruct (amounts !! i).
Qed.


Lemma gross_loop_spec g poolId amounts l i acc w :
  (forall j a, l !! j = Some a ->
               is_Some (poolTokens (store w) !! getPoolTokenId poolId a)
               /\ is_Some (amounts !! (i + j)%nat)) ->
  (i + length l <= length acc)%nat ->
  wp (for_each (grossBody g poolId amounts) i l acc)
     (fun acc' w' =>
        w' = w /\ length acc' = length acc
        /\ (forall k, (k < i \/ i + length l <= k)%nat -> acc' !! k = acc !! k)
        /\ (forall j a, l !! j = Some a ->
              exists pt amount,
                poolTokens (store w) !! getPoolTokenId poolId a = Some pt
                /\ amounts !! (i + j)%nat = Some amount
                /\ acc' !! (i + j)%nat
                   = Some (Some (scaleDown (g amount) (PoolToken.decimals pt)))))
     w.
Proof.
  revert i acc. induction l as [ | a0 l IH ]; intros i acc Hpre Hlen.
  - apply wp_ret. repeat split; try done.
  - rewrite for_each_cons. apply wp_bind. unfold wp at 1. rewrite grossBody_run.
    destruct (Hpre 0%nat a0 eq_refl) as [[pt Hpt] [amount Hamt]].
    rewrite Nat.add_0_r in Hamt. rewrite Hpt, Hamt.
    cbn [length] in Hlen.
    eapply wp_mono.
    { apply IH.
      - intros j a Hj. specialize (Hpre (S j) a Hj).
        now rewrite Nat.add_succ_r in Hpre.
      - rewrite length_insert. lia. }
    cbn beta. intros acc' w' (-> & Hl & Hout & Hin).
    rewrite length_insert in Hl. repeat split; [ assumption | | ].
    + intros k Hk. cbn [length] in Hk. rewrite Hout by lia.
      apply list_lookup_insert_ne. lia.
    + intros [ | j ] a Hj; cbn in Hj.
      * injection Hj as <-. exists pt, amount. rewrite Nat.add_0_r.
        repeat split; try assumption.
        rewrite Hout by lia. apply list_lookup_insert_eq. lia.
      * destruct (Hin j a Hj) as (pt' & amount' & ? & ? & ?).
        exists pt', amount'. now rewrite Nat.add_succ_r.
Qed.

Lemma getPoolTokenId_inj poolId a b :
  getPoolTokenId poolId a = getPoolTokenId poolId b -> a = b.
Proof.
  unfold getPoolTokenId. intros Heq.
  apply (String.app_inj poolId) in Heq. now apply (String.app_inj "-") in Heq.
Qed.

(** The loop that nets the protocol fee out of each delta and books the
    result on the pool token and on the token. *)
Definition netBody (poolId : string) (amounts protocolFeeAmounts : list Z)
  : nat -> Address -> unit -> M unit :=
  fun i tokenAddress _ =>
    let* poolToken := loadPoolToken poolId tokenAddress in
    match poolToken with
    | None => throw "poolToken not found"
    | Some poolToken =>
        let* amount := index amounts i in
        let* fee := index protocolFeeAmounts i in
        let amountIn := amount - fee in
        let tokenAmountIn := tokenToDecimal amountIn (PoolToken.decimals poolToken) in
        let newBalance := BigDecimal.plus (PoolToken.balance poolToken) tokenAmountIn in
        savePoolToken (PoolToken.set_balance newBalance poolToken) ;;
        let* token := getToken tokenAddress in
        let tokenTotalBalanceNotional :=
          BigDecimal.plus (Token.totalBalanceNotional token) tokenAmountIn in
        saveToken (Token.set_totalBalanceNotional tokenTotalBalanceNotional token)
    end.

Definition creditPoolToken (x : BigDecimal) (pt : PoolToken.t) : PoolToken.t :=
  PoolToken.set_balance (BigDecimal.plus (PoolToken.balance pt) x) pt.

Definition creditToken (x : BigDecimal) (t : Token.t) : Token.t :=
  Token.set_totalBalanceNotional (BigDecimal.plus (Token.totalBalanceNotional t) x) t.

Lemma wp_netBody poolId amounts fees i a pt amount fee (Q : unit -> World -> Prop) w :
  poolTokens (store w) !! getPoolTokenId poolId a = Some pt ->
  PoolToken.id pt = getPoolTokenId poolId a ->
  amounts !! i = Some amount ->
  fees !! i = Some fee ->
  (forall t, tokens (store w) !! a = Some t -> Token.id t = a) ->
  (let x := tokenToDecimal (amount - fee) (PoolToken.decimals pt) in
   Q tt (mkWorld
           (set_tokens
              (<[a := creditToken x (tokenOrNew (tokens (store w)) a)]> (tokens (store w)))
              (set_poolTokens
                 (<[getPoolTokenId poolId a := creditPoolToken x pt]> (poolTokens (store w)))
                 (store w)))
           (logs w) (dispatched w))) ->
  wp (netBody poolId amounts fees i a tt) Q w.
Proof.
  intros Hpt Hid Hamt Hfee Hk HQ. unfold netBody.
  apply wp_bind. unfold loadPoolToken. apply wp_gets. rewrite Hpt.
  apply wp_bind. apply (wp_index _ _ _ _ _ Hamt).
  apply wp_bind. apply (wp_index _ _ _ _ _ Hfee).
  apply wp_bind. unfold savePoolToken. apply wp_modify.
  apply wp_touch_token.
  - exact Hk.
  - reflexivity.
  - cbn [store logs dispatched PoolToken.set_balance PoolToken.id].
    rewrite Hid. exact HQ.
Qed.

Lemma net_loop_spec poolId amounts fees l i w :
  keyed PoolToken.id (poolTokens (store w)) ->
  keyed Token.id (tokens (store w)) ->
  (forall j a, l !! j = Some a ->
               is_Some (poolTokens (store w) !! getPoolTokenId poolId a)
               /\ is_Some (amounts !! (i + j)%nat)
               /\ is_Some (fees !! (i + j)%nat)) ->
  wp (for_each (netBody poolId amounts fees) i l tt)
     (fun _ w' =>
        logs w' = logs w /\ dispatched w' = dispatched w
        /\ exists PT' T',
            store w' = set_tokens T' (set_poolTokens PT' (store w))
            /\ (forall k, (forall a, a ∈ l -> k <> getPoolTokenId poolId a) ->
                          PT' !! k = poolTokens (store w) !! k)
            /\ (forall b, b ∉ l -> T' !! b = tokens (store w) !! b)
            /\ (NoDup l ->
                forall j a, l !! j = Some a ->
                  exists pt amount fee,
                    poolTokens (store w) !! getPoolTokenId poolId a = Some pt
                    /\ amounts !! (i + j)%nat = Some amount
                    /\ fees !! (i + j)%nat = Some fee
                    /\ let x := tokenToDecimal (amount - fee) (PoolToken.decimals pt) in
                       PT' !! getPoolTokenId poolId a = Some (creditPoolToken x pt)
                       /\ T' !! a = Some (creditToken x (tokenOrNew (tokens (store w)) a))))
     w.
Proof.
  revert i w. induction l as [ | a0 l IH ]; intros i w HkPT HkT Hpre.
  - apply wp_ret. repeat split.
    exists (poolTokens (store w)), (tokens (store w)).
    split; [ now destruct (store w) | ].
    repeat split; done.
  - rewrite for_each_cons. apply wp_bind.
    destruct (Hpre 0%nat a0 eq_refl) as ([pt Hpt] & [amount Hamt] & [fee Hfee]).
    rewrite Nat.add_0_r in Hamt, Hfee.
    eapply wp_netBody; eauto using keyed_lookup.
    cbn zeta. set (x := tokenToDecimal (amount - fee) (PoolToken.decimals pt)).
    set (PT1 := <[getPoolTokenId poolId a0 := creditPoolToken x pt]> (poolTokens (store w))).
    set (T1 := <[a0 := creditToken x (tokenOrNew (tokens (store w)) a0)]> (tokens (store w))).
    eapply wp_mono.
    { apply IH; cbn [store set_tokens set_poolTokens tokens poolTokens].
      - apply keyed_insert; [ assumption | ].
        cbn. eauto using keyed_lookup.
      - apply keyed_insert; [ assumption | ].
        cbn. apply tokenOrNew_id. eauto using keyed_lookup.
      - intros j a Hj. specialize (Hpre (S j) a Hj).
        rewrite Nat.add_succ_r in Hpre. destruct Hpre as (Hp & ? & ?).
        repeat split; try assumption.
        unfold PT1. destruct (decide (getPoolTokenId poolId a0 = getPoolTokenId poolId a)) as [-> | Hne].
        + rewrite lookup_insert_eq. eauto.
        + now rewrite lookup_insert_ne. }
    cbn beta. cbn [store logs dispatched set_tokens set_poolTokens tokens poolTokens].
    intros _ w' (Hlogs & Hdisp & PT' & T' & Hst & HfPT & HfT & Hnd).
    repeat split; try assumption.
    exists PT', T'. split; [ rewrite Hst; reflexivity | ].
    repeat split.
    + intros k Hk. rewrite HfPT.
      * unfold PT1. apply lookup_insert_ne. apply not_eq_sym, Hk. left.
      * intros a Ha. apply Hk. now right.
    + intros b Hb. rewrite HfT.
      * unfold T1. apply lookup_insert_ne. intros ->. apply Hb. left.
      * intros Hin. apply Hb. now right.
    + intros Hnodup j a Hj. apply NoDup_cons in Hnodup as [Hnotin Hnodup].
      destruct j as [ | j ]; cbn in Hj.
      * injection Hj as <-. exists pt, amount, fee. rewrite Nat.add_0_r.
        repeat split; try assumption.
        -- rewrite HfPT; [ apply lookup_insert_eq | ].
           intros a Ha Heq. apply getPoolTokenId_inj in Heq. now subst.
        -- rewrite HfT by assumption. apply lookup_insert_eq.
      * destruct (Hnd Hnodup j a Hj) as (pt' & amount' & fee' & Hp' & Ha' & Hf' & Hr1 & Hr2).
        assert (Hne : a0 <> a).
        { intros ->. apply Hnotin. eapply list_elem_of_lookup_2; eauto. }
        exists pt', amount', fee'. rewrite Nat.add_succ_r.
        unfold PT1 in Hp'. rewrite lookup_insert_ne in Hp'
          by (intros Heq; apply getPoolTokenId_inj in Heq; contradiction).
        repeat split; try assumption.
        unfold tokenOrNew in *. unfold T1 in Hr2.
        now rewrite lookup_insert_ne in Hr2 by assumption.
Qed.

(** The search for the pool's own share token among its tokens. *)
Definition premintBody (pool : Pool.t) (amounts : list Z)
  : nat -> Address -> Z * BigDecimal -> M (Z * BigDecimal) :=
  fun i tokenAddress acc =>
    if bool_decide (tokenAddress = Pool.address pool) then
      let* preMintedBpt := index amounts i in
      ret (preMintedBpt, scaleDown preMintedBpt 18)
    else ret acc.

Lemma premint_loop_spec pool amounts l i acc w :
  (forall j a, l !! j = Some a -> is_Some (amounts !! (i + j)%nat)) ->
  wp (for_each (premintBody pool amounts) i l acc)
     (fun r w' =>
        w' = w
        /\ ((forall a, a ∈ l -> a <> Pool.address pool) -> r = acc)
        /\ (forall j amount,
              l !! j = Some (Pool.address pool) ->
              (forall j', (j < j')%nat -> l !! j' <> Some (Pool.address pool)) ->
              amounts !! (i + j)%nat = Some amount ->
              r = (amount, scaleDown amount 18)))
     w.
Proof.
  revert i acc. induction l as [ | a0 l IH ]; intros i acc Hpre.
  - apply wp_ret. repeat split; try done.
  - rewrite for_each_cons. apply wp_bind.
    destruct (Hpre 0%nat a0 eq_refl) as [amount0 Hamt0]. rewrite Nat.add_0_r in Hamt0.
    assert (Htail : forall j a, l !! j = Some a -> is_Some (amounts !! (S i + j)%nat)).
    { intros j a Hj. specialize (Hpre (S j) a Hj). now rewrite Nat.add_succ_r in Hpre. }
    unfold premintBody at 1. case_bool_decide as Heq.
    + apply wp_bind. apply (wp_index _ _ _ _ _ Hamt0). apply wp_ret.
      eapply wp_mono; [ apply IH; assumption | ].
      cbn beta. intros r w' (-> & Hnone & Hlast). repeat split.
      * intros Hall. exfalso. apply (Hall a0); [ left | assumption ].
      * intros [ | j ] amount Hj Hlater Hamt.
        -- rewrite Nat.add_0_r in Hamt. assert (amount = amount0) as -> by congruence.
           apply Hnone. intros a Ha ->.
           apply list_elem_of_lookup_1 in Ha as [j' Hj'].
           apply (Hlater (S j')); [ lia | exact Hj' ].
        -- apply (Hlast j amount Hj).
           ++ intros j' Hlt. apply (Hlater (S j')). lia.
           ++ now rewrite Nat.add_succ_r in Hamt.
    + apply wp_ret.
      eapply wp_mono; [ apply IH; assumption | ].
      cbn beta. intros r w' (-> & Hnone & Hlast). repeat split.
      * intros Hall. apply Hnone. intros a Ha. apply Hall. now right.
      * intros [ | j ] amount Hj Hlater Hamt.
        -- cbn in Hj. congruence.
        -- apply (Hlast j amount Hj).
           ++ intros j' Hlt. apply (Hlater (S j')). lia.
           ++ now rewrite Nat.add_succ_r in Hamt.
Qed.

(** The join handler keeps pools of these kinds apart: their share token
    is preminted. *)
Definition isPremintedPool (pool : Pool.t) : bool :=
  bool_decide (Pool.poolType pool = Some PoolType_StablePhantom)
  || isComposableStablePool pool || isManagedPool pool.

Definition joinId (event : PoolBalanceChanged.t) : string :=
  PoolBalanceChanged.transactionHash event +:+ pretty (PoolBalanceChanged.logIndex event).

Definition joinRecord (event : PoolBalanceChanged.t) (joinAmounts : list (option BigDecimal))
  : JoinExit.t :=
  JoinExit.mk (joinId event) "Join" (PoolBalanceChanged.liquidityProvider event)
              joinAmounts (PoolBalanceChanged.poolId event)
              (PoolBalanceChanged.liquidityProvider event)
              (PoolBalanceChanged.blockTimestamp event)
              (PoolBalanceChanged.transactionHash event)
              (PoolBalanceChanged.blockNumber event).

(** The synthetic transfer of the preminted shares, from the vault to the
    zero address. *)
Definition premintTransfer (event : PoolBalanceChanged.t) (pool : Pool.t) (preMintedBpt : Z)
  : Transfer.t :=
  Transfer.mk (Pool.address pool) VAULT_ADDRESS ZERO_ADDRESS preMintedBpt
              (PoolBalanceChanged.logIndex event)
              (PoolBalanceChanged.transactionHash event)
              (PoolBalanceChanged.blockNumber event)
              (PoolBalanceChanged.blockTimestamp event).

Lemma handlePoolJoined_phases (event : PoolBalanceChanged.t) :
  handlePoolJoined event =
  let poolId := PoolBalanceChanged.poolId event in
  let amounts := PoolBalanceChanged.deltas event in
  let protocolFeeAmounts := PoolBalanceChanged.protocolFeeAmounts event in
  let* blockTimestamp := toI32 (PoolBalanceChanged.blockTimestamp event) in
  let* pool := loadPool poolId in
  match pool with
  | None =>
      log_warning "Pool not found in handlePoolJoined: {} {}"
                  [poolId; PoolBalanceChanged.transactionHash event]
  | Some pool =>
      let tokenAddresses := Pool.tokensList pool in
      let* joinAmounts :=
        for_each (grossBody (fun x => x) poolId amounts) 0%nat tokenAddresses
                 (replicate (length amounts) None) in
      saveJoinExit
        (JoinExit.mk (joinId event) "Join" (PoolBalanceChanged.liquidityProvider event)
                     joinAmounts poolId (PoolBalanceChanged.liquidityProvider event)
                     blockTimestamp (PoolBalanceChanged.transactionHash event)
                     (PoolBalanceChanged.blockNumber event)) ;;
      for_each (netBody poolId amounts protocolFeeAmounts) 0%nat tokenAddresses tt ;;
      let* pool :=
        if isPremintedPool pool then
          let* preMinted :=
            for_each (premintBody pool amounts) 0%nat tokenAddresses (ZERO, ZERO_BD) in
          let '(preMintedBpt, scaledPreMintedBpt) := preMinted in
          dispatchTransfer (premintTransfer event pool preMintedBpt) ;;
          ret (Pool.set_totalShares
                 (BigDecimal.minus (Pool.totalShares pool) scaledPreMintedBpt) pool)
        else ret pool in
      savePool pool ;;
      updatePoolLiquidity poolId (PoolBalanceChanged.blockNumber event)
                          (PoolBalanceChanged.blockTimestamp event) ;;
      ret tt
  end.
Proof. reflexivity. Qed.

(** What a processed join leaves behind, in terms of the world [w] it
    started from. *)
Definition joinPost (event : PoolBalanceChanged.t) (pool : Pool.t) (w w' : World) : Prop :=
  let poolId := PoolBalanceChanged.poolId event in
  let amounts := PoolBalanceChanged.deltas event in
  let fees := PoolBalanceChanged.protocolFeeAmounts event in
  let tl := Pool.tokensList pool in
  exists (joinAmounts : list (option BigDecimal))
         (PT' : gmap string PoolToken.t) (T' : gmap string Token.t)
         (preMinted : Z * BigDecimal) (snaps : gmap string PoolSnapshot.t),
    let s2 :=
      set_tokens T'
        (set_poolTokens PT'
           (set_joinExits
              (<[joinId event := joinRecord event joinAmounts]> (joinExits (store w)))
              (store w))) in
    let gate := isPremintedPool pool in
    let mock := premintTransfer event pool preMinted.1 in
    let pool' :=
      if gate
      then Pool.set_totalShares (BigDecimal.minus (Pool.totalShares pool) preMinted.2) pool
      else pool in
    let s3 := if gate then handleTransfer mock s2 else s2 in
    store w' = set_poolSnapshots snaps (set_pools (<[Pool.id pool := pool']> (pools s3)) s3)
    /\ logs w' = logs w
    /\ dispatched w' = (if gate then dispatched w ++ [mock] else dispatched w)
    (* the audit amounts *)
    /\ length joinAmounts = length amounts
    /\ (forall j a, tl !! j = Some a ->
          exists pt amount,
            poolTokens (store w) !! getPoolTokenId poolId a = Some pt
            /\ amounts !! j = Some amount
            /\ joinAmounts !! j = Some (Some (scaleDown amount (PoolToken.decimals pt))))
    /\ (forall k, (length tl <= k < length amounts)%nat -> joinAmounts !! k = Some None)
    (* the fee-netted balances *)
    /\ (forall k, (forall a, a ∈ tl -> k <> getPoolTokenId poolId a) ->
                  PT' !! k = poolTokens (store w) !! k)
    /\ (forall b, b ∉ tl -> T' !! b = tokens (store w) !! b)
    /\ (NoDup tl ->
        forall j a, tl !! j = Some a ->
          exists pt amount fee,
            poolTokens (store w) !! getPoolTokenId poolId a = Some pt
            /\ amounts !! j = Some amount
            /\ fees !! j = Some fee
            /\ let x := tokenToDecimal (amount - fee) (PoolToken.decimals pt) in
               PT' !! getPoolTokenId poolId a = Some (creditPoolToken x pt)
               /\ T' !! a = Some (creditToken x (tokenOrNew (tokens (store w)) a)))
    (* the preminted shares *)
    /\ ((forall a, a ∈ tl -> a <> Pool.address pool) -> preMinted = (ZERO, ZERO_BD))
    /\ (forall j amount,
          gate = true ->
          tl !! j = Some (Pool.address pool) ->
          (forall j', (j < j')%nat -> tl !! j' <> Some (Pool.address pool)) ->
          amounts !! j = Some amount ->
          preMinted = (amount, scaleDown amount 18)).

Lemma handlePoolJoined_spec (event : PoolBalanceChanged.t) (pool : Pool.t) w :
  - 2 ^ 31 <= PoolBalanceChanged.blockTimestamp event < 2 ^ 31 ->
  pools (store w) !! PoolBalanceChanged.poolId event = Some pool ->
  Pool.id pool = PoolBalanceChanged.poolId event ->
  keyed PoolToken.id (poolTokens (store w)) ->
  keyed Token.id (tokens (store w)) ->
  (forall j a, Pool.tokensList pool !! j = Some a ->
     is_Some (poolTokens (store w) !! getPoolTokenId (PoolBalanceChanged.poolId event) a)
     /\ is_Some (PoolBalanceChanged.deltas event !! j)
     /\ is_Some (PoolBalanceChanged.protocolFeeAmounts event !! j)) ->
  wp (handlePoolJoined event) (fun _ w' => joinPost event pool w w') w.
Proof.
  intros Hts Hpool Hid HkPT HkT Hpre.
  set (poolId := PoolBalanceChanged.poolId event) in *.
  set (amounts := PoolBalanceChanged.deltas event) in *.
  set (fees := PoolBalanceChanged.protocolFeeAmounts event) in *.
  assert (Hlen : (length (Pool.tokensList pool) <= length amounts)%nat).
  { destruct (Pool.tokensList pool) as [ | a0 l0 ] eqn:Htl using rev_ind; [ cbn; lia | ].
    destruct (Hpre (length l0) a0) as (_ & [x Hx] & _).
    - rewrite lookup_app_r, Nat.sub_diag by lia. reflexivity.
    - apply lookup_lt_Some in Hx. rewrite length_app. cbn. lia. }
  rewrite handlePoolJoined_phases. cbn zeta. fold poolId amounts fees.
  apply wp_bind, wp_toI32; [ assumption | ].
  apply wp_bind. unfold loadPool. apply wp_gets. rewrite Hpool.
  (* audit amounts *)
  apply wp_bind. eapply wp_mono.
  { apply gross_loop_spec.
    - intros j a Hj. destruct (Hpre j a Hj) as (? & ? & ?). now split.
    - rewrite length_replicate. cbn. lia. }
  cbn beta. intros joinAmounts w1 (-> & HlenJ & HoutJ & HinJ).
  rewrite length_replicate in HlenJ.
  apply wp_bind. unfold saveJoinExit. apply wp_modify. cbn [JoinExit.id].
  (* fee-netted balances *)
  apply wp_bind. eapply wp_mono.
  { apply net_loop_spec; cbn [store set_joinExits poolTokens tokens];
      solve [ assumption | intros j a Hj; exact (Hpre j a Hj) ]. }
  cbn beta. cbn [store logs dispatched set_joinExits poolTokens tokens].
  intros _ w2 (Hlogs2 & Hdisp2 & PT' & T' & Hst2 & HfPT & HfT & Hnd).
  (* preminted shares, and the refresh *)
  apply wp_bind.
  destruct (isPremintedPool pool) eqn:Hgate.
  - apply wp_bind. eapply wp_mono.
    { apply premint_loop_spec. intros j a Hj. now destruct (Hpre j a Hj) as (? & ? & ?). }
    cbn beta. intros [preMintedBpt scaled] w3 (-> & Hnone & Hlast).
    apply wp_bind. unfold dispatchTransfer at 1, wp at 1.
    apply wp_ret. apply wp_bind. unfold savePool. apply wp_modify.
    cbn [store logs dispatched Pool.id Pool.set_totalShares].
    apply wp_bind. eapply wp_updatePoolLiquidity; [ | assumption | ].
    { cbn [store set_pools pools]. rewrite Hid. apply lookup_insert_eq. }
    apply wp_ret. cbn [store logs dispatched].
    exists joinAmounts, PT', T', (preMintedBpt, scaled). eexists.
    cbn zeta. rewrite Hgate. cbn [fst snd].
    split; [ rewrite Hst2; reflexivity | ].
    split; [ assumption | ].
    split; [ now rewrite Hdisp2 | ].
    split; [ assumption | ].
    split; [ exact HinJ | ].
    split.
    { intros k Hk. rewrite HoutJ by (cbn; lia).
      apply lookup_replicate_2. unfold amounts. lia. }
    split; [ assumption | ]. split; [ assumption | ]. split; [ assumption | ].
    split; [ assumption | ].
    intros j amount _. apply Hlast.
  - apply wp_ret. apply wp_bind. unfold savePool. apply wp_modify.
    cbn [store logs dispatched].
    apply wp_bind. eapply wp_updatePoolLiquidity; [ | assumption | ].
    { cbn [store set_pools pools]. rewrite Hid. apply lookup_insert_eq. }
    apply wp_ret. cbn [store logs dispatched].
    exists joinAmounts, PT', T', (ZERO, ZERO_BD). eexists.
    cbn zeta. rewrite Hgate. cbn [fst snd].
    split; [ rewrite Hst2; reflexivity | ].
    split; [ assumption | ].
    split; [ assumption | ].
    split; [ assumption | ].
    split; [ exact HinJ | ].
    split.
    { intros k Hk. rewrite HoutJ by (cbn; lia).
      apply lookup_replicate_2. unfold amounts. lia. }
    split; [ assumption | ]. split; [ assumption | ]. split; [ assumption | ].
    split; [ reflexivity | ].
    intros j amount Hfalse. discriminate Hfalse.
Qed.



(** The share-transfer handler works on shares, holders and pools: it
    leaves pool tokens, tokens and join/exit records alone. *)
Definition transfer_frame : Prop :=
  forall ev s,
    poolTokens (handleTransfer ev s) = poolTokens s
    /\ tokens (handleTransfer ev s) = tokens s
    /\ joinExits (handleTransfer ev s) = joinExits s.

End JoinFacts.

Section ManageFacts.
Context `{Collaborators}.

(** The pool token after a [PoolBalanceManaged] event. *)
Definition managePoolToken (cashDelta managedDelta : Z) (pt : PoolToken.t) : PoolToken.t :=
  let cashDeltaAmount := tokenToDecimal cashDelta (PoolToken.decimals pt) in
  let managedDeltaAmount := tokenToDecimal managedDelta (PoolToken.decimals pt) in
  let deltaAmount := BigDecimal.plus cashDeltaAmount managedDeltaAmount in
  PoolToken.mk (PoolToken.id pt) (PoolToken.poolId pt) (PoolToken.address pt)
               (PoolToken.symbol pt) (PoolToken.decimals pt)
               (BigDecimal.plus (PoolToken.balance pt) deltaAmount)
               (BigDecimal.plus (PoolToken.cashBalance pt) cashDeltaAmount)
               (BigDecimal.plus (PoolToken.managedBalance pt) managedDeltaAmount)
               (PoolToken.priceRate pt).

Lemma handleBalanceManage_known (event : PoolBalanceManaged.t) pool pt w :
  let poolId := PoolBalanceManaged.poolId event in
  let a := PoolBalanceManaged.token event in
  pools (store w) !! poolId = Some pool ->
  poolTokens (store w) !! getPoolTokenId poolId a = Some pt ->
  PoolToken.id pt = getPoolTokenId poolId a ->
  (forall t, tokens (store w) !! a = Some t -> Token.id t = a) ->
  handleBalanceManage event w =
  Ok (tt,
      let pt' := managePoolToken (PoolBalanceManaged.cashDelta event)
                                 (PoolBalanceManaged.managedDelta event) pt in
      let deltaAmount :=
        BigDecimal.plus
          (tokenToDecimal (PoolBalanceManaged.cashDelta event) (PoolToken.decimals pt))
          (tokenToDecimal (PoolBalanceManaged.managedDelta event) (PoolToken.decimals pt)) in
      mkWorld
        (set_tokens
           (<[a := creditToken deltaAmount (tokenOrNew (tokens (store w)) a)]>
              (tokens (store w)))
           (set_poolTokens (<[getPoolTokenId poolId a := pt']> (poolTokens (store w)))
                           (store w)))
        (logs w) (dispatched w)).
Proof.
  intros poolId a Hpool Hpt Hid Hk.
  assert (Hwp : wp (handleBalanceManage event)
                   (fun r w' => Ok (r, w') =
                      Ok (tt,
                          mkWorld
                            (set_tokens
                               (<[a := creditToken
                                         (BigDecimal.plus
                                            (tokenToDecimal (PoolBalanceManaged.cashDelta event)
                                                            (PoolToken.decimals pt))
                                            (tokenToDecimal (PoolBalanceManaged.managedDelta event)
                                                            (PoolToken.decimals pt)))
                                         (tokenOrNew (tokens (store w)) a)]>
                                  (tokens (store w)))
                               (set_poolTokens
                                  (<[getPoolTokenId poolId a :=
                                       managePoolToken (PoolBalanceManaged.cashDelta event)
                                                       (PoolBalanceManaged.managedDelta event) pt]>
                                     (poolTokens (store w)))
                                  (store w)))
                            (logs w) (dispatched w))) w).
  { unfold handleBalanceManage. fold poolId a.
    apply wp_bind. unfold loadPool. apply wp_gets. rewrite Hpool.
    apply wp_bind. unfold loadPoolToken. apply wp_gets. rewrite Hpt.
    apply wp_bind. unfold savePoolToken. apply wp_modify.
    apply wp_touch_token; [ exact Hk | reflexivity | ].
    cbn [store logs dispatched PoolToken.id PoolToken.set_managedBalance
         PoolToken.set_cashBalance PoolToken.set_balance].
    rewrite Hid. reflexivity. }
  unfold wp in Hwp. destruct (handleBalanceManage event w) as [[[] w'] | e];
    [ exact Hwp | contradiction ].
Qed.



End ManageFacts.

Section OracleFacts.
Context `{Collaborators}.

(** The tokens an answer of the aggregator is booked on: the static table
    first, then the tokens registered on the oracle entity that are not
    listed yet. *)
Definition tokensToUpdate (aggregatorAddress : Address) (oracle : option FXOracle.t)
  : list Address :=
  let fromTable :=
    fold_left
      (fun acc entry =>
         if bool_decide (aggregatorAddress = entry.2) then acc ++ [entry.1] else acc)
      FX_ASSET_AGGREGATORS [] in
  match oracle with
  | Some oracle =>
      fold_left
        (fun acc tokenAddress =>
           let tokenExists := bool_decide (tokenAddress ∈ acc) in
           if negb tokenExists then acc ++ [tokenAddress] else acc)
        (FXOracle.tokens oracle) fromTable
  | None => fromTable
  end.

(** The body of the loop over the tokens to update. *)
Definition priceBody (answer : Z) (oracle : option FXOracle.t)
  : nat -> Address -> unit -> M unit :=
  fun i tokenAddress _ =>
    let* token := gets (fun s => tokens s !! tokenAddress) in
    match token with
    | None => log_warning "Token with address {} not found" [tokenAddress]
    | Some token =>
        let token :=
          if Token.fxOracleDecimals token =? 0
          then Token.set_fxOracleDecimals 8 token else token in
        let direct := Token.set_latestFXPrice (Some (scaleDown answer 8)) token in
        let* token :=
          if bool_decide (tokenAddress = VNXAU) then
            let divisor := "3110347680" in
            let multiplier := "100000000" in
            let* m := parseBigInt multiplier in
            let* d := parseBigInt divisor in
            let* pricePerGram := BigInt_div (answer * m) d in
            ret (Token.set_latestFXPrice (Some (scaleDown pricePerGram 8)) token)
          else
            match oracle with
            | Some oracle =>
                match FXOracle.divisor oracle with
                | Some divisor =>
                    if negb (FXOracle.decimals oracle =? 0) then
                      let* ten := parseBigInt "10" in
                      let* d := parseBigInt divisor in
                      let* updatedAnswer :=
                        BigInt_div (answer * ten ^ u8 (FXOracle.decimals oracle)) d in
                      ret (Token.set_latestFXPrice
                             (Some (scaleDown updatedAnswer 8)) token)
                    else ret direct
                | None => ret direct
                end
            | None => ret direct
            end in
        saveToken token
    end.

Lemma handleAnswerUpdated_phases (event : AnswerUpdated.t) :
  handleAnswerUpdated event =
  let aggregatorAddress := AnswerUpdated.address event in
  let* oracle := gets (fun s => fxOracles s !! aggregatorAddress) in
  let* tokenAddressesToUpdate :=
    match oracle with
    | Some o => ret (tokensToUpdate aggregatorAddress (Some o))
    | None =>
        log_warning "Oracle not found: {}" [aggregatorAddress] ;;
        ret (tokensToUpdate aggregatorAddress None)
    end in
  for_each (priceBody (AnswerUpdated.current event) oracle) 0%nat tokenAddressesToUpdate tt.
Proof. reflexivity. Qed.

(** The price booked on a token, or the abort of the conversion. *)
Definition oraclePrice (oracle : option FXOracle.t) (answer : Z) (a : Address)
  : Res BigDecimal :=
  let direct := Ok (scaleDown answer 8) in
  if bool_decide (a = VNXAU) then
    Ok (scaleDown ((answer * 100000000) ÷ 3110347680) 8)
  else
    match oracle with
    | Some o =>
        match FXOracle.divisor o with
        | Some divisor =>
            if negb (FXOracle.decimals o =? 0) then
              match BigInt_fromString divisor with
              | Some d =>
                  if d =? 0 then Err "attempt to divide by zero"
                  else Ok (scaleDown ((answer * 10 ^ u8 (FXOracle.decimals o)) ÷ d) 8)
              | None => Err "BigInt.fromString: invalid integer"
              end
            else direct
        | None => direct
        end
    | None => direct
    end.

Definition withOracleDecimals (t : Token.t) : Token.t :=
  if Token.fxOracleDecimals t =? 0 then Token.set_fxOracleDecimals 8 t else t.

Definition tokenNotFound (a : Address) : LogEntry :=
  mkLog "Token with address {} not found" [a].

Lemma parse_multiplier : BigInt_fromString "100000000" = Some 100000000.
Proof. vm_compute. reflexivity. Qed.

Lemma parse_gram_divisor : BigInt_fromString "3110347680" = Some 3110347680.
Proof. vm_compute. reflexivity. Qed.

Lemma parse_ten : BigInt_fromString "10" = Some 10.
Proof. vm_compute. reflexivity. Qed.

Lemma priceBody_run answer oracle i a w :
  priceBody answer oracle i a tt w =
  match tokens (store w) !! a with
  | None => Ok (tt, mkWorld (store w) (logs w ++ [tokenNotFound a]) (dispatched w))
  | Some t =>
      match oraclePrice oracle answer a with
      | Ok p =>
          Ok (tt, mkWorld
                    (set_tokens
                       (<[Token.id t :=
                            Token.set_latestFXPrice (Some p) (withOracleDecimals t)]>
                          (tokens (store w)))
                       (store w))
                    (logs w) (dispatched w))
      | Err e => Err e
      end
  end.
Proof.
  unfold priceBody, oraclePrice. unfold bind at 1. unfold gets at 1.
  destruct (tokens (store w) !! a) as [t | ]; [ | reflexivity ].
  assert (Hid : Token.id (withOracleDecimals t) = Token.id t).
  { unfold withOracleDecimals. now destruct (_ =? _). }
  fold (withOracleDecimals t).
  case_bool_decide as Hx.
  - unfold bind, parseBigInt, BigInt_div.
    rewrite parse_multiplier, parse_gram_divisor.
    change (3110347680 =? 0) with false.
    unfold saveToken, modify, ret. cbn. now rewrite Hid.
  - destruct oracle as [o | ]; [ destruct (FXOracle.divisor o) as [dstr | ] | ];
      try (unfold bind, saveToken, modify, ret; cbn; now rewrite Hid).
    destruct (FXOracle.decimals o =? 0); cbn [negb];
      try (unfold bind, saveToken, modify, ret; cbn; now rewrite Hid).
    unfold bind at 1. unfold bind at 1. unfold parseBigInt at 1.
    rewrite parse_ten. unfold ret at 1.
    unfold bind at 1. unfold parseBigInt.
    destruct (BigInt_fromString dstr) as [d | ]; [ | reflexivity ].
    unfold ret at 1. unfold bind at 1. unfold BigInt_div.
    destruct (d =? 0); [ reflexivity | ].
    unfold ret, saveToken, modify. cbn. now rewrite Hid.
Qed.

Lemma price_loop_spec answer oracle (price : Address -> BigDecimal) l i w :
  keyed Token.id (tokens (store w)) ->
  (forall a, a ∈ l -> oraclePrice oracle answer a = Ok (price a)) ->
  wp (for_each (priceBody answer oracle) i l tt)
     (fun _ w' =>
        dispatched w' = dispatched w
        /\ (exists extra, logs w' = logs w ++ extra
              /\ forall a, a ∈ l -> tokens (store w) !! a = None -> tokenNotFound a ∈ extra)
        /\ exists T',
            store w' = set_tokens T' (store w)
            /\ (forall a, is_Some (T' !! a) <-> is_Some (tokens (store w) !! a))
            /\ (forall a, a ∉ l -> T' !! a = tokens (store w) !! a)
            /\ (forall a t', a ∈ l -> T' !! a = Some t' ->
                             Token.latestFXPrice t' = Some (price a)))
     w.
Proof.
  revert i w. induction l as [ | a0 l IH ]; intros i w Hk Hprice.
  - apply wp_ret. split; [ reflexivity | ]. split.
    + exists []. split; [ now rewrite app_nil_r | ]. intros a Ha. now apply elem_of_nil in Ha.
    + exists (tokens (store w)). split; [ now destruct (store w) | ].
      repeat split; try done. intros a t' Ha. now apply elem_of_nil in Ha.
  - rewrite for_each_cons. apply wp_bind. unfold wp at 1. rewrite priceBody_run.
    assert (Htail : forall a, a ∈ l -> oraclePrice oracle answer a = Ok (price a)).
    { intros a Ha. apply Hprice. now right. }
    destruct (tokens (store w) !! a0) as [t0 | ] eqn:Ht0.
    + rewrite (Hprice a0) by left. rewrite (keyed_lookup _ _ _ _ Hk Ht0).
      set (t1 := Token.set_latestFXPrice (Some (price a0)) (withOracleDecimals t0)).
      assert (Hid1 : Token.id t1 = a0).
      { unfold t1, withOracleDecimals. destruct (_ =? _); cbn;
          apply (keyed_lookup _ _ _ _ Hk Ht0). }
      eapply wp_mono.
      { apply IH; cbn [store set_tokens tokens]; [ | exact Htail ].
        now apply keyed_insert. }
      cbn beta. cbn [store logs dispatched set_tokens tokens].
      intros _ w' (Hdisp & (extra & Hlogs & Hextra) & T' & Hst & Hdom & Hframe & Hset).
      split; [ assumption | ]. split.
      * exists extra. split; [ assumption | ].
        intros a Ha Hnone. apply Hextra.
        -- apply elem_of_cons in Ha as [-> | Ha]; [ congruence | assumption ].
        -- rewrite lookup_insert_ne; [ assumption | ]. intros <-. congruence.
      * exists T'. split; [ rewrite Hst; reflexivity | ]. repeat split.
        -- intros Hs. apply Hdom in Hs.
           destruct (decide (a0 = a)) as [<- | Hne]; [ eauto | ].
           now rewrite lookup_insert_ne in Hs.
        -- intros Hs. apply Hdom.
           destruct (decide (a0 = a)) as [<- | Hne];
             [ rewrite lookup_insert_eq; eauto | now rewrite lookup_insert_ne ].
        -- intros a Ha. rewrite Hframe.
           ++ apply lookup_insert_ne. intros <-. apply Ha. left.
           ++ intros Hin. apply Ha. now right.
        -- intros a t' Ha Hlk.
           destruct (decide (a ∈ l)) as [Hin | Hnin]; [ now apply (Hset a t') | ].
           apply elem_of_cons in Ha as [-> | Ha]; [ | contradiction ].
           rewrite (Hframe a0 Hnin), lookup_insert_eq in Hlk.
           injection Hlk as <-. reflexivity.
    + eapply wp_mono.
      { apply IH; cbn [store]; assumption. }
      cbn beta. cbn [store logs dispatched].
      intros _ w' (Hdisp & (extra & Hlogs & Hextra) & T' & Hst & Hdom & Hframe & Hset).
      split; [ assumption | ]. split.
      * exists (tokenNotFound a0 :: extra). split.
        -- rewrite Hlogs, <- app_assoc. reflexivity.
        -- intros a Ha Hnone. apply elem_of_cons in Ha as [-> | Ha]; [ left | right; auto ].
      * exists T'. split; [ assumption | ]. repeat split; try apply Hdom.
        -- intros a Ha. apply Hframe. intros Hin. apply Ha. now right.
        -- intros a t' Ha Hlk.
           destruct (decide (a ∈ l)) as [Hin | Hnin]; [ now apply (Hset a t') | ].
           apply elem_of_cons in Ha as [-> | Ha]; [ | contradiction ].
           assert (Hs : is_Some (T' !! a0)) by eauto.
           apply Hdom in Hs. destruct Hs as [? Hs]. congruence.
Qed.

Lemma tokensToUpdate_spec (aggregatorAddress : Address) (oracle : option FXOracle.t) a :
  a ∈ tokensToUpdate aggregatorAddress oracle
  <-> (a, aggregatorAddress) ∈ FX_ASSET_AGGREGATORS
      \/ exists o, oracle = Some o /\ a ∈ FXOracle.tokens o.
Proof.
  unfold tokensToUpdate.
  assert (Htable : forall l acc,
             a ∈ fold_left
                   (fun acc entry =>
                      if bool_decide (aggregatorAddress = entry.2)
                      then acc ++ [entry.1] else acc) l acc
             <-> a ∈ acc \/ (a, aggregatorAddress) ∈ l).
  { induction l as [ | [tk ag] l IH ]; intros acc; cbn [fold_left].
    - rewrite elem_of_nil. tauto.
    - rewrite IH, elem_of_cons. cbn [fst snd]. case_bool_decide as Heq.
      + subst ag. rewrite elem_of_app, list_elem_of_singleton.
        split; [ intros [ [ ? | -> ] | ? ] | intros [ ? | [ [= ->] | ? ] ] ]; auto.
      + split; [ intros [ ? | ? ] | intros [ ? | [ [= -> ->] | ? ] ] ]; auto.
        contradiction. }
  assert (Horacle : forall l acc,
             a ∈ fold_left
                   (fun acc tokenAddress =>
                      let tokenExists := bool_decide (tokenAddress ∈ acc) in
                      if negb tokenExists then acc ++ [tokenAddress] else acc) l acc
             <-> a ∈ acc \/ a ∈ l).
  { induction l as [ | tk l IH ]; intros acc; cbn [fold_left].
    - rewrite elem_of_nil. tauto.
    - rewrite IH, elem_of_cons. cbn zeta. case_bool_decide as Hin; cbn [negb].
      + split; [ intros [ ? | ? ] | intros [ ? | [ -> | ? ] ] ]; auto.
      + rewrite elem_of_app, list_elem_of_singleton.
        split; [ intros [ [ ? | -> ] | ? ] | intros [ ? | [ -> | ? ] ] ]; auto. }
  destruct oracle as [o | ].
  - rewrite Horacle, Htable, elem_of_nil. split.
    + intros [ [ [] | ? ] | ? ]; [ now left | right; eauto ].
    + intros [ ? | (o' & [= <-] & ?) ]; auto.
  - rewrite Htable, elem_of_nil. split.
    + intros [ [] | ? ]. now left.
    + intros [ ? | (o' & [=] & ?) ]. auto.
Qed.

(** The handler on a well-formed oracle: every conversion goes through. *)
Definition divisorWellFormed (oracle : option FXOracle.t) : Prop :=
  forall o dstr,
    oracle = Some o -> FXOracle.divisor o = Some dstr -> FXOracle.decimals o <> 0 ->
    exists d, BigInt_fromString dstr = Some d /\ d <> 0.

Lemma oraclePrice_ok oracle answer a :
  divisorWellFormed oracle -> exists p, oraclePrice oracle answer a = Ok p.
Proof.
  intros Hwf. unfold oraclePrice. case_bool_decide; [ eauto | ].
  destruct oracle as [o | ]; [ | eauto ].
  destruct (FXOracle.divisor o) as [dstr | ] eqn:Hdiv; [ | eauto ].
  destruct (Z.eqb_spec (FXOracle.decimals o) 0) as [Hz | Hnz]; cbn [negb]; [ eauto | ].
  destruct (Hwf o dstr eq_refl Hdiv Hnz) as (d & -> & Hd).
  destruct (Z.eqb_spec d 0); [ contradiction | eauto ].
Qed.

Lemma handleAnswerUpdated_spec (event : AnswerUpdated.t) oracle w :
  fxOracles (store w) !! AnswerUpdated.address event = oracle ->
  keyed Token.id (tokens (store w)) ->
  divisorWellFormed oracle ->
  wp (handleAnswerUpdated event)
     (fun _ w' =>
        (forall a, is_Some (tokens (store w') !! a) <-> is_Some (tokens (store w) !! a))
        /\ (forall a t',
              a ∈ tokensToUpdate (AnswerUpdated.address event) oracle ->
              tokens (store w') !! a = Some t' ->
              exists p, oraclePrice oracle (AnswerUpdated.current event) a = Ok p
                        /\ Token.latestFXPrice t' = Some p)
        /\ (forall a,
              a ∈ tokensToUpdate (AnswerUpdated.address event) oracle ->
              tokens (store w) !! a = None -> tokenNotFound a ∈ logs w'))
     w.
Proof.
  intros Horacle HkT Hwf. rewrite handleAnswerUpdated_phases. cbn zeta.
  apply wp_bind, wp_gets. rewrite Horacle.
  set (price := fun a => match oraclePrice oracle (AnswerUpdated.current event) a with
                         | Ok p => p
                         | Err _ => ZERO_BD
                         end).
  assert (Hprice : forall (l : list Address) a, a ∈ l ->
            oraclePrice oracle (AnswerUpdated.current event) a = Ok (price a)).
  { intros l a _. unfold price.
    destruct (oraclePrice_ok oracle (AnswerUpdated.current event) a Hwf) as [p ->].
    reflexivity. }
  assert (Hloop : forall v,
             store v = store w -> (exists pre, logs v = logs w ++ pre) ->
             wp (for_each (priceBody (AnswerUpdated.current event) oracle) 0
                          (tokensToUpdate (AnswerUpdated.address event) oracle) tt)
                (fun _ w' =>
                   (forall a, is_Some (tokens (store w') !! a) <-> is_Some (tokens (store w) !! a))
                   /\ (forall a t',
                         a ∈ tokensToUpdate (AnswerUpdated.address event) oracle ->
                         tokens (store w') !! a = Some t' ->
                         exists p, oraclePrice oracle (AnswerUpdated.current event) a = Ok p
                                   /\ Token.latestFXPrice t' = Some p)
                   /\ (forall a,
                         a ∈ tokensToUpdate (AnswerUpdated.address event) oracle ->
                         tokens (store w) !! a = None -> tokenNotFound a ∈ logs w'))
                v).
  { intros v Hv [pre Hpre]. eapply wp_mono.
    { apply (price_loop_spec _ _ price); [ now rewrite Hv | apply Hprice ]. }
    cbn beta. rewrite Hv.
    intros _ w' (_ & (extra & Hlogs & Hextra) & T' & Hst & Hdom & _ & Hset).
    rewrite Hst. cbn [store set_tokens tokens]. split; [ exact Hdom | ]. split.
    - intros a t' Ha Hlk. exists (price a). split; [ now apply (Hprice [a]); left | ].
      now apply (Hset a t').
    - intros a Ha Hnone. rewrite Hlogs, Hpre, !elem_of_app. right. now apply Hextra. }
  destruct oracle as [o | ].
  - apply wp_bind, wp_ret. apply Hloop; [ reflexivity | ].
    exists []. now rewrite app_nil_r.
  - apply wp_bind, wp_bind, wp_log, wp_ret. apply Hloop; [ reflexivity | ].
    cbn [logs]. eauto.
Qed.

End OracleFacts.

Section SwapFacts.
Context `{Collaborators}.

(** The phases of [handleSwapEvent], in source order. *)

(** Refresh of the weights or of the amplification factor. *)
Definition refreshPool (event : SwapEvent.t) (pool : Pool.t) : M Pool.t :=
  if isVariableWeightPool pool then
    modify (updatePoolWeights (SwapEvent.poolId event)) ;;
    ret pool
  else if isStableLikePool pool then
    fun w =>
      let '(pool', s') :=
        updateAmpFactor pool (SwapEvent.blockTimestamp event) (store w) in
      Ok (pool', mkWorld s' (logs w) (dispatched w))
  else ret pool.

(** A swap of the pool's own share token is a mint or a burn. *)
Definition adjustVirtualSupply (event : SwapEvent.t) (pool : Pool.t) : M Pool.t :=
  let poolId := SwapEvent.poolId event in
  if hasVirtualSupply pool then
    let* pool :=
      if bool_decide (SwapEvent.tokenIn event = Pool.address pool) then
        let scaledAmount := tokenToDecimal (SwapEvent.amountIn event) 18 in
        let pool :=
          Pool.set_totalShares
            (BigDecimal.minus (Pool.totalShares pool) scaledAmount) pool in
        let* vaultPoolShare := getPoolShare poolId VAULT_ADDRESS in
        let vaultPoolShareBalance := PoolShare.balance vaultPoolShare in
        let vaultPoolShareBalance :=
          BigDecimal.minus vaultPoolShareBalance scaledAmount in
        savePoolShare (PoolShare.set_balance vaultPoolShareBalance vaultPoolShare) ;;
        ret pool
      else ret pool in
    if bool_decide (SwapEvent.tokenOut event = Pool.address pool) then
      let scaledAmount := tokenToDecimal (SwapEvent.amountOut event) 18 in
      let pool :=
        Pool.set_totalShares
          (BigDecimal.plus (Pool.totalShares pool) scaledAmount) pool in
      let* vaultPoolShare := getPoolShare poolId VAULT_ADDRESS in
      let vaultPoolShareBalance := PoolShare.balance vaultPoolShare in
      let vaultPoolShareBalance :=
        BigDecimal.plus vaultPoolShareBalance scaledAmount in
      savePoolShare (PoolShare.set_balance vaultPoolShareBalance vaultPoolShare) ;;
      ret pool
    else ret pool
  else ret pool.

(** The rate-adjusted balances of the tokens other than the share token. *)
Definition invariantBody (pool : Pool.t) : nat -> Address -> list Z -> M (list Z) :=
  fun i tokenAddress balances =>
    if bool_decide (tokenAddress = Pool.address pool) then ret balances
    else
      let* poolToken := loadPoolToken (Pool.id pool) tokenAddress in
      match poolToken with
      | None => throw "poolToken not found"
      | Some poolToken =>
          let* balance :=
            liftRes
              (scaleUp
                 (BigDecimal.times (PoolToken.balance poolToken)
                                   (PoolToken.priceRate poolToken))
                 18) in
          ret (balances ++ [balance])
      end.

Definition swapId (event : SwapEvent.t) : string :=
  SwapEvent.transactionHash event +:+ pretty (SwapEvent.logIndex event).

(** The composable-stable invariant refresh of a join/exit swap. *)
Definition refreshInvariant (event : SwapEvent.t) (pool : Pool.t) : M Pool.t :=
  let isJoinExitSwap :=
    bool_decide (Pool.address pool = SwapEvent.tokenIn event)
    || bool_decide (Pool.address pool = SwapEvent.tokenOut event) in
  if isJoinExitSwap then
    if isComposableStablePool pool then
      let* balances := for_each (invariantBody pool) 0%nat (Pool.tokensList pool) [] in
      match Pool.amp pool with
      | Some a =>
          let amp := a * AMP_PRECISION in
          let invariantInt := calculateInvariant amp balances (swapId event) in
          let invariant := scaleDown invariantInt 18 in
          ret (Pool.set_lastPostJoinExit (Some invariant) (Pool.amp pool) pool)
      | None => ret pool
      end
    else ret pool
  else ret pool.

Definition swapRecord (event : SwapEvent.t) (poolTokenIn poolTokenOut : PoolToken.t) : Swap.t :=
  Swap.mk (swapId event) (SwapEvent.tokenIn event) (PoolToken.symbol poolTokenIn)
          (scaleDown (SwapEvent.amountIn event) (PoolToken.decimals poolTokenIn))
          (SwapEvent.tokenOut event) (PoolToken.symbol poolTokenOut)
          (scaleDown (SwapEvent.amountOut event) (PoolToken.decimals poolTokenOut))
          (SwapEvent.transactionFrom event) (SwapEvent.transactionFrom event)
          (SwapEvent.poolId event) (SwapEvent.blockTimestamp event)
          (SwapEvent.transactionHash event) (SwapEvent.blockNumber event).

(** Counters and notional balances, then the refresh of the snapshot for a
    swap with two non-zero legs. *)
Definition bookSwap (event : SwapEvent.t) (tokenAmountIn tokenAmountOut : BigDecimal)
  : M unit :=
  let* vault := gets (fun s => balancers s !! "2") in
  match vault with
  | None => throw "unexpected null"
  | Some vault =>
      saveBalancer
        (Balancer.mk (Balancer.id vault) (Balancer.totalSwapCount vault + 1)) ;;
      uptickSwapsForToken (SwapEvent.tokenIn event) ;;
      uptickSwapsForToken (SwapEvent.tokenOut event) ;;
      updateTokenBalances (SwapEvent.tokenIn event) tokenAmountIn SWAP_IN ;;
      updateTokenBalances (SwapEvent.tokenOut event) tokenAmountOut SWAP_OUT ;;
      if BigDecimal.equals tokenAmountOut ZERO_BD
         || BigDecimal.equals tokenAmountIn ZERO_BD
      then ret tt
      else
        updatePoolLiquidity (SwapEvent.poolId event) (SwapEvent.blockNumber event)
                            (SwapEvent.blockTimestamp event) ;;
        ret tt
  end.


Lemma handleSwapEvent_phases (event : SwapEvent.t) :
  handleSwapEvent event =
  (createUserEntity (SwapEvent.transactionFrom event) ;;
   let poolId := SwapEvent.poolId event in
   let* pool := loadPool poolId in
   match pool with
   | None => log_warning "Pool not found in handleSwapEvent: {}" [poolId]
   | Some pool =>
       let* pool := refreshPool event pool in
       let* pool := adjustVirtualSupply event pool in
       let* blockTimestamp := toI32 (SwapEvent.blockTimestamp event) in
       let* poolTokenIn := loadPoolToken poolId (SwapEvent.tokenIn event) in
       let* poolTokenOut := loadPoolToken poolId (SwapEvent.tokenOut event) in
       match poolTokenIn, poolTokenOut with
       | Some poolTokenIn, Some poolTokenOut =>
           let tokenAmountIn :=
             scaleDown (SwapEvent.amountIn event) (PoolToken.decimals poolTokenIn) in
           let tokenAmountOut :=
             scaleDown (SwapEvent.amountOut event) (PoolToken.decimals poolTokenOut) in
           savePoolToken
             (PoolToken.set_balance
                (BigDecimal.plus (PoolToken.balance poolTokenIn) tokenAmountIn)
                poolTokenIn) ;;
           savePoolToken
             (PoolToken.set_balance
                (BigDecimal.minus (PoolToken.balance poolTokenOut) tokenAmountOut)
                poolTokenOut) ;;
           let* pool := refreshInvariant event pool in
           saveSwap
             (Swap.mk (swapId event) (SwapEvent.tokenIn event)
                      (PoolToken.symbol poolTokenIn) tokenAmountIn
                      (SwapEvent.tokenOut event) (PoolToken.symbol poolTokenOut)
                      tokenAmountOut (SwapEvent.transactionFrom event)
                      (SwapEvent.transactionFrom event) poolId blockTimestamp
                      (SwapEvent.transactionHash event) (SwapEvent.blockNumber event)) ;;
           savePool (Pool.set_swapsCount (Pool.swapsCount pool + 1) pool) ;;
           bookSwap event tokenAmountIn tokenAmountOut
       | _, _ =>
           log_warning
             "PoolToken not found in handleSwapEvent: (tokenIn: {}), (tokenOut: {})"
             [SwapEvent.tokenIn event; SwapEvent.tokenOut event]
       end
   end)%handler.
Proof. reflexivity. Qed.

(** The refresh of weights and amplification leaves the accounting tables
    alone: it rewrites pools only, and of the handler's pool object only the
    amplification factor. *)
Definition refresh_frame : Prop :=
  (forall id s, updatePoolWeights id s = set_pools (pools (updatePoolWeights id s)) s)
  /\ (forall p ts s,
        (updateAmpFactor p ts s).1 = Pool.set_amp (Pool.amp (updateAmpFactor p ts s).1) p
        /\ (updateAmpFactor p ts s).2 = set_pools (pools (updateAmpFactor p ts s).2) s).

Lemma world_eta w : mkWorld (store w) (logs w) (dispatched w) = w.
Proof. now destruct w. Qed.

Lemma set_pools_eta s : set_pools (pools s) s = s.
Proof. now destruct s. Qed.

Lemma set_users_eta s : set_users (users s) s = s.
Proof. now destruct s. Qed.

Lemma set_amp_eta p : Pool.set_amp (Pool.amp p) p = p.
Proof. now destruct p. Qed.

Lemma set_totalShares_eta p : Pool.set_totalShares (Pool.totalShares p) p = p.
Proof. now destruct p. Qed.

Lemma wp_createUserEntity (a : Address) (Q : unit -> World -> Prop) w :
  (forall U', Q tt (mkWorld (set_users U' (store w)) (logs w) (dispatched w))) ->
  wp (createUserEntity a) Q w.
Proof.
  intros HQ. unfold createUserEntity. apply wp_bind, wp_gets.
  case_bool_decide.
  - apply wp_ret. specialize (HQ (users (store w))).
    now rewrite set_users_eta, world_eta in HQ.
  - apply wp_modify. apply HQ.
Qed.

Lemma wp_refreshPool (event : SwapEvent.t) (pool : Pool.t) (Q : Pool.t -> World -> Prop) w :
  refresh_frame ->
  (forall amp' P',
      Q (Pool.set_amp amp' pool) (mkWorld (set_pools P' (store w)) (logs w) (dispatched w))) ->
  wp (refreshPool event pool) Q w.
Proof.
  intros [Hweights Hamp] HQ. unfold refreshPool.
  destruct (isVariableWeightPool pool).
  - apply wp_bind, wp_modify, wp_ret. cbn [store logs dispatched].
    rewrite Hweights. specialize (HQ (Pool.amp pool)). rewrite set_amp_eta in HQ. apply HQ.
  - destruct (isStableLikePool pool).
    + unfold wp.
      destruct (Hamp pool (SwapEvent.blockTimestamp event) (store w)) as [Hp Hs].
      destruct (updateAmpFactor pool (SwapEvent.blockTimestamp event) (store w))
        as [pool' s'] eqn:Hupd.
      cbn [fst snd] in Hp, Hs. rewrite Hp, Hs. apply HQ.
    + apply wp_ret. specialize (HQ (Pool.amp pool) (pools (store w))).
      now rewrite set_amp_eta, set_pools_eta, world_eta in HQ.
Qed.

(** *** The vault's share of a virtual-supply pool *)

Definition vaultShareId (poolId : string) : string :=
  getPoolShareId (getPoolAddress poolId) VAULT_ADDRESS.

(** What [getPoolShare(poolId, VAULT_ADDRESS)] returns. *)
Definition shareOrNew (PS : gmap string PoolShare.t) (poolId : string) : PoolShare.t :=
  default (PoolShare.mk (vaultShareId poolId) VAULT_ADDRESS poolId ZERO_BD)
          (PS !! vaultShareId poolId).

Definition moveShares (f : BigDecimal -> BigDecimal) (poolId : string)
           (PS : gmap string PoolShare.t) : gmap string PoolShare.t :=
  <[vaultShareId poolId :=
      PoolShare.set_balance (f (PoolShare.balance (shareOrNew PS poolId)))
                            (shareOrNew PS poolId)]> PS.

Definition vaultKeyed (poolId : string) (PS : gmap string PoolShare.t) : Prop :=
  forall ps, PS !! vaultShareId poolId = Some ps -> PoolShare.id ps = vaultShareId poolId.

Lemma shareOrNew_id PS poolId :
  vaultKeyed poolId PS -> PoolShare.id (shareOrNew PS poolId) = vaultShareId poolId.
Proof.
  intros Hk. unfold shareOrNew.
  destruct (PS !! vaultShareId poolId) as [ps | ] eqn:E; [ now apply Hk | reflexivity ].
Qed.

Lemma moveShares_keyed f poolId PS :
  vaultKeyed poolId PS -> vaultKeyed poolId (moveShares f poolId PS).
Proof.
  intros Hk ps. unfold moveShares. rewrite lookup_insert_eq. intros [= <-].
  cbn. now apply shareOrNew_id.
Qed.

Lemma wp_moveShares (f : BigDecimal -> BigDecimal) (poolId : string) (pool : Pool.t)
      (Q : Pool.t -> World -> Prop) w :
  vaultKeyed poolId (poolShares (store w)) ->
  (forall U',
      Q pool (mkWorld
                (set_users U' (set_poolShares (moveShares f poolId (poolShares (store w)))
                                              (store w)))
                (logs w) (dispatched w))) ->
  wp (let* vaultPoolShare := getPoolShare poolId VAULT_ADDRESS in
      savePoolShare
        (PoolShare.set_balance (f (PoolShare.balance vaultPoolShare)) vaultPoolShare) ;;
      ret pool)
     Q w.
Proof.
  intros Hk HQ. apply wp_bind. unfold getPoolShare.
  apply wp_bind, wp_gets. fold (vaultShareId poolId).
  pose proof (shareOrNew_id _ _ Hk) as Hid. unfold moveShares in HQ.
  destruct (poolShares (store w) !! vaultShareId poolId) as [ps | ] eqn:Hps.
  - assert (Hval : shareOrNew (poolShares (store w)) poolId = ps)
      by (unfold shareOrNew; now rewrite Hps).
    rewrite Hval in *.
    apply wp_ret, wp_bind. unfold savePoolShare. apply wp_modify, wp_ret.
    cbn [PoolShare.id PoolShare.set_balance]. rewrite Hid.
    specialize (HQ (users (store w))). clear - HQ.
    destruct w as [[] ? ?]. exact HQ.
  - assert (Hval : shareOrNew (poolShares (store w)) poolId
                   = PoolShare.mk (vaultShareId poolId) VAULT_ADDRESS poolId ZERO_BD)
      by (unfold shareOrNew; now rewrite Hps).
    rewrite Hval in *.
    unfold createPoolShareEntity. apply wp_bind, wp_createUserEntity. intros U'.
    apply wp_bind, wp_modify, wp_ret, wp_bind. unfold savePoolShare.
    apply wp_modify, wp_ret. fold (vaultShareId poolId).
    cbn [store logs dispatched set_users set_poolShares poolShares PoolShare.id
         PoolShare.set_balance pools poolTokens tokens users swaps joinExits
         balancers fxOracles poolSnapshots].
    rewrite insert_insert_eq. apply (HQ U').
Qed.

Definition virtualShares (event : SwapEvent.t) (pool : Pool.t) (T : BigDecimal)
  : BigDecimal :=
  if hasVirtualSupply pool then
    let T1 :=
      if bool_decide (SwapEvent.tokenIn event = Pool.address pool)
      then BigDecimal.minus T (tokenToDecimal (SwapEvent.amountIn event) 18) else T in
    if bool_decide (SwapEvent.tokenOut event = Pool.address pool)
    then BigDecimal.plus T1 (tokenToDecimal (SwapEvent.amountOut event) 18) else T1
  else T.

Definition virtualVault (event : SwapEvent.t) (pool : Pool.t)
           (PS : gmap string PoolShare.t) : gmap string PoolShare.t :=
  let poolId := SwapEvent.poolId event in
  if hasVirtualSupply pool then
    let PS1 :=
      if bool_decide (SwapEvent.tokenIn event = Pool.address pool)
      then moveShares
             (fun b => BigDecimal.minus b (tokenToDecimal (SwapEvent.amountIn event) 18))
             poolId PS
      else PS in
    if bool_decide (SwapEvent.tokenOut event = Pool.address pool)
    then moveShares
           (fun b => BigDecimal.plus b (tokenToDecimal (SwapEvent.amountOut event) 18))
           poolId PS1
    else PS1
  else PS.

Lemma virtualVault_keyed event pool PS :
  vaultKeyed (SwapEvent.poolId event) PS ->
  vaultKeyed (SwapEvent.poolId event) (virtualVault event pool PS).
Proof.
  intros Hk. unfold virtualVault.
  destruct (hasVirtualSupply pool); [ | assumption ].
  repeat case_bool_decide; auto using moveShares_keyed.
Qed.

Lemma wp_adjustVirtualSupply (event : SwapEvent.t) (pool : Pool.t)
      (Q : Pool.t -> World -> Prop) w :
  vaultKeyed (SwapEvent.poolId event) (poolShares (store w)) ->
  (forall U',
      Q (Pool.set_totalShares (virtualShares event pool (Pool.totalShares pool)) pool)
        (mkWorld
           (set_users U' (set_poolShares (virtualVault event pool (poolShares (store w)))
                                         (store w)))
           (logs w) (dispatched w))) ->
  wp (adjustVirtualSupply event pool) Q w.
Proof.
  intros Hk HQ. unfold adjustVirtualSupply, virtualShares, virtualVault in *.
  assert (Hnop : forall s, set_users (users s) (set_poolShares (poolShares s) s) = s)
    by (now intros []).
  set (burn := fun b => BigDecimal.minus b (tokenToDecimal (SwapEvent.amountIn event) 18)) in *.
  set (mint := fun b => BigDecimal.plus b (tokenToDecimal (SwapEvent.amountOut event) 18)) in *.
  destruct (hasVirtualSupply pool).
  - apply wp_bind.
    destruct (bool_decide (SwapEvent.tokenIn event = Pool.address pool)) eqn:Hin.
    + apply (wp_moveShares burn); [ assumption | ]. intros U1.
      cbn [Pool.address Pool.set_totalShares store logs dispatched set_users
           set_poolShares poolShares].
      destruct (bool_decide (SwapEvent.tokenOut event = Pool.address pool)) eqn:Hout.
      * apply (wp_moveShares mint);
          [ cbn [store set_users set_poolShares poolShares]; now apply moveShares_keyed | ].
        intros U2. cbn [Pool.totalShares Pool.set_totalShares]. apply (HQ U2).
      * apply wp_ret. apply (HQ U1).
    + apply wp_ret.
      destruct (bool_decide (SwapEvent.tokenOut event = Pool.address pool)) eqn:Hout.
      * apply (wp_moveShares mint); [ assumption | ]. intros U2. apply (HQ U2).
      * apply wp_ret. specialize (HQ (users (store w))).
        now rewrite set_totalShares_eta, Hnop, world_eta in HQ.
  - apply wp_ret. specialize (HQ (users (store w))).
    now rewrite set_totalShares_eta, Hnop, world_eta in HQ.
Qed.

(** *** The invariant refresh *)

Lemma invariant_loop_spec (pool : Pool.t) l i acc w :
  (forall a, a ∈ l -> a <> Pool.address pool ->
             is_Some (poolTokens (store w) !! getPoolTokenId (Pool.id pool) a)) ->
  wp (for_each (invariantBody pool) i l acc) (fun _ w' => w' = w) w.
Proof.
  revert i acc. induction l as [ | a0 l IH ]; intros i acc Hpre.
  - now apply wp_ret.
  - rewrite for_each_cons. apply wp_bind.
    assert (Htail : forall a, a ∈ l -> a <> Pool.address pool ->
                      is_Some (poolTokens (store w) !! getPoolTokenId (Pool.id pool) a)).
    { intros a Ha. apply Hpre. now right. }
    unfold invariantBody at 1. case_bool_decide as Heq.
    + apply wp_ret. now apply IH.
    + destruct (Hpre a0) as [pt Hpt]; [ left | assumption | ].
      apply wp_bind. unfold loadPoolToken. apply wp_gets. rewrite Hpt.
      apply wp_bind. rewrite scaleUp_trunc by lia. cbn [liftRes].
      apply wp_ret, wp_ret. now apply IH.
Qed.

Lemma wp_refreshInvariant (event : SwapEvent.t) (pool : Pool.t)
      (Q : Pool.t -> World -> Prop) w :
  (forall a, a ∈ Pool.tokensList pool -> a <> Pool.address pool ->
             is_Some (poolTokens (store w) !! getPoolTokenId (Pool.id pool) a)) ->
  (forall inv a, Q (Pool.set_lastPostJoinExit inv a pool) w) ->
  wp (refreshInvariant event pool) Q w.
Proof.
  intros Hpre HQ. unfold refreshInvariant.
  assert (Hsame : Q pool w).
  { specialize (HQ (Pool.lastPostJoinExitInvariant pool) (Pool.lastJoinExitAmp pool)).
    now destruct pool. }
  destruct (_ || _); [ | now apply wp_ret ].
  destruct (isComposableStablePool pool); [ | now apply wp_ret ].
  apply wp_bind. eapply wp_mono; [ now apply invariant_loop_spec | ].
  cbn beta. intros balances w' ->.
  destruct (Pool.amp pool); apply wp_ret; [ apply HQ | exact Hsame ].
Qed.

(** *** Counters and notional balances *)

Definition uptick (t : Token.t) : Token.t :=
  Token.set_totalSwapCount (Token.totalSwapCount t + 1) t.

Definition moveNotional (swapDirection : Z) (x : BigDecimal) (t : Token.t) : Token.t :=
  if swapDirection =? SWAP_IN then
    Token.set_totalBalanceNotional (BigDecimal.plus (Token.totalBalanceNotional t) x) t
  else if swapDirection =? SWAP_OUT then
    Token.set_totalBalanceNotional (BigDecimal.minus (Token.totalBalanceNotional t) x) t
  else t.

(** The token table after the four updates of a swap. *)
Definition swapTokens (event : SwapEvent.t) (tokenAmountIn tokenAmountOut : BigDecimal)
           (T : gmap string Token.t) : gmap string Token.t :=
  let tin := SwapEvent.tokenIn event in
  let tout := SwapEvent.tokenOut event in
  let T1 := <[tin := uptick (tokenOrNew T tin)]> T in
  let T2 := <[tout := uptick (tokenOrNew T1 tout)]> T1 in
  let T3 := <[tin := moveNotional SWAP_IN tokenAmountIn (tokenOrNew T2 tin)]> T2 in
  <[tout := moveNotional SWAP_OUT tokenAmountOut (tokenOrNew T3 tout)]> T3.

Lemma moveNotional_id d x t : Token.id (moveNotional d x t) = Token.id t.
Proof. unfold moveNotional. now repeat destruct (_ =? _). Qed.

Lemma keyed_touch (f : Token.t -> Token.t) T a :
  keyed Token.id T -> (forall t, Token.id (f t) = Token.id t) ->
  keyed Token.id (<[a := f (tokenOrNew T a)]> T).
Proof.
  intros Hk Hf. apply keyed_insert; [ assumption | ].
  rewrite Hf. apply tokenOrNew_id. eauto using keyed_lookup.
Qed.

Lemma swapTokens_keyed event x y T :
  keyed Token.id T -> keyed Token.id (swapTokens event x y T).
Proof.
  intros Hk. unfold swapTokens. cbn zeta.
  repeat apply keyed_touch; auto using moveNotional_id.
Qed.

Definition zeroLeg (tokenAmountIn tokenAmountOut : BigDecimal) : bool :=
  BigDecimal.equals tokenAmountOut ZERO_BD || BigDecimal.equals tokenAmountIn ZERO_BD.

Lemma wp_bookSwap (event : SwapEvent.t) (x y : BigDecimal) vault pool
      (Q : unit -> World -> Prop) w :
  balancers (store w) !! "2" = Some vault ->
  Balancer.id vault = "2" ->
  keyed Token.id (tokens (store w)) ->
  pools (store w) !! SwapEvent.poolId event = Some pool ->
  - 2 ^ 31 <= SwapEvent.blockTimestamp event < 2 ^ 31 ->
  (let s1 :=
     set_tokens (swapTokens event x y (tokens (store w)))
       (set_balancers
          (<["2" := Balancer.mk "2" (Balancer.totalSwapCount vault + 1)]>
             (balancers (store w)))
          (store w)) in
   Q tt (mkWorld
           (if zeroLeg x y then s1
            else set_poolSnapshots
                   (<[snapshotKey s1 pool (SwapEvent.blockTimestamp event) :=
                        snapshotWritten s1 pool (SwapEvent.blockTimestamp event)]>
                      (poolSnapshots s1))
                   s1)
           (logs w) (dispatched w))) ->
  wp (bookSwap event x y) Q w.
Proof.
  intros Hvault Hvid HkT Hpool Hts HQ. unfold bookSwap.
  apply wp_bind, wp_gets. rewrite Hvault.
  apply wp_bind. unfold saveBalancer. apply wp_modify. cbn [Balancer.id]. rewrite Hvid.
  unfold swapTokens in HQ. cbn zeta in HQ.
  set (tin := SwapEvent.tokenIn event) in *.
  set (tout := SwapEvent.tokenOut event) in *.
  set (T := tokens (store w)) in *.
  set (T1 := <[tin := uptick (tokenOrNew T tin)]> T) in *.
  set (T2 := <[tout := uptick (tokenOrNew T1 tout)]> T1) in *.
  set (T3 := <[tin := moveNotional SWAP_IN x (tokenOrNew T2 tin)]> T2) in *.
  assert (Hk1 : keyed Token.id T1) by (now apply keyed_touch).
  assert (Hk2 : keyed Token.id T2) by (now apply keyed_touch).
  assert (Hk3 : keyed Token.id T3) by (apply keyed_touch; auto using moveNotional_id).
  apply wp_bind. unfold uptickSwapsForToken at 1.
  apply (wp_touch_token tin uptick);
    [ cbn [store set_balancers tokens]; eauto using keyed_lookup | reflexivity | ].
  cbn [store logs dispatched set_balancers set_tokens tokens]. fold T T1.
  apply wp_bind. unfold uptickSwapsForToken at 1.
  apply (wp_touch_token tout uptick);
    [ cbn [store set_tokens tokens]; eauto using keyed_lookup | reflexivity | ].
  cbn [store logs dispatched set_balancers set_tokens tokens]. fold T2.
  apply wp_bind. unfold updateTokenBalances at 1.
  apply (wp_touch_token tin (moveNotional SWAP_IN x));
    [ cbn [store set_tokens tokens]; eauto using keyed_lookup | apply moveNotional_id | ].
  cbn [store logs dispatched set_balancers set_tokens tokens]. fold T3.
  apply wp_bind. unfold updateTokenBalances at 1.
  apply (wp_touch_token tout (moveNotional SWAP_OUT y));
    [ cbn [store set_tokens tokens]; eauto using keyed_lookup | apply moveNotional_id | ].
  cbn [store logs dispatched set_balancers set_tokens tokens pools poolTokens poolShares
       users swaps joinExits balancers fxOracles poolSnapshots].
  unfold zeroLeg in HQ.
  destruct (BigDecimal.equals y ZERO_BD || BigDecimal.equals x ZERO_BD).
  - apply wp_ret. exact HQ.
  - apply wp_bind. eapply wp_updatePoolLiquidity; [ exact Hpool | assumption | ].
    apply wp_ret. exact HQ.
Qed.

(** *** A processed swap *)

Definition creditIn (event : SwapEvent.t) (poolTokenIn : PoolToken.t) : PoolToken.t :=
  PoolToken.set_balance
    (BigDecimal.plus (PoolToken.balance poolTokenIn)
                     (scaleDown (SwapEvent.amountIn event) (PoolToken.decimals poolTokenIn)))
    poolTokenIn.

Definition debitOut (event : SwapEvent.t) (poolTokenOut : PoolToken.t) : PoolToken.t :=
  PoolToken.set_balance
    (BigDecimal.minus (PoolToken.balance poolTokenOut)
                      (scaleDown (SwapEvent.amountOut event) (PoolToken.decimals poolTokenOut)))
    poolTokenOut.

(** The preconditions under which a swap is processed to the end. *)
Record swapReady (event : SwapEvent.t) (pool : Pool.t) (poolTokenIn poolTokenOut : PoolToken.t)
       (vault : Balancer.t) (w : World) : Prop := {
  ready_timestamp : - 2 ^ 31 <= SwapEvent.blockTimestamp event < 2 ^ 31;
  ready_pool : pools (store w) !! SwapEvent.poolId event = Some pool;
  ready_pool_id : Pool.id pool = SwapEvent.poolId event;
  ready_tokenIn :
    poolTokens (store w) !! getPoolTokenId (SwapEvent.poolId event) (SwapEvent.tokenIn event)
    = Some poolTokenIn;
  ready_tokenOut :
    poolTokens (store w) !! getPoolTokenId (SwapEvent.poolId event) (SwapEvent.tokenOut event)
    = Some poolTokenOut;
  ready_poolTokens : keyed PoolToken.id (poolTokens (store w));
  ready_tokensList :
    forall a, a ∈ Pool.tokensList pool -> a <> Pool.address pool ->
              is_Some (poolTokens (store w) !! getPoolTokenId (SwapEvent.poolId event) a);
  ready_vault : balancers (store w) !! "2" = Some vault;
  ready_vault_id : Balancer.id vault = "2";
  ready_tokens : keyed Token.id (tokens (store w));
  ready_shares : vaultKeyed (SwapEvent.poolId event) (poolShares (store w))
}.

Definition swapPost (event : SwapEvent.t) (pool : Pool.t) (poolTokenIn poolTokenOut : PoolToken.t)
           (vault : Balancer.t) (w w' : World) : Prop :=
  let poolId := SwapEvent.poolId event in
  let x := scaleDown (SwapEvent.amountIn event) (PoolToken.decimals poolTokenIn) in
  let y := scaleDown (SwapEvent.amountOut event) (PoolToken.decimals poolTokenOut) in
  exists ampA P' U' inv lastAmp,
    let pA := Pool.set_amp ampA pool in
    let pB := Pool.set_totalShares (virtualShares event pA (Pool.totalShares pool)) pA in
    let pF :=
      Pool.set_swapsCount (Pool.swapsCount pool + 1)
                          (Pool.set_lastPostJoinExit inv lastAmp pB) in
    let s1 :=
      mkStore
        (<[poolId := pF]> P')
        (<[getPoolTokenId poolId (SwapEvent.tokenOut event) := debitOut event poolTokenOut]>
           (<[getPoolTokenId poolId (SwapEvent.tokenIn event) := creditIn event poolTokenIn]>
              (poolTokens (store w))))
        (swapTokens event x y (tokens (store w)))
        (virtualVault event pA (poolShares (store w)))
        U'
        (<[swapId event := swapRecord event poolTokenIn poolTokenOut]> (swaps (store w)))
        (joinExits (store w))
        (<["2" := Balancer.mk "2" (Balancer.totalSwapCount vault + 1)]> (balancers (store w)))
        (fxOracles (store w))
        (poolSnapshots (store w)) in
    store w' =
      (if zeroLeg x y then s1
       else set_poolSnapshots
              (<[snapshotKey s1 pF (SwapEvent.blockTimestamp event) :=
                   snapshotWritten s1 pF (SwapEvent.blockTimestamp event)]>
                 (poolSnapshots s1))
              s1)
    /\ logs w' = logs w
    /\ dispatched w' = dispatched w.

Lemma handleSwapEvent_spec (event : SwapEvent.t) pool poolTokenIn poolTokenOut vault w :
  refresh_frame ->
  swapReady event pool poolTokenIn poolTokenOut vault w ->
  wp (handleSwapEvent event)
     (fun _ w' => swapPost event pool poolTokenIn poolTokenOut vault w w') w.
Proof.
  intros Hframe [Hts Hpool Hid HptIn HptOut HkPT Htl Hvault Hvid HkT HkS].
  set (poolId := SwapEvent.poolId event) in *.
  rewrite handleSwapEvent_phases. cbn zeta. fold poolId.
  apply wp_bind, wp_createUserEntity. intros U0.
  apply wp_bind. unfold loadPool. apply wp_gets.
  cbn [store set_users pools]. rewrite Hpool.
  apply wp_bind, wp_refreshPool; [ assumption | ]. intros ampA P'.
  cbn [store logs dispatched].
  apply wp_bind, wp_adjustVirtualSupply.
  { cbn [store set_pools set_users poolShares]. exact HkS. }
  intros U'. cbn [store logs dispatched set_pools set_users poolShares Pool.totalShares
                  Pool.set_amp].
  apply wp_bind, wp_toI32; [ assumption | ].
  apply wp_bind. unfold loadPoolToken. apply wp_gets.
  cbn [store set_pools set_users set_poolShares poolTokens]. rewrite HptIn.
  apply wp_bind, wp_gets.
  cbn [store set_pools set_users set_poolShares poolTokens]. rewrite HptOut.
  apply wp_bind. unfold savePoolToken. apply wp_modify.
  apply wp_bind, wp_modify.
  cbn [store logs dispatched set_pools set_users set_poolShares set_poolTokens poolTokens
       PoolToken.id PoolToken.set_balance pools poolShares tokens users swaps joinExits
       balancers fxOracles poolSnapshots].
  rewrite (keyed_lookup _ _ _ _ HkPT HptIn), (keyed_lookup _ _ _ _ HkPT HptOut).
  apply wp_bind, wp_refreshInvariant.
  { cbn [store poolTokens set_poolTokens Pool.tokensList Pool.address Pool.id
         Pool.set_totalShares Pool.set_amp]. rewrite Hid.
    intros a Ha Hne. rewrite !lookup_insert_is_Some'. right. right. now apply Htl. }
  intros inv lastAmp.
  apply wp_bind. unfold saveSwap. apply wp_modify.
  apply wp_bind. unfold savePool. apply wp_modify.
  cbn [store logs dispatched set_swaps set_pools pools poolTokens poolShares tokens users
       swaps joinExits balancers fxOracles poolSnapshots Swap.id Pool.id
       Pool.set_swapsCount Pool.set_lastPostJoinExit Pool.set_totalShares Pool.set_amp
       Pool.swapsCount].
  rewrite Hid.
  eapply wp_bookSwap; cbn [store pools tokens balancers]; try eassumption.
  { apply lookup_insert_eq. }
  cbn zeta. cbn [store logs dispatched].
  exists ampA, P', U', inv, lastAmp. cbn zeta.
  split; [ | split; reflexivity ].
  unfold zeroLeg, creditIn, debitOut, swapRecord.
  destruct (_ || _); reflexivity.
Qed.

(** *** Swaps that are skipped *)




Lemma zeroLeg_spec (amountIn amountOut dIn dOut : Z) :
  zeroLeg (scaleDown amountIn dIn) (scaleDown amountOut dOut) = true
  <-> amountIn = 0 \/ amountOut = 0.
Proof.
  assert (Hz : forall n d, BigDecimal.equals (scaleDown n d) ZERO_BD = true <-> n = 0).
  { intros n d. rewrite equals_value, value_scaleDown. unfold ZERO_BD.
    rewrite value_zero. split.
    - intros Hq.
      assert (Hn : (inject_Z n == 0)%Q).
      { rewrite <- (Qmult_div_r (inject_Z n) (Qpower 10 (u8 d))) by apply Qpow10_nonzero.
        rewrite Hq. ring. }
      apply (inject_Z_injective n 0). exact Hn.
    - intros ->. unfold Qdiv. ring. }
  unfold zeroLeg. rewrite orb_true_iff, !Hz. tauto.
Qed.

Lemma tokenOrNew_insert_eq T a t : tokenOrNew (<[a := t]> T) a = t.
Proof. unfold tokenOrNew. now rewrite lookup_insert_eq. Qed.

Lemma tokenOrNew_insert_ne T a b t : a <> b -> tokenOrNew (<[a := t]> T) b = tokenOrNew T b.
Proof. intros Hne. unfold tokenOrNew. now rewrite lookup_insert_ne. Qed.

Lemma swapTokens_lookup (event : SwapEvent.t) x y T :
  SwapEvent.tokenIn event <> SwapEvent.tokenOut event ->
  SWAP_IN <> SWAP_OUT ->
  let tIn := tokenOrNew T (SwapEvent.tokenIn event) in
  let tOut := tokenOrNew T (SwapEvent.tokenOut event) in
  swapTokens event x y T !! SwapEvent.tokenIn event
  = Some (Token.set_totalBalanceNotional
            (BigDecimal.plus (Token.totalBalanceNotional tIn) x) (uptick tIn))
  /\ swapTokens event x y T !! SwapEvent.tokenOut event
     = Some (Token.set_totalBalanceNotional
               (BigDecimal.minus (Token.totalBalanceNotional tOut) y) (uptick tOut)).
Proof.
  intros Hne Hdir tIn tOut. unfold swapTokens. cbn zeta.
  rewrite (tokenOrNew_insert_ne _ _ (SwapEvent.tokenOut event)) by assumption.
  rewrite (tokenOrNew_insert_ne _ (SwapEvent.tokenOut event) (SwapEvent.tokenIn event))
    by now apply not_eq_sym.
  rewrite tokenOrNew_insert_eq.
  rewrite (tokenOrNew_insert_ne _ (SwapEvent.tokenIn event) (SwapEvent.tokenOut event))
    by assumption.
  rewrite tokenOrNew_insert_eq.
  unfold moveNotional. rewrite Z.eqb_refl.
  destruct (Z.eqb_spec SWAP_OUT SWAP_IN) as [Heq | _]; [ now symmetry in Heq | ].
  rewrite Z.eqb_refl. fold tIn tOut. split.
  - rewrite lookup_insert_ne by now apply not_eq_sym. now rewrite lookup_insert_eq.
  - now rewrite lookup_insert_eq.
Qed.

End SwapFacts.

(** ** A concrete deployment

    Collaborators and a small store on which the handlers can be run: a
    two-token weighted pool [P] with tokens [A] (6 decimals) and [B]
    (18 decimals), and a composable stable pool [S] whose share token is one
    of its own tokens. *)

Module Demo.

Definition vault : Address := "0xba12222222228d8ba445958a75a0704d566bf2c8".
Definition zeroAddress : Address := "0x0000000000000000000000000000000000000000".

Definition kindIs (kinds : list string) (pool : Pool.t) : bool :=
  match Pool.poolType pool with
  | Some k => bool_decide (k ∈ kinds)
  | None => false
  end.

(** A share-transfer handler for the demonstration: it debits the sender's
    shares on a burn and credits the recipient's on a mint. *)
Definition shareTransfer (ev : Transfer.t) (s : Store) : Store :=
  let amount := tokenToDecimal (Transfer.value ev) 18 in
  if bool_decide (Transfer.to ev = zeroAddress) then
    let key := Transfer.address ev +:+ "-" +:+ Transfer.from ev in
    match poolShares s !! key with
    | Some ps =>
        set_poolShares
          (<[key := PoolShare.set_balance (BigDecimal.minus (PoolShare.balance ps) amount) ps]>
             (poolShares s)) s
    | None => s
    end
  else s.

#[export] Instance collaborators : Collaborators := {|
  VAULT_ADDRESS := vault;
  ZERO_ADDRESS := zeroAddress;
  SWAP_IN := 0;
  SWAP_OUT := 1;
  AMP_PRECISION := 1000;
  PoolType_StablePhantom := "StablePhantom";
  FX_ASSET_AGGREGATORS := [("0xeur", "0xagg1")];
  getPoolAddress := fun poolId => substring 0 6 poolId;
  hasVirtualSupply := kindIs ["StablePhantom"; "ComposableStable"];
  isVariableWeightPool := kindIs ["LiquidityBootstrapping"; "Investment"];
  isStableLikePool := kindIs ["Stable"; "MetaStable"; "StablePhantom"; "ComposableStable"];
  isComposableStablePool := kindIs ["ComposableStable"];
  isManagedPool := kindIs ["Managed"];
  updatePoolWeights := fun _ s => s;
  updateAmpFactor := fun pool _ s => (pool, s);
  calculateInvariant := fun _ balances _ => fold_left Z.add balances 0;
  handleTransfer := shareTransfer;
  erc20 := fun _ => mkERC20 None None (Some 18)
|}.

Definition poolP : Pool.t :=
  Pool.mk "0xpoolP0001" "0xpool" (Some "Weighted") ["0xaaaa"; "0xbbbb"]
          BigDecimal.zero BigDecimal.zero 0 0 None None None.

Definition freshPoolToken (poolId : string) (a : Address) (sym : string) (dec : Z)
  : PoolToken.t :=
  PoolToken.mk (getPoolTokenId poolId a) poolId a sym dec
               BigDecimal.zero BigDecimal.zero BigDecimal.zero BigDecimal.one.

Definition poolS : Pool.t :=
  Pool.mk "0xstabS0002" "0xstab" (Some "ComposableStable") ["0xstab"; "0xaaaa"; "0xbbbb"]
          BigDecimal.zero BigDecimal.zero 0 0 (Some 200) None None.

Definition store0 : Store :=
  mkStore
    (<["0xstabS0002" := poolS]> {["0xpoolP0001" := poolP]})
    (list_to_map
       [ (getPoolTokenId "0xpoolP0001" "0xaaaa", freshPoolToken "0xpoolP0001" "0xaaaa" "A" 6);
         (getPoolTokenId "0xpoolP0001" "0xbbbb", freshPoolToken "0xpoolP0001" "0xbbbb" "B" 18);
         (getPoolTokenId "0xstabS0002" "0xstab", freshPoolToken "0xstabS0002" "0xstab" "S" 18);
         (getPoolTokenId "0xstabS0002" "0xaaaa", freshPoolToken "0xstabS0002" "0xaaaa" "A" 6);
         (getPoolTokenId "0xstabS0002" "0xbbbb", freshPoolToken "0xstabS0002" "0xbbbb" "B" 18) ])
    ∅ ∅ ∅ ∅ ∅
    {["2" := Balancer.mk "2" 0]}
    ∅ ∅.

Definition world0 : World := mkWorld store0 [] [].

(** The join of the scenario: one unit of [A] and two units of [B], no
    protocol fees. *)
Definition joinP : PoolBalanceChanged.t :=
  PoolBalanceChanged.mk "0xpoolP0001" "0xuser" [1000000; 2000000000000000000] [0; 0]
                        7 "0xtx01" 100 1700000000.

(** A pool one of whose tokens was never registered as a pool token. *)
Definition poolQ : Pool.t :=
  Pool.mk "0xpoolQ0003" "0xpooq" (Some "Weighted") ["0xaaaa"; "0xcccc"]
          BigDecimal.zero BigDecimal.zero 0 0 None None None.

Definition tokenGBP : Token.t :=
  Token.mk "0xgbp" "Pound" "GBP" 18 BigDecimal.zero 0 "0xgbp" None 0.

Definition tokenJPY : Token.t :=
  Token.mk "0xjpy" "Yen" "JPY" 18 BigDecimal.zero 0 "0xjpy" None 0.

(** An oracle with ten decimals and no divisor, and one with a divisor. *)
Definition oracleGBP : FXOracle.t := FXOracle.mk "0xagg2" ["0xgbp"; "0xchf"] 10 None.
Definition oracleJPY : FXOracle.t := FXOracle.mk "0xagg3" ["0xjpy"] 2 (Some "100").

Definition store1 : Store :=
  mkStore
    (<["0xpoolQ0003" := poolQ]> (pools store0))
    (<[getPoolTokenId "0xpoolQ0003" "0xaaaa" := freshPoolToken "0xpoolQ0003" "0xaaaa" "A" 6]>
       (poolTokens store0))
    (<["0xjpy" := tokenJPY]> {["0xgbp" := tokenGBP]})
    ∅ ∅ ∅ ∅
    (balancers store0)
    (<["0xagg3" := oracleJPY]> {["0xagg2" := oracleGBP]})
    ∅.

Definition world1 : World := mkWorld store1 [] [].

(** The initial join of the composable stable pool: the first delta is the
    preminted share amount. *)
Definition joinS : PoolBalanceChanged.t :=
  PoolBalanceChanged.mk "0xstabS0002" "0xuser"
                        [2596148429267413814265248164610048; 1000000; 1000000000000000000]
                        [0; 0; 0] 3 "0xtx02" 101 1700000100.

Definition manageA : PoolBalanceManaged.t :=
  PoolBalanceManaged.mk "0xpoolP0001" "0xaaaa" (-400000) 400000.



(** A share mint followed by a burn of the same amount on pool [S]. *)
Definition swapMint : SwapEvent.t :=
  SwapEvent.mk "0xstabS0002" "0xaaaa" "0xstab" 1000000 500000000000000000
               11 "0xtx03" "0xtrader" 102 1700000200.

Definition swapBurn : SwapEvent.t :=
  SwapEvent.mk "0xstabS0002" "0xstab" "0xbbbb" 500000000000000000 990000000000000000
               12 "0xtx04" "0xtrader" 103 1700000300.

(** A swap with a zero leg, and the same swap with two non-zero legs. *)
Definition swapZero : SwapEvent.t :=
  SwapEvent.mk "0xpoolP0001" "0xaaaa" "0xbbbb" 0 10
               13 "0xtx05" "0xtrader" 104 1700000400.

Definition swapPlain : SwapEvent.t :=
  SwapEvent.mk "0xpoolP0001" "0xaaaa" "0xbbbb" 25 10
               14 "0xtx06" "0xtrader" 104 1700000400.




Lemma refresh_frame_holds : refresh_frame.
Proof. split; [ intros id [] | intros p ts []; split; [ destruct p | ] ]; reflexivity. Qed.

Lemma transfer_frame_holds : transfer_frame.
Proof.
  intros ev s. cbn. unfold shareTransfer.
  case_bool_decide; [ | done ]. now destruct (poolShares s !! _).
Qed.

Lemma keyed_compute {V} (key : V -> string) (m : gmap string V) :
  bool_decide (map_Forall (fun k v => key v = k) m) = true -> keyed key m.
Proof. apply bool_decide_eq_true_1. Qed.

Lemma ready_on_poolP (event : SwapEvent.t) :
  SwapEvent.poolId event = "0xpoolP0001" ->
  SwapEvent.tokenIn event = "0xaaaa" ->
  SwapEvent.tokenOut event = "0xbbbb" ->
  - 2 ^ 31 <= SwapEvent.blockTimestamp event < 2 ^ 31 ->
  swapReady event poolP (freshPoolToken "0xpoolP0001" "0xaaaa" "A" 6)
            (freshPoolToken "0xpoolP0001" "0xbbbb" "B" 18) (Balancer.mk "2" 0) world0.
Proof.
  intros Hid Hin Hout Hts. constructor; rewrite ?Hid, ?Hin, ?Hout; try reflexivity.
  - exact Hts.
  - apply keyed_compute. reflexivity.
  - intros a Ha _. cbn in Ha.
    apply elem_of_cons in Ha as [-> | Ha]; [ eexists; reflexivity | ].
    apply elem_of_cons in Ha as [-> | Ha]; [ eexists; reflexivity | ].
    now apply elem_of_nil in Ha.
  - apply keyed_compute. reflexivity.
  - intros ps Hps. discriminate Hps.
Qed.

Lemma ready_on_poolS :
  swapReady swapMint poolS (freshPoolToken "0xstabS0002" "0xaaaa" "A" 6)
            (freshPoolToken "0xstabS0002" "0xstab" "S" 18) (Balancer.mk "2" 0) world0.
Proof.
  constructor; try reflexivity.
  - cbn. lia.
  - apply keyed_compute. reflexivity.
  - intros a Ha _. cbn in Ha.
    apply elem_of_cons in Ha as [-> | Ha]; [ eexists; reflexivity | ].
    apply elem_of_cons in Ha as [-> | Ha]; [ eexists; reflexivity | ].
    apply elem_of_cons in Ha as [-> | Ha]; [ eexists; reflexivity | ].
    now apply elem_of_nil in Ha.
  - apply keyed_compute. reflexivity.
  - intros ps Hps. discriminate Hps.
Qed.

Lemma kindIs_by_kind (kinds : list string) (p p' : Pool.t) :
  Pool.poolType p = Pool.poolType p' -> kindIs kinds p = kindIs kinds p'.
Proof. intros Hk. unfold kindIs. now rewrite Hk. Qed.

End Demo.

(** * The properties stated by the specification *)

(** ** Decimal utility layer *)



(** Rounding is toward zero on both sides of zero: 1.9999 and -1.9999 at two
    digits give 199 and -199, where rounding half up would give 200 and
    -200. *)
Example scaleUp_rounds_toward_zero :
  scaleUp (BigDecimal.mk 19999 (-4)) 2 = Ok 199
  /\ scaleUp (BigDecimal.mk (-19999) (-4)) 2 = Ok (-199)
  /\ scaleUp (BigDecimal.mk 5 (-1)) 0 = Ok 0.
Proof. repeat split. Qed.

(** ** Snapshot builder *)

(** C6: the snapshot refresh of a pool at time [t] computes
    [day = t - t % 86400] and writes the one snapshot keyed by the pool and the
    day: its amounts are the current balances of the pool's tokens, and
    [totalShares], [swapsCount] and [holdersCount] are those of the live pool.
    A second refresh in the same day overwrites that snapshot: the table has
    the single entry for the day, holding what the second refresh saw. *)
Theorem C6_snapshot_upsert
        (poolId : string) (blockNumber t t2 : Z) (pool pool2 : Pool.t) (w wmid : World) :
  - 2 ^ 31 <= t < 2 ^ 31 ->
  pools (store w) !! poolId = Some pool ->
  Pool.id pool = poolId ->
  keyed PoolSnapshot.id (poolSnapshots (store w)) ->
  let day := t - Z.rem t 86400 in
  let key := poolId +:+ "-" +:+ pretty day in
  let balances (s : Store) (p : Pool.t) :=
    map (fun a => PoolToken.balance <$> poolTokens s !! getPoolTokenId poolId a)
        (Pool.tokensList p) in
  (0 <= t -> day = t - t mod 86400)
  /\ exists w1,
      updatePoolLiquidity poolId blockNumber t w = Ok (true, w1)
      /\ poolSnapshots (store w1)
         = <[key := PoolSnapshot.mk key poolId (balances (store w) pool)
                                    (Pool.totalShares pool) (Pool.swapsCount pool)
                                    (Pool.holdersCount pool) day]>
             (poolSnapshots (store w))
      /\ (- 2 ^ 31 <= t2 < 2 ^ 31 ->
          t2 - Z.rem t2 86400 = day ->
          pools (store wmid) !! poolId = Some pool2 ->
          Pool.id pool2 = poolId ->
          poolSnapshots (store wmid) = poolSnapshots (store w1) ->
          exists w2,
            updatePoolLiquidity poolId blockNumber t2 wmid = Ok (true, w2)
            /\ poolSnapshots (store w2)
               = <[key := PoolSnapshot.mk key poolId (balances (store wmid) pool2)
                                          (Pool.totalShares pool2) (Pool.swapsCount pool2)
                                          (Pool.holdersCount pool2) day]>
                   (poolSnapshots (store w))).
Proof.
  intros Ht Hpool Hid Hkey day key balances. split.
  { intros Hpos. unfold day. now rewrite Z.rem_mod_nonneg by lia. }
  assert (Hrun : forall p ts v,
             - 2 ^ 31 <= ts < 2 ^ 31 ->
             pools (store v) !! poolId = Some p ->
             Pool.id p = poolId ->
             (forall x, poolSnapshots (store v) !! snapshotId poolId ts = Some x ->
                        PoolSnapshot.id x = snapshotId poolId ts) ->
             updatePoolLiquidity poolId blockNumber ts v
             = Ok (true,
                   mkWorld
                     (set_poolSnapshots
                        (<[snapshotId poolId ts := snapshotOf (store v) p ts]>
                           (poolSnapshots (store v)))
                        (store v))
                     (logs v) (dispatched v))).
  { intros p ts v Hts Hp Hpid Hk.
    unfold updatePoolLiquidity, loadPool, bind at 1, gets. rewrite Hp.
    unfold bind at 1, toI32.
    destruct (Z.leb_spec (- 2 ^ 31) ts); [ | lia ].
    destruct (Z.ltb_spec ts (2 ^ 31)); [ | lia ].
    cbn [andb]. unfold ret at 1. unfold bind.
    rewrite createPoolSnapshot_run by (now rewrite Hpid). now rewrite Hpid. }
  eexists. split; [ apply Hrun; eauto using keyed_lookup | ].
  cbn [store set_poolSnapshots poolSnapshots]. split.
  { unfold snapshotOf. now rewrite Hid. }
  intros Ht2 Hday Hpool2 Hid2 Hsame.
  assert (Hk2 : snapshotId poolId t2 = snapshotId poolId t).
  { unfold snapshotId, dayOf. now rewrite Hday. }
  eexists. split.
  { apply (Hrun pool2); [ assumption .. | ].
    intros x. rewrite Hsame, Hk2. cbn [store set_poolSnapshots poolSnapshots].
    rewrite lookup_insert_eq. intros [= <-].
    cbn [snapshotOf PoolSnapshot.id]. now rewrite Hid. }
  cbn [store set_poolSnapshots poolSnapshots].
  rewrite Hsame, Hk2. cbn [store set_poolSnapshots poolSnapshots].
  rewrite insert_insert_eq. unfold snapshotOf. rewrite Hid2.
  unfold snapshotId, dayOf. now rewrite Hday.
Qed.

Lemma C6_witness :
  exists w1,
    updatePoolLiquidity "0xpoolP0001" 100 1700000000 Demo.world0 = Ok (true, w1)
    /\ poolSnapshots (store w1)
       = {["0xpoolP0001-1699920000" :=
             PoolSnapshot.mk "0xpoolP0001-1699920000" "0xpoolP0001"
                             [Some BigDecimal.zero; Some BigDecimal.zero]
                             BigDecimal.zero 0 0 1699920000]}.
Proof.
  destruct (C6_snapshot_upsert "0xpoolP0001" 100 1700000000 1700000000
                               Demo.poolP Demo.poolP Demo.world0 Demo.world0)
    as (_ & w1 & Hrun & Hsnap & _).
  - lia.
  - reflexivity.
  - reflexivity.
  - apply Demo.keyed_compute. reflexivity.
  - exists w1. split; [ exact Hrun | ]. rewrite Hsnap. reflexivity.
Defined.



(** ** Pool accounting reducer: asset-manager rebalances *)

(** The part of a pool token's balance that is neither cash nor managed. *)
Definition unmanagedValue (pt : PoolToken.t) : Q :=
  (BigDecimal.value (PoolToken.balance pt)
   - (BigDecimal.value (PoolToken.cashBalance pt)
      + BigDecimal.value (PoolToken.managedBalance pt)))%Q.

(** C3, as the handler has it: a [PoolBalanceManaged] event on an existing
    pool and pool token adds the cash delta to [cashBalance], the managed
    delta to [managedBalance] and their sum to [balance]; it therefore leaves
    [balance - (cashBalance + managedBalance)] as it was, and
    [balance == cashBalance + managedBalance] holds after the event exactly
    when it held before. *)
Theorem C3_balance_manage_preserves_difference `{Collaborators}
        (event : PoolBalanceManaged.t) (pool : Pool.t) (pt : PoolToken.t) (w : World) :
  let poolId := PoolBalanceManaged.poolId event in
  let key := getPoolTokenId poolId (PoolBalanceManaged.token event) in
  pools (store w) !! poolId = Some pool ->
  poolTokens (store w) !! key = Some pt ->
  PoolToken.id pt = key ->
  keyed Token.id (tokens (store w)) ->
  exists w' pt',
    handleBalanceManage event w = Ok (tt, w')
    /\ poolTokens (store w') !! key = Some pt'
    /\ PoolToken.cashBalance pt'
       = BigDecimal.plus (PoolToken.cashBalance pt)
                         (tokenToDecimal (PoolBalanceManaged.cashDelta event)
                                         (PoolToken.decimals pt))
    /\ PoolToken.managedBalance pt'
       = BigDecimal.plus (PoolToken.managedBalance pt)
                         (tokenToDecimal (PoolBalanceManaged.managedDelta event)
                                         (PoolToken.decimals pt))
    /\ (unmanagedValue pt' == unmanagedValue pt)%Q
    /\ (BigDecimal.equals (PoolToken.balance pt')
                          (BigDecimal.plus (PoolToken.cashBalance pt')
                                           (PoolToken.managedBalance pt')) = true
        <-> BigDecimal.equals (PoolToken.balance pt)
                              (BigDecimal.plus (PoolToken.cashBalance pt)
                                               (PoolToken.managedBalance pt)) = true).
Proof.
  intros poolId key Hpool Hpt Hid HkT.
  eexists. exists (managePoolToken (PoolBalanceManaged.cashDelta event)
                                   (PoolBalanceManaged.managedDelta event) pt).
  split.
  { apply (handleBalanceManage_known event pool pt); eauto using keyed_lookup. }
  cbn [store set_tokens set_poolTokens poolTokens]. split; [ apply lookup_insert_eq | ].
  split; [ reflexivity | ]. split; [ reflexivity | ].
  assert (Hdiff : (unmanagedValue
                     (managePoolToken (PoolBalanceManaged.cashDelta event)
                                      (PoolBalanceManaged.managedDelta event) pt)
                   == unmanagedValue pt)%Q).
  { unfold unmanagedValue, managePoolToken.
    cbn [PoolToken.balance PoolToken.cashBalance PoolToken.managedBalance].
    rewrite !value_plus. ring. }
  split; [ exact Hdiff | ].
  rewrite !equals_value, !value_plus. unfold unmanagedValue in Hdiff.
  split; intros Heq; lra.
Qed.

Lemma C3_witness :
  exists w' pt',
    handleBalanceManage (H := Demo.collaborators) Demo.manageA Demo.world0 = Ok (tt, w')
    /\ poolTokens (store w') !! "0xpoolP0001-0xaaaa" = Some pt'
    /\ PoolToken.cashBalance pt' = BigDecimal.mk (-400000) (-6)
    /\ BigDecimal.equals (PoolToken.balance pt')
                         (BigDecimal.plus (PoolToken.cashBalance pt')
                                          (PoolToken.managedBalance pt')) = true.
Proof.
  destruct (C3_balance_manage_preserves_difference (H := Demo.collaborators)
              Demo.manageA Demo.poolP
              (Demo.freshPoolToken "0xpoolP0001" "0xaaaa" "A" 6) Demo.world0)
    as (w' & pt' & Hrun & Hlookup & Hcash & _ & _ & Hiff).
  - reflexivity.
  - reflexivity.
  - reflexivity.
  - apply Demo.keyed_compute. reflexivity.
  - exists w', pt'. split; [ exact Hrun | ]. split; [ exact Hlookup | ].
    split; [ rewrite Hcash; reflexivity | ].
    apply Hiff. reflexivity.
Defined.

(** C3, as stated, fails on a reachable pool token: a join credits
    [balance] alone, so that after the join of the scenario and a rebalance
    that moves 0.4 from cash to managed, the balance of [A] is 1 while cash
    and managed sum to 0. *)
Lemma C3_counterexample :
  exists w1 w2 pt,
    handleBalanceChange (H := Demo.collaborators) Demo.joinP Demo.world0 = Ok (tt, w1)
    /\ handleBalanceManage (H := Demo.collaborators) Demo.manageA w1 = Ok (tt, w2)
    /\ poolTokens (store w2) !! "0xpoolP0001-0xaaaa" = Some pt
    /\ BigDecimal.equals (PoolToken.balance pt) BigDecimal.one = true
    /\ BigDecimal.equals (BigDecimal.plus (PoolToken.cashBalance pt)
                                          (PoolToken.managedBalance pt))
                         BigDecimal.zero = true
    /\ BigDecimal.equals (PoolToken.balance pt)
                         (BigDecimal.plus (PoolToken.cashBalance pt)
                                          (PoolToken.managedBalance pt)) = false.
Proof.
  eexists _, _, _.
  split; [ vm_compute; reflexivity | ].
  split; [ vm_compute; reflexivity | ].
  split; [ vm_compute; reflexivity | ].
  repeat split.
Qed.

(** ** Pool accounting reducer: joins *)

Lemma handleBalanceChange_join `{Collaborators} (event : PoolBalanceChanged.t) :
  0 < fold_left Z.add (PoolBalanceChanged.deltas event) 0 ->
  handleBalanceChange event = handlePoolJoined event.
Proof.
  intros Hsum. unfold handleBalanceChange.
  case_bool_decide as Hlen.
  - apply length_zero_iff_nil in Hlen. rewrite Hlen in Hsum. cbn in Hsum. lia.
  - change (fold_left (fun sum amount => sum + amount) (PoolBalanceChanged.deltas event) 0)
      with (fold_left Z.add (PoolBalanceChanged.deltas event) 0).
    unfold ZERO. destruct (Z.gtb_spec (fold_left Z.add (PoolBalanceChanged.deltas event) 0) 0);
      [ reflexivity | lia ].
Qed.

(** C1: a join (a [PoolBalanceChanged] event whose deltas sum to a positive
    amount) of a pool whose share token is preminted (a stable phantom,
    composable stable or managed pool) whose own address is among its tokens
    takes the delta at that position as the preminted share amount:
    [totalShares] of the pool goes down by that amount at 18 decimals, and
    a synthetic [Transfer] of exactly that raw amount, from the vault to the
    zero address, is handed to the share-transfer handler. *)
Theorem C1_premint_join `{Collaborators}
        (event : PoolBalanceChanged.t) (pool : Pool.t) (w : World) (i : nat) (amount : Z) :
  let poolId := PoolBalanceChanged.poolId event in
  let deltas := PoolBalanceChanged.deltas event in
  let mock :=
    Transfer.mk (Pool.address pool) VAULT_ADDRESS ZERO_ADDRESS amount
                (PoolBalanceChanged.logIndex event)
                (PoolBalanceChanged.transactionHash event)
                (PoolBalanceChanged.blockNumber event)
                (PoolBalanceChanged.blockTimestamp event) in
  0 < fold_left Z.add deltas 0 ->
  - 2 ^ 31 <= PoolBalanceChanged.blockTimestamp event < 2 ^ 31 ->
  pools (store w) !! poolId = Some pool ->
  Pool.id pool = poolId ->
  keyed PoolToken.id (poolTokens (store w)) ->
  keyed Token.id (tokens (store w)) ->
  (forall j a, Pool.tokensList pool !! j = Some a ->
     is_Some (poolTokens (store w) !! getPoolTokenId poolId a)
     /\ is_Some (deltas !! j)
     /\ is_Some (PoolBalanceChanged.protocolFeeAmounts event !! j)) ->
  Pool.poolType pool = Some PoolType_StablePhantom
  \/ isComposableStablePool pool = true \/ isManagedPool pool = true ->
  Pool.tokensList pool !! i = Some (Pool.address pool) ->
  (forall j, (i < j)%nat -> Pool.tokensList pool !! j <> Some (Pool.address pool)) ->
  deltas !! i = Some amount ->
  exists w',
    handleBalanceChange event w = Ok (tt, w')
    /\ pools (store w') !! poolId
       = Some (Pool.set_totalShares
                 (BigDecimal.minus (Pool.totalShares pool) (tokenToDecimal amount 18)) pool)
    /\ dispatched w' = dispatched w ++ [mock]
    /\ exists before snapshots,
        store w'
        = set_poolSnapshots snapshots
            (set_pools
               (<[poolId := Pool.set_totalShares
                              (BigDecimal.minus (Pool.totalShares pool)
                                                (tokenToDecimal amount 18)) pool]>
                  (pools (handleTransfer mock before)))
               (handleTransfer mock before)).
Proof.
  intros poolId deltas mock Hsum Hts Hpool Hid HkPT HkT Hpre Hkind Hi Hlast Hamt.
  assert (Hgate : isPremintedPool pool = true).
  { unfold isPremintedPool. destruct Hkind as [Hk | [Hk | Hk]].
    - now rewrite bool_decide_eq_true_2.
    - rewrite Hk. now rewrite orb_true_r.
    - rewrite Hk. now rewrite orb_true_r. }
  rewrite handleBalanceChange_join by assumption.
  destruct (wp_elim _ _ _ (handlePoolJoined_spec event pool w Hts Hpool Hid HkPT HkT Hpre))
    as ([] & w' & Hrun & Hpost).
  exists w'. split; [ exact Hrun | ].
  destruct Hpost as (joinAmounts & PT' & T' & preMinted & snaps & Hst & _ & Hdisp
                     & _ & _ & _ & _ & _ & _ & _ & Hfound).
  cbn zeta in Hst, Hdisp. rewrite Hgate in Hst, Hdisp.
  rewrite (Hfound i amount Hgate Hi Hlast Hamt) in Hst, Hdisp. cbn [fst snd] in Hst, Hdisp.
  fold poolId in Hst. rewrite Hid in Hst.
  split; [ | split; [ exact Hdisp | ] ].
  - rewrite Hst. cbn [store set_poolSnapshots set_pools pools]. apply lookup_insert_eq.
  - eexists _, snaps. exact Hst.
Qed.

Lemma C1_witness :
  exists w',
    handleBalanceChange (H := Demo.collaborators) Demo.joinS Demo.world0 = Ok (tt, w')
    /\ (Pool.totalShares <$> pools (store w') !! "0xstabS0002")
       = Some (BigDecimal.minus BigDecimal.zero
                 (BigDecimal.mk 2596148429267413814265248164610048 (-18)))
    /\ dispatched w'
       = [Transfer.mk "0xstab" Demo.vault Demo.zeroAddress
                      2596148429267413814265248164610048 3 "0xtx02" 101 1700000100].
Proof.
  destruct (C1_premint_join (H := Demo.collaborators) Demo.joinS Demo.poolS Demo.world0
                            0%nat 2596148429267413814265248164610048)
    as (w' & Hrun & Hpool & Hdisp & _).
  - reflexivity.
  - cbn. lia.
  - reflexivity.
  - reflexivity.
  - apply Demo.keyed_compute. reflexivity.
  - apply Demo.keyed_compute. reflexivity.
  - intros [ | [ | [ | j ] ] ] a Hj; try discriminate Hj;
      injection Hj as <-; repeat split; eexists; reflexivity.
  - right. left. reflexivity.
  - reflexivity.
  - intros [ | [ | [ | j ] ] ] Hlt; try lia; discriminate.
  - reflexivity.
  - exists w'. split; [ exact Hrun | ]. split; [ | exact Hdisp ].
    change (PoolBalanceChanged.poolId Demo.joinS) with "0xstabS0002" in Hpool.
    rewrite Hpool. reflexivity.
Defined.

(** C2: a join of a known pool all of whose pool tokens exist credits every
    pool token, and the notional balance of every token, with the delta
    net of the protocol fee, and records the gross deltas in the [JoinExit]
    entity.  In the scenario of the specification (tokens of 6 and 18
    decimals, deltas [1_000000] and [2_000000000000000000], no fees, empty
    balances) the balances become 1 and 2 and the record holds the amounts 1
    and 2. *)
Theorem C2_join_balances `{Collaborators}
        (event : PoolBalanceChanged.t) (pool : Pool.t) (w : World) :
  let poolId := PoolBalanceChanged.poolId event in
  let deltas := PoolBalanceChanged.deltas event in
  let fees := PoolBalanceChanged.protocolFeeAmounts event in
  let joinId :=
    PoolBalanceChanged.transactionHash event +:+ pretty (PoolBalanceChanged.logIndex event) in
  0 < fold_left Z.add deltas 0 ->
  - 2 ^ 31 <= PoolBalanceChanged.blockTimestamp event < 2 ^ 31 ->
  pools (store w) !! poolId = Some pool ->
  Pool.id pool = poolId ->
  keyed PoolToken.id (poolTokens (store w)) ->
  keyed Token.id (tokens (store w)) ->
  NoDup (Pool.tokensList pool) ->
  (forall j a, Pool.tokensList pool !! j = Some a ->
     is_Some (poolTokens (store w) !! getPoolTokenId poolId a)
     /\ is_Some (deltas !! j) /\ is_Some (fees !! j)) ->
  transfer_frame ->
  exists w' record,
    handleBalanceChange event w = Ok (tt, w')
    /\ joinExits (store w') !! joinId = Some record
    /\ JoinExit.type record = "Join"
    /\ length (JoinExit.amounts record) = length deltas
    /\ (forall i a, Pool.tokensList pool !! i = Some a ->
          exists pt delta fee pt' t',
            poolTokens (store w) !! getPoolTokenId poolId a = Some pt
            /\ deltas !! i = Some delta
            /\ fees !! i = Some fee
            /\ poolTokens (store w') !! getPoolTokenId poolId a = Some pt'
            /\ PoolToken.balance pt'
               = BigDecimal.plus (PoolToken.balance pt)
                                 (tokenToDecimal (delta - fee) (PoolToken.decimals pt))
            /\ tokens (store w') !! a = Some t'
            /\ Token.totalBalanceNotional t'
               = BigDecimal.plus (Token.totalBalanceNotional (tokenOrNew (tokens (store w)) a))
                                 (tokenToDecimal (delta - fee) (PoolToken.decimals pt))
            /\ JoinExit.amounts record !! i
               = Some (Some (tokenToDecimal delta (PoolToken.decimals pt))))
    /\ (forall A B ptA ptB,
          Pool.tokensList pool = [A; B] ->
          poolTokens (store w) !! getPoolTokenId poolId A = Some ptA ->
          poolTokens (store w) !! getPoolTokenId poolId B = Some ptB ->
          PoolToken.decimals ptA = 6 -> PoolToken.decimals ptB = 18 ->
          PoolToken.balance ptA = ZERO_BD -> PoolToken.balance ptB = ZERO_BD ->
          deltas = [1000000; 2000000000000000000] -> fees = [0; 0] ->
          exists ptA' ptB' x y,
            poolTokens (store w') !! getPoolTokenId poolId A = Some ptA'
            /\ BigDecimal.equals (PoolToken.balance ptA') (BigDecimal.fromBigInt 1) = true
            /\ poolTokens (store w') !! getPoolTokenId poolId B = Some ptB'
            /\ BigDecimal.equals (PoolToken.balance ptB') (BigDecimal.fromBigInt 2) = true
            /\ JoinExit.amounts record = [Some x; Some y]
            /\ BigDecimal.equals x (BigDecimal.fromBigInt 1) = true
            /\ BigDecimal.equals y (BigDecimal.fromBigInt 2) = true).
Proof.
  intros poolId deltas fees joinId' Hsum Hts Hpool Hid HkPT HkT Hnodup Hpre Hframe.
  subst poolId deltas fees joinId'.
  rewrite handleBalanceChange_join by assumption.
  destruct (wp_elim _ _ _ (handlePoolJoined_spec event pool w Hts Hpool Hid HkPT HkT Hpre))
    as ([] & w' & Hrun & Hpost).
  destruct Hpost as (joinAmounts & PT' & T' & preMinted & snaps & Hst & _ & _
                     & Hlen & Hgross & _ & _ & _ & Hnet & _ & _).
  cbn zeta in Hst.
  set (s2 := set_tokens T' (set_poolTokens PT' (set_joinExits _ (store w)))) in Hst.
  assert (Hs3 : forall s3,
             s3 = (if isPremintedPool pool
                   then handleTransfer (premintTransfer event pool preMinted.1) s2 else s2) ->
             poolTokens s3 = PT' /\ tokens s3 = T'
             /\ joinExits s3 = <[joinId event := joinRecord event joinAmounts]>
                                 (joinExits (store w))).
  { intros s3 ->. destruct (isPremintedPool pool); [ | now repeat split ].
    destruct (Hframe (premintTransfer event pool preMinted.1) s2) as (-> & -> & ->).
    now repeat split. }
  destruct (Hs3 _ eq_refl) as (HPT & HT & HJE).
  assert (HPT' : poolTokens (store w') = PT') by (rewrite Hst; exact HPT).
  assert (HT' : tokens (store w') = T') by (rewrite Hst; exact HT).
  assert (HJE' : joinExits (store w')
                 = <[joinId event := joinRecord event joinAmounts]> (joinExits (store w)))
    by (rewrite Hst; exact HJE).
  assert (Hall : forall i a, Pool.tokensList pool !! i = Some a ->
            exists pt delta fee pt' t',
              poolTokens (store w) !! getPoolTokenId (PoolBalanceChanged.poolId event) a = Some pt
              /\ PoolBalanceChanged.deltas event !! i = Some delta
              /\ PoolBalanceChanged.protocolFeeAmounts event !! i = Some fee
              /\ poolTokens (store w') !! getPoolTokenId (PoolBalanceChanged.poolId event) a = Some pt'
              /\ PoolToken.balance pt'
                 = BigDecimal.plus (PoolToken.balance pt)
                                   (tokenToDecimal (delta - fee) (PoolToken.decimals pt))
              /\ tokens (store w') !! a = Some t'
              /\ Token.totalBalanceNotional t'
                 = BigDecimal.plus (Token.totalBalanceNotional (tokenOrNew (tokens (store w)) a))
                                   (tokenToDecimal (delta - fee) (PoolToken.decimals pt))
              /\ joinAmounts !! i = Some (Some (tokenToDecimal delta (PoolToken.decimals pt)))).
  { intros i a Hi.
    destruct (Hnet Hnodup i a Hi) as (pt & delta & fee & Hpt & Hd & Hf & HptN & HtN).
    destruct (Hgross i a Hi) as (pt0 & delta0 & Hpt0 & Hd0 & Hg).
    assert (pt0 = pt) as -> by congruence. assert (delta0 = delta) as -> by congruence.
    exists pt, delta, fee. eexists _, _. rewrite HPT', HT'.
    repeat split; try eassumption; reflexivity. }
  exists w', (joinRecord event joinAmounts).
  split; [ exact Hrun | ]. split; [ rewrite HJE'; apply lookup_insert_eq | ].
  split; [ reflexivity | ]. split; [ exact Hlen | ]. split; [ exact Hall | ].
  intros A B ptA ptB Htl HA HB HdA HdB HbA HbB Hdeltas Hfees.
  destruct (Hall 0%nat A) as (ptA0 & dA & fA & ptA' & tA' & HA0 & HdA0 & HfA0 & HA' & HbalA & _ & _ & HxA);
    [ now rewrite Htl | ].
  destruct (Hall 1%nat B) as (ptB0 & dB & fB & ptB' & tB' & HB0 & HdB0 & HfB0 & HB' & HbalB & _ & _ & HxB);
    [ now rewrite Htl | ].
  assert (ptA0 = ptA) as -> by congruence. assert (ptB0 = ptB) as -> by congruence.
  rewrite Hdeltas in HdA0, HdB0. rewrite Hfees in HfA0, HfB0.
  injection HdA0 as <-. injection HdB0 as <-. injection HfA0 as <-. injection HfB0 as <-.
  rewrite HdA, HbA in *. rewrite HdB, HbB in *.
  rewrite Hdeltas in Hlen.
  destruct joinAmounts as [ | x [ | y [ | ] ] ]; try discriminate Hlen.
  cbn in HxA, HxB. injection HxA as ->. injection HxB as ->.
  exists ptA', ptB', (tokenToDecimal 1000000 6), (tokenToDecimal 2000000000000000000 18).
  split; [ exact HA' | ]. split; [ rewrite HbalA; reflexivity | ].
  split; [ exact HB' | ]. split; [ rewrite HbalB; reflexivity | ].
  repeat split.
Qed.

Lemma C2_witness :
  exists w' record ptA ptB,
    handleBalanceChange (H := Demo.collaborators) Demo.joinP Demo.world0 = Ok (tt, w')
    /\ joinExits (store w') !! "0xtx017" = Some record
    /\ JoinExit.amounts record
       = [Some (BigDecimal.mk 1000000 (-6)); Some (BigDecimal.mk 2000000000000000000 (-18))]
    /\ poolTokens (store w') !! "0xpoolP0001-0xaaaa" = Some ptA
    /\ BigDecimal.equals (PoolToken.balance ptA) (BigDecimal.fromBigInt 1) = true
    /\ poolTokens (store w') !! "0xpoolP0001-0xbbbb" = Some ptB
    /\ BigDecimal.equals (PoolToken.balance ptB) (BigDecimal.fromBigInt 2) = true.
Proof.
  destruct (C2_join_balances (H := Demo.collaborators) Demo.joinP Demo.poolP Demo.world0)
    as (w' & record & Hrun & Hrec & _ & _ & _ & Hscenario).
  - reflexivity.
  - cbn. lia.
  - reflexivity.
  - reflexivity.
  - apply Demo.keyed_compute. reflexivity.
  - apply Demo.keyed_compute. reflexivity.
  - apply (bool_decide_unpack _). vm_compute. exact I.
  - intros [ | [ | j ] ] a Hj; try discriminate Hj;
      injection Hj as <-; repeat split; eexists; reflexivity.
  - apply Demo.transfer_frame_holds.
  - destruct (Hscenario "0xaaaa" "0xbbbb"
                        (Demo.freshPoolToken "0xpoolP0001" "0xaaaa" "A" 6)
                        (Demo.freshPoolToken "0xpoolP0001" "0xbbbb" "B" 18))
      as (ptA & ptB & x & y & HA & HeqA & HB & HeqB & Hamounts & _ & _);
      try reflexivity.
    exists w', record, ptA, ptB.
    split; [ exact Hrun | ]. split; [ exact Hrec | ].
    split; [ | split; [ exact HA | split; [ exact HeqA | split; [ exact HB | exact HeqB ] ] ] ].
    rewrite Hamounts.
    assert (Hw : handleBalanceChange (H := Demo.collaborators) Demo.joinP Demo.world0
                 = Ok (tt, w')) by exact Hrun.
    vm_compute in Hw. injection Hw as <-.
    vm_compute in Hrec. injection Hrec as <-. vm_compute in Hamounts.
    symmetry. exact Hamounts.
Defined.

(** ** Pricing and oracle normalizer *)

(** C8: on an answer of an aggregator, every token the answer is booked on,
    other than the precious-metal token, gets as [latestFXPrice] the answer
    rescaled by [10^decimals / divisor] at 8 decimals when the oracle entity
    records a divisor and decimals, and the answer itself at 8 decimals
    otherwise; an oracle with 10 decimals and no divisor turns the answer
    123456789 into 1.23456789.  A token without [Token] entity is skipped with
    a diagnostic, and the handler returns normally. *)
Theorem C8_oracle_answer `{Collaborators}
        (event : AnswerUpdated.t) (oracle : option FXOracle.t) (a : Address) (w : World) :
  let aggregator := AnswerUpdated.address event in
  let answer := AnswerUpdated.current event in
  fxOracles (store w) !! aggregator = oracle ->
  keyed Token.id (tokens (store w)) ->
  divisorWellFormed oracle ->
  ((a, aggregator) ∈ FX_ASSET_AGGREGATORS
   \/ exists o, oracle = Some o /\ a ∈ FXOracle.tokens o) ->
  a <> VNXAU ->
  exists w',
    handleAnswerUpdated event w = Ok (tt, w')
    /\ (forall t, tokens (store w) !! a = Some t ->
          exists t',
            tokens (store w') !! a = Some t'
            /\ (forall o dstr d,
                  oracle = Some o -> FXOracle.divisor o = Some dstr ->
                  BigInt_fromString dstr = Some d ->
                  0 < FXOracle.decimals o < 256 ->
                  Token.latestFXPrice t'
                  = Some (tokenToDecimal ((answer * 10 ^ FXOracle.decimals o) ÷ d) 8))
            /\ (oracle = None
                \/ (exists o, oracle = Some o
                              /\ (FXOracle.divisor o = None \/ FXOracle.decimals o = 0)) ->
                Token.latestFXPrice t' = Some (tokenToDecimal answer 8))
            /\ (forall o,
                  oracle = Some o -> FXOracle.decimals o = 10 ->
                  FXOracle.divisor o = None -> answer = 123456789 ->
                  exists p, Token.latestFXPrice t' = Some p
                            /\ (BigDecimal.value p == 123456789 # 100000000)%Q))
    /\ (tokens (store w) !! a = None ->
        tokens (store w') !! a = None /\ tokenNotFound a ∈ logs w').
Proof.
  intros aggregator answer Horacle HkT Hwf Htracked Hne.
  apply tokensToUpdate_spec in Htracked.
  destruct (wp_elim _ _ _ (handleAnswerUpdated_spec event oracle w Horacle HkT Hwf))
    as ([] & w' & Hrun & Hdom & Hset & Hskip).
  exists w'. split; [ exact Hrun | ]. split.
  - intros t Ht.
    destruct (proj2 (Hdom a)) as [t' Ht']; [ eauto | ].
    exists t'. split; [ exact Ht' | ].
    destruct (Hset a t' Htracked Ht') as (p & Hp & Hprice).
    unfold oraclePrice in Hp. rewrite bool_decide_eq_false_2 in Hp by assumption.
    fold answer in Hp. rewrite Hprice. split; [ | split ].
    + intros o dstr d -> Hdiv Hparse Hdec. rewrite Hdiv in Hp.
      destruct (Z.eqb_spec (FXOracle.decimals o) 0) as [ | _ ]; [ lia | ].
      cbn [negb] in Hp. rewrite Hparse in Hp.
      destruct (d =? 0); [ discriminate Hp | ].
      rewrite u8_small in Hp by lia. injection Hp as <-. reflexivity.
    + intros [-> | (o & -> & [Hdiv | Hdec])].
      * injection Hp as <-. reflexivity.
      * rewrite Hdiv in Hp. injection Hp as <-. reflexivity.
      * destruct (FXOracle.divisor o); [ rewrite Hdec in Hp; cbn [Z.eqb negb] in Hp | ];
          injection Hp as <-; reflexivity.
    + intros o -> Hdec Hdiv ->. rewrite Hdiv in Hp. injection Hp as <-.
      exists (scaleDown 123456789 8). split; reflexivity.
  - intros Hnone. split; [ | now apply Hskip ].
    destruct (tokens (store w') !! a) as [t' | ] eqn:Ht'; [ | reflexivity ].
    destruct (proj1 (Hdom a)) as [t Ht]; [ eauto | congruence ].
Qed.

Lemma C8_witness :
  exists w' gbp,
    handleAnswerUpdated (H := Demo.collaborators)
                        (AnswerUpdated.mk "0xagg2" 123456789) Demo.world1 = Ok (tt, w')
    /\ tokens (store w') !! "0xgbp" = Some gbp
    /\ Token.latestFXPrice gbp = Some (BigDecimal.mk 123456789 (-8))
    /\ (BigDecimal.value (BigDecimal.mk 123456789 (-8)) == 123456789 # 100000000)%Q
    /\ tokens (store w') !! "0xchf" = None
    /\ logs w' = [tokenNotFound "0xchf"].
Proof.
  assert (Hwf : divisorWellFormed (Some Demo.oracleGBP)).
  { intros o dstr [= <-] Hdiv. discriminate Hdiv. }
  destruct (C8_oracle_answer (H := Demo.collaborators)
              (AnswerUpdated.mk "0xagg2" 123456789) (Some Demo.oracleGBP) "0xgbp" Demo.world1)
    as (w' & Hrun & Hknown & _); try reflexivity; try exact Hwf.
  - apply Demo.keyed_compute. reflexivity.
  - right. exists Demo.oracleGBP. split; [ reflexivity | left ].
  - discriminate.
  - destruct (Hknown Demo.tokenGBP eq_refl) as (gbp & Hgbp & _ & Hdirect & _).
    exists w', gbp. split; [ exact Hrun | ]. split; [ exact Hgbp | ].
    split.
    { rewrite Hdirect; [ reflexivity | ].
      right. exists Demo.oracleGBP. split; [ reflexivity | now left ]. }
    split; [ reflexivity | ].
    assert (Hw : handleAnswerUpdated (H := Demo.collaborators)
                   (AnswerUpdated.mk "0xagg2" 123456789) Demo.world1 = Ok (tt, w'))
      by exact Hrun.
    vm_compute in Hw. injection Hw as <-. split; reflexivity.
Defined.

(** An oracle that records a divisor and decimals: the answer 15000 with
    two decimals and divisor 100 is booked as 15000 * 10^2 / 100 at 8
    decimals. *)
Example oracle_with_divisor :
  exists w' jpy,
    handleAnswerUpdated (H := Demo.collaborators)
                        (AnswerUpdated.mk "0xagg3" 15000) Demo.world1 = Ok (tt, w')
    /\ tokens (store w') !! "0xjpy" = Some jpy
    /\ Token.latestFXPrice jpy = Some (BigDecimal.mk 15000 (-8)).
Proof. eexists _, _. split; [ vm_compute; reflexivity | ]. split; reflexivity. Qed.

(** ** Pool accounting reducer: missing references *)




(** ** Pool accounting reducer: swaps *)

(** C9, as the handler has it: a swap of a known pool whose two pool tokens
    exist bumps the swap counters of the pool, of the protocol and of both
    tokens, and moves the pool-token balances and the notional balances of
    the tokens, whatever the amounts; when one of the amounts is zero the
    handler returns right after, so that everything downstream of the zero
    check is skipped, the refresh of the snapshot included, while a swap with
    two non-zero legs writes the snapshot of the day. *)
Theorem C9_zero_leg_swap `{Collaborators}
        (event : SwapEvent.t) (pool : Pool.t) (poolTokenIn poolTokenOut : PoolToken.t)
        (vault : Balancer.t) (w : World) :
  let poolId := SwapEvent.poolId event in
  let tokenIn := SwapEvent.tokenIn event in
  let tokenOut := SwapEvent.tokenOut event in
  let x := tokenToDecimal (SwapEvent.amountIn event) (PoolToken.decimals poolTokenIn) in
  let y := tokenToDecimal (SwapEvent.amountOut event) (PoolToken.decimals poolTokenOut) in
  let oldIn := tokenOrNew (tokens (store w)) tokenIn in
  let oldOut := tokenOrNew (tokens (store w)) tokenOut in
  refresh_frame ->
  swapReady event pool poolTokenIn poolTokenOut vault w ->
  tokenIn <> tokenOut ->
  SWAP_IN <> SWAP_OUT ->
  exists w' pool' tIn tOut,
    handleSwapEvent event w = Ok (tt, w')
    /\ pools (store w') !! poolId = Some pool'
    /\ Pool.swapsCount pool' = Pool.swapsCount pool + 1
    /\ balancers (store w') !! "2"
       = Some (Balancer.mk "2" (Balancer.totalSwapCount vault + 1))
    /\ poolTokens (store w') !! getPoolTokenId poolId tokenIn
       = Some (PoolToken.set_balance
                 (BigDecimal.plus (PoolToken.balance poolTokenIn) x) poolTokenIn)
    /\ poolTokens (store w') !! getPoolTokenId poolId tokenOut
       = Some (PoolToken.set_balance
                 (BigDecimal.minus (PoolToken.balance poolTokenOut) y) poolTokenOut)
    /\ tokens (store w') !! tokenIn = Some tIn
    /\ Token.totalSwapCount tIn = Token.totalSwapCount oldIn + 1
    /\ Token.totalBalanceNotional tIn = BigDecimal.plus (Token.totalBalanceNotional oldIn) x
    /\ tokens (store w') !! tokenOut = Some tOut
    /\ Token.totalSwapCount tOut = Token.totalSwapCount oldOut + 1
    /\ Token.totalBalanceNotional tOut = BigDecimal.minus (Token.totalBalanceNotional oldOut) y
    /\ (SwapEvent.amountIn event = 0 \/ SwapEvent.amountOut event = 0 ->
        poolSnapshots (store w') = poolSnapshots (store w))
    /\ (SwapEvent.amountIn event <> 0 -> SwapEvent.amountOut event <> 0 ->
        exists key snapshot,
          poolSnapshots (store w') = <[key := snapshot]> (poolSnapshots (store w))
          /\ PoolSnapshot.pool snapshot = poolId
          /\ PoolSnapshot.swapsCount snapshot = Pool.swapsCount pool + 1).
Proof.
  intros poolId tokenIn tokenOut x y oldIn oldOut Hframe Hready Hne Hdir.
  destruct (wp_elim _ _ _
              (handleSwapEvent_spec event pool poolTokenIn poolTokenOut vault w Hframe Hready))
    as ([] & w' & Hrun & ampA & P' & U' & inv & lastAmp & Hst & _ & _).
  cbn zeta in Hst. fold poolId tokenIn tokenOut in Hst.
  change (scaleDown (SwapEvent.amountIn event) (PoolToken.decimals poolTokenIn)) with x in Hst.
  change (scaleDown (SwapEvent.amountOut event) (PoolToken.decimals poolTokenOut)) with y in Hst.
  destruct (swapTokens_lookup event x y (tokens (store w)) Hne Hdir) as [HtIn HtOut].
  cbn zeta in HtIn, HtOut. fold tokenIn tokenOut oldIn oldOut in HtIn, HtOut.
  assert (Hkeys : getPoolTokenId poolId tokenOut <> getPoolTokenId poolId tokenIn).
  { intros Heq. apply getPoolTokenId_inj in Heq. now symmetry in Heq. }
  assert (Hzero : zeroLeg x y = true
                  <-> SwapEvent.amountIn event = 0 \/ SwapEvent.amountOut event = 0)
    by apply zeroLeg_spec.
  eexists w', _, _, _. split; [ exact Hrun | ].
  rewrite Hst. destruct (zeroLeg x y) eqn:Hz;
    cbn [set_poolSnapshots pools poolTokens tokens balancers poolSnapshots].
  - rewrite !lookup_insert_eq, (lookup_insert_ne _ _ _ _ Hkeys), lookup_insert_eq.
    rewrite HtIn, HtOut.
    repeat split; try reflexivity.
    intros Hin Hout. exfalso. destruct (proj1 Hzero eq_refl); contradiction.
  - rewrite !lookup_insert_eq, (lookup_insert_ne _ _ _ _ Hkeys), lookup_insert_eq.
    rewrite HtIn, HtOut.
    repeat split; try reflexivity.
    + intros Hany. apply Hzero in Hany. discriminate Hany.
    + intros _ _. eexists _, _. split; [ reflexivity | ]. split; [ | reflexivity ].
      cbn. apply (ready_pool_id _ _ _ _ _ _ Hready).
Qed.

Lemma C9_witness :
  exists w' pool',
    handleSwapEvent (H := Demo.collaborators) Demo.swapZero Demo.world0 = Ok (tt, w')
    /\ pools (store w') !! "0xpoolP0001" = Some pool'
    /\ Pool.swapsCount pool' = 1
    /\ balancers (store w') !! "2" = Some (Balancer.mk "2" 1)
    /\ (PoolToken.balance <$> poolTokens (store w') !! "0xpoolP0001-0xbbbb")
       = Some (BigDecimal.minus BigDecimal.zero (BigDecimal.mk 10 (-18)))
    /\ poolSnapshots (store w') = ∅.
Proof.
  destruct (C9_zero_leg_swap (H := Demo.collaborators) Demo.swapZero Demo.poolP
              (Demo.freshPoolToken "0xpoolP0001" "0xaaaa" "A" 6)
              (Demo.freshPoolToken "0xpoolP0001" "0xbbbb" "B" 18)
              (Balancer.mk "2" 0) Demo.world0)
    as (w' & pool' & tIn & tOut & Hrun & Hpool & Hcount & Hvault & _ & HptOut & _ & _ & _
        & _ & _ & _ & Hzero & _).
  - apply Demo.refresh_frame_holds.
  - apply Demo.ready_on_poolP; try reflexivity. cbn. lia.
  - discriminate.
  - discriminate.
  - exists w', pool'. split; [ exact Hrun | ]. split; [ exact Hpool | ].
    split; [ exact Hcount | ]. split; [ exact Hvault | ]. split.
    + change (getPoolTokenId (SwapEvent.poolId Demo.swapZero) (SwapEvent.tokenOut Demo.swapZero))
        with "0xpoolP0001-0xbbbb" in HptOut.
      rewrite HptOut. reflexivity.
    + rewrite Hzero; [ reflexivity | left; reflexivity ].
Defined.

(** C9, as stated, fails in its last part: after the swap with a zero leg
    the counters have moved, yet no snapshot of the pool was written, while
    the refresh, had it been triggered, would have written the snapshot of
    the day, as it does for the same swap with two non-zero legs. *)
Lemma C9_counterexample :
  exists w',
    handleSwapEvent (H := Demo.collaborators) Demo.swapZero Demo.world0 = Ok (tt, w')
    /\ (Pool.swapsCount <$> pools (store w') !! "0xpoolP0001") = Some 1
    /\ poolSnapshots (store w') !! "0xpoolP0001-1699920000" = None
    /\ (exists w'',
          updatePoolLiquidity "0xpoolP0001" 104 1700000400 w' = Ok (true, w'')
          /\ is_Some (poolSnapshots (store w'') !! "0xpoolP0001-1699920000"))
    /\ (exists v,
          handleSwapEvent (H := Demo.collaborators) Demo.swapPlain Demo.world0 = Ok (tt, v)
          /\ is_Some (poolSnapshots (store v) !! "0xpoolP0001-1699920000")).
Proof.
  eexists. split; [ vm_compute; reflexivity | ].
  split; [ reflexivity | ]. split; [ reflexivity | ]. split.
  - eexists. split; [ vm_compute; reflexivity | ]. eexists. reflexivity.
  - eexists. split; [ vm_compute; reflexivity | ]. eexists. reflexivity.
Qed.

(** The projections of the store a processed swap leaves behind. *)
Lemma swapPost_tables `{Collaborators}
      (event : SwapEvent.t) (pool : Pool.t) (poolTokenIn poolTokenOut : PoolToken.t)
      (vault : Balancer.t) (w w' : World) :
  swapPost event pool poolTokenIn poolTokenOut vault w w' ->
  exists ampA inv lastAmp,
    let pA := Pool.set_amp ampA pool in
    pools (store w') !! SwapEvent.poolId event
    = Some (Pool.set_swapsCount
              (Pool.swapsCount pool + 1)
              (Pool.set_lastPostJoinExit inv lastAmp
                 (Pool.set_totalShares (virtualShares event pA (Pool.totalShares pool)) pA)))
    /\ poolShares (store w') = virtualVault event pA (poolShares (store w))
    /\ poolTokens (store w')
       = <[getPoolTokenId (SwapEvent.poolId event) (SwapEvent.tokenOut event) :=
             debitOut event poolTokenOut]>
           (<[getPoolTokenId (SwapEvent.poolId event) (SwapEvent.tokenIn event) :=
                creditIn event poolTokenIn]>
              (poolTokens (store w)))
    /\ tokens (store w')
       = swapTokens event
                    (scaleDown (SwapEvent.amountIn event) (PoolToken.decimals poolTokenIn))
                    (scaleDown (SwapEvent.amountOut event) (PoolToken.decimals poolTokenOut))
                    (tokens (store w))
    /\ balancers (store w')
       = <["2" := Balancer.mk "2" (Balancer.totalSwapCount vault + 1)]> (balancers (store w)).
Proof.
  intros (ampA & P' & U' & inv & lastAmp & Hst & _ & _).
  exists ampA, inv, lastAmp. cbn zeta in *. rewrite Hst.
  destruct (zeroLeg _ _); cbn [set_poolSnapshots pools poolTokens tokens balancers poolShares];
    rewrite lookup_insert_eq; repeat split.
Qed.

(** C5: on a virtual-supply pool, a swap that hands out the pool's share
    token (a mint: [totalShares] and the vault's share balance go up by the
    amount at 18 decimals) followed by a swap that takes in the same raw
    amount of it (a burn) leaves [totalShares] of the pool and the share
    balance of the vault at the values they had before the pair.  Both swaps
    are of the same pool, whose pool tokens exist; whether a pool has a
    virtual supply is decided by its kind, which a swap does not change; a
    vault without share entity of the pool counts as holding zero shares,
    which is what [getPoolShare] creates for it. *)
Theorem C5_virtual_supply_symmetry `{Collaborators}
        (mint burn : SwapEvent.t) (pool : Pool.t) (poolTokenIn poolTokenOut : PoolToken.t)
        (vault : Balancer.t) (w : World) :
  let poolId := SwapEvent.poolId mint in
  let shares := tokenToDecimal (SwapEvent.amountOut mint) 18 in
  let vaultBefore := PoolShare.balance (shareOrNew (poolShares (store w)) poolId) in
  refresh_frame ->
  (forall p p', Pool.poolType p = Pool.poolType p' -> hasVirtualSupply p = hasVirtualSupply p') ->
  hasVirtualSupply pool = true ->
  swapReady mint pool poolTokenIn poolTokenOut vault w ->
  SwapEvent.tokenOut mint = Pool.address pool ->
  SwapEvent.tokenIn mint <> Pool.address pool ->
  SwapEvent.poolId burn = poolId ->
  SwapEvent.tokenIn burn = Pool.address pool ->
  SwapEvent.tokenOut burn <> Pool.address pool ->
  SwapEvent.amountIn burn = SwapEvent.amountOut mint ->
  - 2 ^ 31 <= SwapEvent.blockTimestamp burn < 2 ^ 31 ->
  is_Some (poolTokens (store w) !! getPoolTokenId poolId (SwapEvent.tokenOut burn)) ->
  exists w1 w2 pool1 share1 pool2 share2,
    handleSwapEvent mint w = Ok (tt, w1)
    /\ pools (store w1) !! poolId = Some pool1
    /\ Pool.totalShares pool1 = BigDecimal.plus (Pool.totalShares pool) shares
    /\ poolShares (store w1) !! vaultShareId poolId = Some share1
    /\ PoolShare.balance share1 = BigDecimal.plus vaultBefore shares
    /\ handleSwapEvent burn w1 = Ok (tt, w2)
    /\ pools (store w2) !! poolId = Some pool2
    /\ Pool.totalShares pool2 = BigDecimal.minus (Pool.totalShares pool1) shares
    /\ BigDecimal.equals (Pool.totalShares pool2) (Pool.totalShares pool) = true
    /\ poolShares (store w2) !! vaultShareId poolId = Some share2
    /\ PoolShare.balance share2 = BigDecimal.minus (PoolShare.balance share1) shares
    /\ BigDecimal.equals (PoolShare.balance share2) vaultBefore = true.
Proof.
  intros poolId shares vaultBefore Hframe Hkind Hvirtual Hready HmintOut HmintIn
         HburnPool HburnIn HburnOut Hamount Hts2 HptOut2.
  (* the mint *)
  destruct (wp_elim _ _ _
              (handleSwapEvent_spec mint pool poolTokenIn poolTokenOut vault w Hframe Hready))
    as ([] & w1 & Hrun1 & Hpost1).
  destruct (swapPost_tables _ _ _ _ _ _ _ Hpost1)
    as (ampA1 & inv1 & la1 & Hpool1 & HPS1 & HPT1 & HT1 & HB1).
  cbn zeta in Hpool1, HPS1. fold poolId in Hpool1, HPT1.
  set (pA1 := Pool.set_amp ampA1 pool) in *.
  assert (HvA1 : hasVirtualSupply pA1 = true) by (rewrite <- Hvirtual; now apply Hkind).
  assert (Hts1 : virtualShares mint pA1 (Pool.totalShares pool)
                 = BigDecimal.plus (Pool.totalShares pool) shares).
  { unfold virtualShares. rewrite HvA1. change (Pool.address pA1) with (Pool.address pool).
    rewrite (bool_decide_eq_false_2 _ HmintIn), (bool_decide_eq_true_2 _ HmintOut).
    reflexivity. }
  assert (Hvv1 : virtualVault mint pA1 (poolShares (store w))
                 = moveShares (fun b => BigDecimal.plus b shares) poolId (poolShares (store w))).
  { unfold virtualVault. rewrite HvA1. change (Pool.address pA1) with (Pool.address pool).
    rewrite (bool_decide_eq_false_2 _ HmintIn), (bool_decide_eq_true_2 _ HmintOut).
    reflexivity. }
  rewrite Hts1 in Hpool1. rewrite Hvv1 in HPS1.
  set (pool1 := Pool.set_swapsCount _ _) in Hpool1.
  destruct Hready as [Hts Hpool Hid HptIn HptOut HkPT Htl Hvault Hvid HkT HkS].
  fold poolId in Hpool, Hid, HptIn, HptOut, Htl, HkS.
  (* the burn runs on what the mint left *)
  destruct HptOut2 as [ptOut2 HptOut2].
  assert (HinSame : SwapEvent.tokenIn burn = SwapEvent.tokenOut mint) by congruence.
  assert (Hlk : forall k, is_Some (poolTokens (store w) !! k) ->
                          is_Some (poolTokens (store w1) !! k)).
  { intros k Hk. rewrite HPT1, !lookup_insert_is_Some'. auto. }
  destruct (Hlk (getPoolTokenId poolId (SwapEvent.tokenIn burn))) as [ptIn2' HptIn2'];
    [ rewrite HinSame; eauto | ].
  destruct (Hlk (getPoolTokenId poolId (SwapEvent.tokenOut burn))) as [ptOut2' HptOut2'];
    [ eauto | ].
  assert (HkPT1 : keyed PoolToken.id (poolTokens (store w1))).
  { rewrite HPT1. apply keyed_insert; [ apply keyed_insert; [ assumption | ] | ];
      cbn; eauto using keyed_lookup. }
  assert (Hready2 : swapReady burn pool1 ptIn2' ptOut2'
                              (Balancer.mk "2" (Balancer.totalSwapCount vault + 1)) w1).
  { constructor; rewrite ?HburnPool; try assumption; try reflexivity.
    - intros a Ha Hne. apply Hlk. now apply Htl.
    - rewrite HB1. apply lookup_insert_eq.
    - rewrite HT1. now apply swapTokens_keyed.
    - rewrite HPS1. now apply moveShares_keyed. }
  destruct (wp_elim _ _ _
              (handleSwapEvent_spec burn pool1 ptIn2' ptOut2' _ w1 Hframe Hready2))
    as ([] & w2 & Hrun2 & Hpost2).
  destruct (swapPost_tables _ _ _ _ _ _ _ Hpost2)
    as (ampA2 & inv2 & la2 & Hpool2 & HPS2 & _).
  cbn zeta in Hpool2, HPS2. rewrite HburnPool in Hpool2. fold poolId in Hpool2.
  set (pA2 := Pool.set_amp ampA2 pool1) in *.
  assert (HvA2 : hasVirtualSupply pA2 = true) by (rewrite <- Hvirtual; now apply Hkind).
  assert (Hshares2 : tokenToDecimal (SwapEvent.amountIn burn) 18 = shares)
    by (unfold shares; now rewrite Hamount).
  assert (Hts2' : virtualShares burn pA2 (Pool.totalShares pool1)
                  = BigDecimal.minus (Pool.totalShares pool1) shares).
  { unfold virtualShares. rewrite HvA2. change (Pool.address pA2) with (Pool.address pool).
    rewrite (bool_decide_eq_true_2 _ HburnIn), (bool_decide_eq_false_2 _ HburnOut).
    now rewrite Hshares2. }
  assert (Hvv2 : virtualVault burn pA2 (poolShares (store w1))
                 = moveShares (fun b => BigDecimal.minus b shares) poolId (poolShares (store w1))).
  { unfold virtualVault. rewrite HvA2, HburnPool. change (Pool.address pA2) with (Pool.address pool).
    rewrite (bool_decide_eq_true_2 _ HburnIn), (bool_decide_eq_false_2 _ HburnOut).
    now rewrite Hshares2. }
  rewrite Hts2' in Hpool2. rewrite Hvv2 in HPS2.
  set (pool2 := Pool.set_swapsCount _ _) in Hpool2.
  set (share1 := PoolShare.set_balance (BigDecimal.plus vaultBefore shares)
                                       (shareOrNew (poolShares (store w)) poolId)).
  assert (Hshare1 : poolShares (store w1) !! vaultShareId poolId = Some share1).
  { rewrite HPS1. unfold moveShares. apply lookup_insert_eq. }
  assert (Hnew1 : shareOrNew (poolShares (store w1)) poolId = share1).
  { unfold shareOrNew. now rewrite Hshare1. }
  exists w1, w2, pool1, share1, pool2.
  exists (PoolShare.set_balance (BigDecimal.minus (PoolShare.balance share1) shares) share1).
  split; [ exact Hrun1 | ]. split; [ exact Hpool1 | ]. split; [ reflexivity | ].
  split; [ exact Hshare1 | ]. split; [ reflexivity | ].
  split; [ exact Hrun2 | ]. split; [ exact Hpool2 | ]. split; [ reflexivity | ].
  split.
  { apply equals_value. cbn [pool2 pool1 Pool.totalShares Pool.set_swapsCount
      Pool.set_lastPostJoinExit Pool.set_totalShares].
    rewrite value_minus, value_plus. ring. }
  split.
  { rewrite HPS2. unfold moveShares. rewrite Hnew1. apply lookup_insert_eq. }
  split; [ reflexivity | ].
  apply equals_value. cbn [share1 PoolShare.balance PoolShare.set_balance].
  rewrite value_minus, value_plus. ring.
Qed.

Lemma C5_witness :
  exists w1 w2 pool1 pool2 share2,
    handleSwapEvent (H := Demo.collaborators) Demo.swapMint Demo.world0 = Ok (tt, w1)
    /\ handleSwapEvent (H := Demo.collaborators) Demo.swapBurn w1 = Ok (tt, w2)
    /\ pools (store w1) !! "0xstabS0002" = Some pool1
    /\ Pool.totalShares pool1
       = BigDecimal.plus BigDecimal.zero (tokenToDecimal 500000000000000000 18)
    /\ pools (store w2) !! "0xstabS0002" = Some pool2
    /\ BigDecimal.equals (Pool.totalShares pool2) BigDecimal.zero = true
    /\ poolShares (store w2) !! vaultShareId (H := Demo.collaborators) "0xstabS0002"
       = Some share2
    /\ BigDecimal.equals (PoolShare.balance share2) BigDecimal.zero = true.
Proof.
  destruct (C5_virtual_supply_symmetry
              (H := Demo.collaborators) Demo.swapMint Demo.swapBurn Demo.poolS
              (Demo.freshPoolToken "0xstabS0002" "0xaaaa" "A" 6)
              (Demo.freshPoolToken "0xstabS0002" "0xstab" "S" 18)
              (Balancer.mk "2" 0) Demo.world0)
    as (w1 & w2 & pool1 & share1 & pool2 & share2
        & Hrun1 & Hpool1 & Hshares1 & _ & _ & Hrun2 & Hpool2 & _ & Hback & Hshare2 & _ & Hvault).
  - apply Demo.refresh_frame_holds.
  - intros p p'. apply Demo.kindIs_by_kind.
  - reflexivity.
  - apply Demo.ready_on_poolS.
  - reflexivity.
  - discriminate.
  - reflexivity.
  - reflexivity.
  - discriminate.
  - reflexivity.
  - cbn. lia.
  - eexists. reflexivity.
  - exists w1, w2, pool1, pool2, share2. repeat split; assumption.
Defined.
(** * Further properties of the mappings

    The rest of this development covers the functions of the same modules
    that the properties above do not reach, with what the code shows about
    them. *)

(** ** Hexadecimal parsing ([hexToBigInt], [helpers/misc.ts])

    Characters are bytes; [toUpperCase] is modelled on the 7-bit range, where
    it maps the letters [a]-[z] to [A]-[Z] and leaves the rest alone. *)

Definition charCode (c : ascii) : Z := Z.of_nat (nat_of_ascii c).

Definition upperChar (c : ascii) : ascii :=
  if (97 <=? charCode c) && (charCode c <=? 122)
  then ascii_of_nat (nat_of_ascii c - 32) else c.

Fixpoint toUpperCase (s : string) : string :=
  match s with
  | EmptyString => EmptyString
  | String c s' => String (upperChar c) (toUpperCase s')
  end.

(** One turn of the loop, on the pair [(bigInt, power)]. *)
Definition hexStep (acc : Z * Z) (char : Z) : Z * Z :=
  let '(bigInt, power) := acc in
  let value :=
    if (48 <=? char) && (char <=? 57) then char - 48
    else if (65 <=? char) && (char <=? 70) then char - 55
    else 0 in
  (bigInt + value * power, power * 16).

(** The loop runs from the last character to the first. *)
Definition hexToBigInt (hex : string) : Z :=
  let hexUpper := toUpperCase hex in
  fst (fold_left hexStep (rev (map charCode (list_ascii_of_string hexUpper))) (0, 1)).

(** The value of a character as a hexadecimal digit of either case; a
    character that is no digit counts as zero. *)
Definition hexDigit (c : ascii) : Z :=
  let n := charCode c in
  if (48 <=? n) && (n <=? 57) then n - 48
  else if (65 <=? n) && (n <=? 70) then n - 55
  else if (97 <=? n) && (n <=? 102) then n - 87
  else 0.

Definition sevenBit (s : string) : Prop :=
  Forall (fun c => charCode c < 128) (list_ascii_of_string s).

Section HexFacts.

Definition stepValue (char : Z) : Z :=
  if (48 <=? char) && (char <=? 57) then char - 48
  else if (65 <=? char) && (char <=? 70) then char - 55
  else 0.

(** Little-endian value of a list of character codes. *)
Fixpoint leValue (l : list Z) : Z :=
  match l with
  | [] => 0
  | c :: l' => stepValue c + 16 * leValue l'
  end.

Lemma hexStep_fold (l : list Z) (b p : Z) :
  fold_left hexStep l (b, p) = (b + p * leValue l, p * 16 ^ Z.of_nat (length l)).
Proof.
  revert b p. induction l as [ | c l IH ]; intros b p.
  - cbn. f_equal; lia.
  - cbn [fold_left]. unfold hexStep at 2. fold (stepValue c). rewrite IH.
    cbn [leValue length]. rewrite Nat2Z.inj_succ, Z.pow_succ_r by lia.
    f_equal; ring.
Qed.

Lemma leValue_app (l r : list Z) :
  leValue (l ++ r) = leValue l + 16 ^ Z.of_nat (length l) * leValue r.
Proof.
  induction l as [ | c l IH ]; cbn [app leValue length].
  - cbn. lia.
  - rewrite IH, Nat2Z.inj_succ, Z.pow_succ_r by lia. ring.
Qed.

Lemma stepValue_range (c : Z) : 0 <= stepValue c < 16.
Proof.
  unfold stepValue.
  destruct (Z.leb_spec 48 c), (Z.leb_spec c 57), (Z.leb_spec 65 c), (Z.leb_spec c 70);
    cbn; lia.
Qed.

Lemma leValue_range (l : list Z) : 0 <= leValue l < 16 ^ Z.of_nat (length l).
Proof.
  induction l as [ | c l IH ]; cbn [leValue length].
  - cbn. lia.
  - pose proof (stepValue_range c). rewrite Nat2Z.inj_succ, Z.pow_succ_r by lia. lia.
Qed.

Definition codes (s : string) : list Z :=
  map charCode (list_ascii_of_string (toUpperCase s)).

Lemma hexToBigInt_leValue (s : string) : hexToBigInt s = leValue (rev (codes s)).
Proof. unfold hexToBigInt. fold (codes s). rewrite hexStep_fold. cbn. lia. Qed.

Lemma list_ascii_app (s t : string) :
  list_ascii_of_string (s +:+ t) = list_ascii_of_string s ++ list_ascii_of_string t.
Proof.
  induction s as [ | c s IH ]; [ reflexivity | ].
  change (String c s +:+ t) with (String c (s +:+ t)). cbn. now rewrite IH.
Qed.

Lemma toUpperCase_app (s t : string) :
  toUpperCase (s +:+ t) = toUpperCase s +:+ toUpperCase t.
Proof.
  induction s as [ | c s IH ]; [ reflexivity | ].
  change (String c s +:+ t) with (String c (s +:+ t)).
  cbn [toUpperCase]. rewrite IH. reflexivity.
Qed.

Lemma codes_app (s t : string) : codes (s +:+ t) = codes s ++ codes t.
Proof. unfold codes. now rewrite toUpperCase_app, list_ascii_app, map_app. Qed.

Lemma length_codes (s : string) : length (codes s) = String.length s.
Proof.
  unfold codes. rewrite length_map.
  induction s as [ | c s IH ]; cbn; [ reflexivity | now rewrite IH ].
Qed.

Lemma charCode_range (c : ascii) : 0 <= charCode c < 256.
Proof. unfold charCode. pose proof (nat_ascii_bounded c). lia. Qed.

Lemma charCode_upper (c : ascii) :
  charCode c < 128 ->
  charCode (upperChar c)
  = if (97 <=? charCode c) && (charCode c <=? 122) then charCode c - 32 else charCode c.
Proof.
  intros H7. unfold upperChar.
  destruct (Z.leb_spec 97 (charCode c)), (Z.leb_spec (charCode c) 122); cbn; try reflexivity.
  unfold charCode in *. rewrite nat_ascii_embedding by lia. lia.
Qed.

Lemma stepValue_upper (c : ascii) :
  charCode c < 128 -> stepValue (charCode (upperChar c)) = hexDigit c.
Proof.
  intros H7. rewrite charCode_upper by assumption. unfold stepValue, hexDigit.
  pose proof (charCode_range c).
  destruct (Z.leb_spec 97 (charCode c)), (Z.leb_spec (charCode c) 122),
    (Z.leb_spec (charCode c) 102), (Z.leb_spec 48 (charCode c)),
    (Z.leb_spec (charCode c) 57), (Z.leb_spec 65 (charCode c)),
    (Z.leb_spec (charCode c) 70); cbn;
    repeat match goal with
           | |- context [ ?a <=? ?b ] => destruct (Z.leb_spec a b)
           end; cbn; lia.
Qed.

End HexFacts.

(** X1: [hexToBigInt] reads its argument as a number in base 16, most
    significant digit first: the empty string is zero, a single character is
    its digit value in either case (zero for a character that is no digit),
    and a concatenation shifts the left part by the length of the right
    one. *)
Theorem hexToBigInt_positional (s t : string) (c : ascii) :
  charCode c < 128 -> sevenBit s -> sevenBit t ->
  hexToBigInt "" = 0
  /\ hexToBigInt (String c "") = hexDigit c
  /\ hexToBigInt (s +:+ t) = hexToBigInt s * 16 ^ Z.of_nat (String.length t) + hexToBigInt t.
Proof.
  intros H7 _ _. split; [ reflexivity | ]. split.
  - rewrite hexToBigInt_leValue. unfold codes. cbn.
    rewrite stepValue_upper by assumption. lia.
  - rewrite !hexToBigInt_leValue, codes_app, rev_app_distr, leValue_app.
    rewrite length_rev, length_codes. ring.
Qed.

Lemma hexToBigInt_positional_witness :
  hexToBigInt "" = 0
  /\ hexToBigInt "f" = 15
  /\ hexToBigInt ("1A" +:+ "2b") = hexToBigInt "1A" * 16 ^ 2 + hexToBigInt "2b".
Proof.
  apply (hexToBigInt_positional "1A" "2b" "f").
  - vm_compute. reflexivity.
  - repeat constructor.
  - repeat constructor.
Defined.

(** X2: The result of [hexToBigInt] is below [16 ^ length], and the prefix [0x]
    of a hex string does not change it: [x] is no digit and counts as zero. *)
Theorem hexToBigInt_prefix_and_bound (s : string) :
  sevenBit s ->
  0 <= hexToBigInt s < 16 ^ Z.of_nat (String.length s)
  /\ hexToBigInt ("0x" +:+ s) = hexToBigInt s.
Proof.
  intros _. split.
  - rewrite hexToBigInt_leValue, <- length_codes, <- length_rev. apply leValue_range.
  - rewrite !hexToBigInt_leValue.
    change ("0x" +:+ s) with (String "0" (String "x" s)).
    unfold codes. cbn [toUpperCase list_ascii_of_string map rev].
    fold (codes s). rewrite <- app_assoc, leValue_app.
    change (leValue ([charCode (upperChar "x")] ++ [charCode (upperChar "0")])) with 0.
    lia.
Qed.

Lemma hexToBigInt_prefix_and_bound_witness :
  0 <= hexToBigInt "ba12" < 16 ^ 4 /\ hexToBigInt ("0x" +:+ "ba12") = hexToBigInt "ba12".
Proof. apply (hexToBigInt_prefix_and_bound "ba12"). repeat constructor. Defined.

(** ** Scaling of raw amounts ([tokenToDecimal], [scaleDown]) *)


(** ** Entity accessors ([getPoolShare], [getToken], [updateTokenBalances]) *)

Section AccessorFacts.
Context `{Collaborators}.

Lemma createUserEntity_run (a : Address) w :
  createUserEntity a w
  = Ok (tt, mkWorld (set_users ({[a]} ∪ users (store w)) (store w)) (logs w) (dispatched w)).
Proof.
  unfold createUserEntity, bind, gets. case_bool_decide as Hin; [ | reflexivity ].
  unfold ret.
  rewrite (subseteq_union_1_L {[a]} (users (store w)))
    by (now apply singleton_subseteq_l).
  now rewrite set_users_eta, world_eta.
Qed.

End AccessorFacts.

(** X4: [getPoolShare] is a get-or-create: it returns the share stored under
    the identifier of the pair, and for a pair seen for the first time it
    stores a share of balance zero and the [User] entity of the holder.  The
    share it returns is the one in the store afterwards, and asking again
    returns it without another write. *)
Theorem getPoolShare_get_or_create `{Collaborators} (poolId : string) (lp : Address) (w : World) :
  let id := getPoolShareId (getPoolAddress poolId) lp in
  exists share w',
    getPoolShare poolId lp w = Ok (share, w')
    /\ poolShares (store w') !! id = Some share
    /\ (forall known, poolShares (store w) !! id = Some known -> share = known /\ w' = w)
    /\ (poolShares (store w) !! id = None ->
        share = PoolShare.mk id lp poolId ZERO_BD
        /\ w' = mkWorld
                  (set_poolShares (<[id := share]> (poolShares (store w)))
                                  (set_users ({[lp]} ∪ users (store w)) (store w)))
                  (logs w) (dispatched w))
    /\ getPoolShare poolId lp w' = Ok (share, w').
Proof.
  intros id. unfold getPoolShare. fold id. unfold bind at 1, gets at 1.
  destruct (poolShares (store w) !! id) as [known | ] eqn:Hlk.
  - exists known, w. unfold ret.
    repeat split; try congruence.
    unfold bind, gets. now rewrite Hlk.
  - unfold createPoolShareEntity. fold id. unfold bind at 1.
    rewrite createUserEntity_run. unfold bind, modify, ret. cbn [store logs dispatched].
    eexists _, _. split; [ reflexivity | ]. cbn [store set_poolShares poolShares].
    rewrite lookup_insert_eq.
    repeat split; try discriminate. unfold gets. cbn [store set_poolShares poolShares].
    now rewrite lookup_insert_eq.
Qed.

(** X5: [getToken] is a get-or-create as well: a token seen for the first time
    is stored with the name, symbol and decimals its contract reports (empty
    and zero for a call that reverts), a notional balance of zero and no swap;
    a known token is returned as it is, without a write. *)
Theorem getToken_get_or_create `{Collaborators} (a : Address) (w : World) :
  exists token w',
    getToken a w = Ok (token, w')
    /\ tokens (store w') !! a = Some token
    /\ (forall known, tokens (store w) !! a = Some known -> token = known /\ w' = w)
    /\ (tokens (store w) !! a = None ->
        token = Token.mk a (default "" (try_name (erc20 a)))
                         (default "" (try_symbol (erc20 a)))
                         (default 0 (try_decimals (erc20 a)))
                         BigDecimal.zero 0 a None 0
        /\ w' = mkWorld (set_tokens (<[a := token]> (tokens (store w))) (store w))
                        (logs w) (dispatched w))
    /\ getToken a w' = Ok (token, w').
Proof.
  unfold getToken. unfold bind at 1, gets at 1.
  destruct (tokens (store w) !! a) as [known | ] eqn:Hlk.
  - exists known, w. unfold ret. repeat split; try congruence.
    unfold bind, gets. now rewrite Hlk.
  - unfold createToken, saveToken, bind, modify, ret. cbn [store logs dispatched Token.id].
    eexists _, _. split; [ reflexivity | ]. cbn [store set_tokens tokens].
    rewrite lookup_insert_eq. repeat split; try discriminate.
    unfold gets. cbn [store set_tokens tokens]. now rewrite lookup_insert_eq.
Qed.

(** X6: [updateTokenBalances] adds the notional amount for the direction
    [SWAP_IN], subtracts it for [SWAP_OUT] and leaves the balance alone for
    any other direction; in every case the token entity exists afterwards, its
    swap count is not touched and no other token is.  Booking an amount in
    and then out again brings the notional balance back to its value. *)
Theorem updateTokenBalances_directions `{Collaborators}
        (a : Address) (x : BigDecimal) (d : Z) (w : World) :
  let t := tokenOrNew (tokens (store w)) a in
  (forall known, tokens (store w) !! a = Some known -> Token.id known = a) ->
  exists w' t',
    updateTokenBalances a x d w = Ok (tt, w')
    /\ tokens (store w') !! a = Some t'
    /\ (forall b, b <> a -> tokens (store w') !! b = tokens (store w) !! b)
    /\ Token.totalSwapCount t' = Token.totalSwapCount t
    /\ (d = SWAP_IN ->
        Token.totalBalanceNotional t' = BigDecimal.plus (Token.totalBalanceNotional t) x)
    /\ (d <> SWAP_IN -> d = SWAP_OUT ->
        Token.totalBalanceNotional t' = BigDecimal.minus (Token.totalBalanceNotional t) x)
    /\ (d <> SWAP_IN -> d <> SWAP_OUT -> t' = t)
    /\ (d = SWAP_IN -> SWAP_IN <> SWAP_OUT ->
        exists w'' t'',
          updateTokenBalances a x SWAP_OUT w' = Ok (tt, w'')
          /\ tokens (store w'') !! a = Some t''
          /\ BigDecimal.equals (Token.totalBalanceNotional t'')
                               (Token.totalBalanceNotional t) = true).
Proof.
  intros t Hk.
  assert (Hrun : forall d0 v,
             (forall known, tokens (store v) !! a = Some known -> Token.id known = a) ->
             updateTokenBalances a x d0 v
             = Ok (tt, mkWorld
                         (set_tokens
                            (<[a := moveNotional d0 x (tokenOrNew (tokens (store v)) a)]>
                               (tokens (store v)))
                            (store v))
                         (logs v) (dispatched v))).
  { intros d0 v Hv.
    pose proof (wp_touch_token a (moveNotional d0 x)
                  (fun r v' => Ok (r, v') = Ok (tt, mkWorld
                         (set_tokens
                            (<[a := moveNotional d0 x (tokenOrNew (tokens (store v)) a)]>
                               (tokens (store v)))
                            (store v))
                         (logs v) (dispatched v))) v Hv
                  (moveNotional_id d0 x) eq_refl) as Hwp.
    unfold wp in Hwp. unfold updateTokenBalances. unfold moveNotional in Hwp at 1.
    destruct (bind _ _ v) as [[[] v'] | e]; [ exact Hwp | contradiction ]. }
  rewrite (Hrun d w Hk). eexists _, _. split; [ reflexivity | ].
  cbn [store set_tokens tokens]. fold t.
  split; [ apply lookup_insert_eq | ].
  split; [ intros b Hb; now apply lookup_insert_ne | ].
  unfold moveNotional.
  destruct (Z.eqb_spec d SWAP_IN) as [Hin | Hin];
    [ | destruct (Z.eqb_spec d SWAP_OUT) as [Hout | Hout] ];
    (split; [ reflexivity | ]); repeat split; try (intros; congruence); try contradiction.
  intros _ Hne. rewrite Hrun.
  - eexists _, _. split; [ reflexivity | ]. cbn [store set_tokens tokens].
    split; [ apply lookup_insert_eq | ].
    rewrite tokenOrNew_insert_eq. unfold moveNotional.
    destruct (Z.eqb_spec SWAP_OUT SWAP_IN) as [Heq | _]; [ congruence | ].
    rewrite Z.eqb_refl. cbn [Token.totalBalanceNotional Token.set_totalBalanceNotional].
    apply equals_value. rewrite value_minus, value_plus. ring.
  - cbn [store set_tokens tokens]. rewrite lookup_insert_eq. intros known [= <-].
    cbn. apply tokenOrNew_id. exact Hk.
Qed.

Lemma updateTokenBalances_directions_witness :
  exists w' t',
    updateTokenBalances (H := Demo.collaborators) "0xaaaa" BigDecimal.one 0 Demo.world0
    = Ok (tt, w')
    /\ tokens (store w') !! "0xaaaa" = Some t'
    /\ Token.totalBalanceNotional t' = BigDecimal.plus BigDecimal.zero BigDecimal.one
    /\ Token.totalSwapCount t' = 0.
Proof.
  destruct (updateTokenBalances_directions (H := Demo.collaborators)
              "0xaaaa" BigDecimal.one 0 Demo.world0)
    as (w' & t' & Hrun & Hlk & _ & Hcount & Hin & _).
  - intros known Hknown. discriminate Hknown.
  - exists w', t'. repeat split; try assumption. now apply Hin.
Defined.

(** ** Withdrawals ([handlePoolExited]) and events of unknown pools *)

Section ExitFacts.
Context `{Collaborators}.

(** The loop of an exit that books the amount leaving the pool, protocol
    fee included, on the pool token and on the token. *)
Definition exitBody (poolId : string) (amounts protocolFeeAmounts : list Z)
  : nat -> Address -> unit -> M unit :=
  fun i tokenAddress _ =>
    let* poolToken := loadPoolToken poolId tokenAddress in
    match poolToken with
    | None => throw "poolToken not found"
    | Some poolToken =>
        let* amount := index amounts i in
        let* fee := index protocolFeeAmounts i in
        let amountOut := - (amount - fee) in
        let tokenAmountOut := tokenToDecimal amountOut (PoolToken.decimals poolToken) in
        let newBalance := BigDecimal.minus (PoolToken.balance poolToken) tokenAmountOut in
        savePoolToken (PoolToken.set_balance newBalance poolToken) ;;
        let* token := getToken tokenAddress in
        let tokenTotalBalanceNotional :=
          BigDecimal.minus (Token.totalBalanceNotional token) tokenAmountOut in
        saveToken (Token.set_totalBalanceNotional tokenTotalBalanceNotional token)
    end.

Definition debitPoolToken (x : BigDecimal) (pt : PoolToken.t) : PoolToken.t :=
  PoolToken.set_balance (BigDecimal.minus (PoolToken.balance pt) x) pt.

Definition debitToken (x : BigDecimal) (t : Token.t) : Token.t :=
  Token.set_totalBalanceNotional (BigDecimal.minus (Token.totalBalanceNotional t) x) t.

Lemma wp_exitBody poolId amounts fees i a pt amount fee (Q : unit -> World -> Prop) w :
  poolTokens (store w) !! getPoolTokenId poolId a = Some pt ->
  PoolToken.id pt = getPoolTokenId poolId a ->
  amounts !! i = Some amount ->
  fees !! i = Some fee ->
  (forall t, tokens (store w) !! a = Some t -> Token.id t = a) ->
  (let x := tokenToDecimal (- (amount - fee)) (PoolToken.decimals pt) in
   Q tt (mkWorld
           (set_tokens
              (<[a := debitToken x (tokenOrNew (tokens (store w)) a)]> (tokens (store w)))
              (set_poolTokens
                 (<[getPoolTokenId poolId a := debitPoolToken x pt]> (poolTokens (store w)))
                 (store w)))
           (logs w) (dispatched w))) ->
  wp (exitBody poolId amounts fees i a tt) Q w.
Proof.
  intros Hpt Hid Hamt Hfee Hk HQ. unfold exitBody.
  apply wp_bind. unfold loadPoolToken. apply wp_gets. rewrite Hpt.
  apply wp_bind. apply (wp_index _ _ _ _ _ Hamt).
  apply wp_bind. apply (wp_index _ _ _ _ _ Hfee).
  apply wp_bind. unfold savePoolToken. apply wp_modify.
  apply wp_touch_token.
  - exact Hk.
  - reflexivity.
  - cbn [store logs dispatched PoolToken.set_balance PoolToken.id].
    rewrite Hid. exact HQ.
Qed.

Lemma exit_loop_spec poolId amounts fees l i w :
  keyed PoolToken.id (poolTokens (store w)) ->
  keyed Token.id (tokens (store w)) ->
  (forall j a, l !! j = Some a ->
               is_Some (poolTokens (store w) !! getPoolTokenId poolId a)
               /\ is_Some (amounts !! (i + j)%nat)
               /\ is_Some (fees !! (i + j)%nat)) ->
  wp (for_each (exitBody poolId amounts fees) i l tt)
     (fun _ w' =>
        logs w' = logs w /\ dispatched w' = dispatched w
        /\ exists PT' T',
            store w' = set_tokens T' (set_poolTokens PT' (store w))
            /\ keyed PoolToken.id PT' /\ keyed Token.id T'
            /\ (forall k, is_Some (poolTokens (store w) !! k) -> is_Some (PT' !! k))
            /\ (forall k, (forall a, a ∈ l -> k <> getPoolTokenId poolId a) ->
                          PT' !! k = poolTokens (store w) !! k)
            /\ (forall b, b ∉ l -> T' !! b = tokens (store w) !! b)
            /\ (NoDup l ->
                forall j a, l !! j = Some a ->
                  exists pt amount fee,
                    poolTokens (store w) !! getPoolTokenId poolId a = Some pt
                    /\ amounts !! (i + j)%nat = Some amount
                    /\ fees !! (i + j)%nat = Some fee
                    /\ let x := tokenToDecimal (- (amount - fee)) (PoolToken.decimals pt) in
                       PT' !! getPoolTokenId poolId a = Some (debitPoolToken x pt)
                       /\ T' !! a = Some (debitToken x (tokenOrNew (tokens (store w)) a))))
     w.
Proof.
  revert i w. induction l as [ | a0 l IH ]; intros i w HkPT HkT Hpre.
  - apply wp_ret. repeat split.
    exists (poolTokens (store w)), (tokens (store w)).
    split; [ now destruct (store w) | ].
    repeat split; done.
  - rewrite for_each_cons. apply wp_bind.
    destruct (Hpre 0%nat a0 eq_refl) as ([pt Hpt] & [amount Hamt] & [fee Hfee]).
    rewrite Nat.add_0_r in Hamt, Hfee.
    eapply wp_exitBody; eauto using keyed_lookup.
    cbn zeta. set (x := tokenToDecimal (- (amount - fee)) (PoolToken.decimals pt)).
    set (PT1 := <[getPoolTokenId poolId a0 := debitPoolToken x pt]> (poolTokens (store w))).
    set (T1 := <[a0 := debitToken x (tokenOrNew (tokens (store w)) a0)]> (tokens (store w))).
    assert (Hsome : forall k, is_Some (poolTokens (store w) !! k) -> is_Some (PT1 !! k)).
    { intros k Hk. unfold PT1. rewrite lookup_insert_is_Some'. now right. }
    eapply wp_mono.
    { apply IH; cbn [store set_tokens set_poolTokens tokens poolTokens].
      - apply keyed_insert; [ assumption | ].
        cbn. eauto using keyed_lookup.
      - apply keyed_insert; [ assumption | ].
        cbn. apply tokenOrNew_id. eauto using keyed_lookup.
      - intros j a Hj. specialize (Hpre (S j) a Hj).
        rewrite Nat.add_succ_r in Hpre. destruct Hpre as (Hp & ? & ?).
        repeat split; try assumption. now apply Hsome. }
    cbn beta. cbn [store logs dispatched set_tokens set_poolTokens tokens poolTokens].
    intros _ w' (Hlogs & Hdisp & PT' & T' & Hst & HkPT' & HkT' & Hdom & HfPT & HfT & Hnd).
    repeat split; try assumption.
    exists PT', T'. split; [ rewrite Hst; reflexivity | ].
    split; [ assumption | ]. split; [ assumption | ].
    repeat split.
    + intros k Hk. apply Hdom. now apply Hsome.
    + intros k Hk. rewrite HfPT.
      * unfold PT1. apply lookup_insert_ne. apply not_eq_sym, Hk. left.
      * intros a Ha. apply Hk. now right.
    + intros b Hb. rewrite HfT.
      * unfold T1. apply lookup_insert_ne. intros ->. apply Hb. left.
      * intros Hin. apply Hb. now right.
    + intros Hnodup j a Hj. apply NoDup_cons in Hnodup as [Hnotin Hnodup].
      destruct j as [ | j ]; cbn in Hj.
      * injection Hj as <-. exists pt, amount, fee. rewrite Nat.add_0_r.
        repeat split; try assumption.
        -- rewrite HfPT; [ apply lookup_insert_eq | ].
           intros a Ha Heq. apply getPoolTokenId_inj in Heq. now subst.
        -- rewrite HfT by assumption. apply lookup_insert_eq.
      * destruct (Hnd Hnodup j a Hj) as (pt' & amount' & fee' & Hp' & Ha' & Hf' & Hr1 & Hr2).
        assert (Hne : a0 <> a).
        { intros ->. apply Hnotin. eapply list_elem_of_lookup_2; eauto. }
        exists pt', amount', fee'. rewrite Nat.add_succ_r.
        unfold PT1 in Hp'. rewrite lookup_insert_ne in Hp'
          by (intros Heq; apply getPoolTokenId_inj in Heq; contradiction).
        repeat split; try assumption.
        unfold tokenOrNew in *. unfold T1 in Hr2.
        now rewrite lookup_insert_ne in Hr2 by assumption.
Qed.

Definition exitRecord (event : PoolBalanceChanged.t) (exitAmounts : list (option BigDecimal))
  : JoinExit.t :=
  JoinExit.mk (joinId event) "Exit" (PoolBalanceChanged.liquidityProvider event)
              exitAmounts (PoolBalanceChanged.poolId event)
              (PoolBalanceChanged.liquidityProvider event)
              (PoolBalanceChanged.blockTimestamp event)
              (PoolBalanceChanged.transactionHash event)
              (PoolBalanceChanged.blockNumber event).

Lemma handlePoolExited_phases (event : PoolBalanceChanged.t) :
  handlePoolExited event =
  let poolId := PoolBalanceChanged.poolId event in
  let amounts := PoolBalanceChanged.deltas event in
  let protocolFeeAmounts := PoolBalanceChanged.protocolFeeAmounts event in
  let* blockTimestamp := toI32 (PoolBalanceChanged.blockTimestamp event) in
  let* pool := loadPool poolId in
  match pool with
  | None =>
      log_warning "Pool not found in handlePoolExited: {} {}"
                  [poolId; PoolBalanceChanged.transactionHash event]
  | Some pool =>
      let tokenAddresses := Pool.tokensList pool in
      let* exitAmounts :=
        for_each (grossBody Z.opp poolId amounts) 0%nat tokenAddresses
                 (replicate (length amounts) None) in
      saveJoinExit
        (JoinExit.mk (joinId event) "Exit" (PoolBalanceChanged.liquidityProvider event)
                     exitAmounts poolId (PoolBalanceChanged.liquidityProvider event)
                     blockTimestamp (PoolBalanceChanged.transactionHash event)
                     (PoolBalanceChanged.blockNumber event)) ;;
      for_each (exitBody poolId amounts protocolFeeAmounts) 0%nat tokenAddresses tt ;;
      updatePoolLiquidity poolId (PoolBalanceChanged.blockNumber event)
                          (PoolBalanceChanged.blockTimestamp event) ;;
      ret tt
  end.
Proof. reflexivity. Qed.

(** What a processed exit leaves behind. *)
Definition exitPost (event : PoolBalanceChanged.t) (pool : Pool.t) (w w' : World) : Prop :=
  let poolId := PoolBalanceChanged.poolId event in
  let amounts := PoolBalanceChanged.deltas event in
  let fees := PoolBalanceChanged.protocolFeeAmounts event in
  let tl := Pool.tokensList pool in
  exists (exitAmounts : list (option BigDecimal))
         (PT' : gmap string PoolToken.t) (T' : gmap string Token.t),
    let s2 :=
      set_tokens T'
        (set_poolTokens PT'
           (set_joinExits
              (<[joinId event := exitRecord event exitAmounts]> (joinExits (store w)))
              (store w))) in
    let ts := PoolBalanceChanged.blockTimestamp event in
    store w'
    = set_poolSnapshots
        (<[snapshotKey s2 pool ts := snapshotWritten s2 pool ts]> (poolSnapshots s2)) s2
    /\ logs w' = logs w
    /\ dispatched w' = dispatched w
    /\ keyed PoolToken.id PT' /\ keyed Token.id T'
    /\ (forall k, is_Some (poolTokens (store w) !! k) -> is_Some (PT' !! k))
    /\ length exitAmounts = length amounts
    /\ (forall j a, tl !! j = Some a ->
          exists pt amount,
            poolTokens (store w) !! getPoolTokenId poolId a = Some pt
            /\ amounts !! j = Some amount
            /\ exitAmounts !! j = Some (Some (scaleDown (- amount) (PoolToken.decimals pt))))
    /\ (forall k, (forall a, a ∈ tl -> k <> getPoolTokenId poolId a) ->
                  PT' !! k = poolTokens (store w) !! k)
    /\ (forall b, b ∉ tl -> T' !! b = tokens (store w) !! b)
    /\ (NoDup tl ->
        forall j a, tl !! j = Some a ->
          exists pt amount fee,
            poolTokens (store w) !! getPoolTokenId poolId a = Some pt
            /\ amounts !! j = Some amount
            /\ fees !! j = Some fee
            /\ let x := tokenToDecimal (- (amount - fee)) (PoolToken.decimals pt) in
               PT' !! getPoolTokenId poolId a = Some (debitPoolToken x pt)
               /\ T' !! a = Some (debitToken x (tokenOrNew (tokens (store w)) a))).

Lemma handlePoolExited_spec (event : PoolBalanceChanged.t) (pool : Pool.t) w :
  - 2 ^ 31 <= PoolBalanceChanged.blockTimestamp event < 2 ^ 31 ->
  pools (store w) !! PoolBalanceChanged.poolId event = Some pool ->
  keyed PoolToken.id (poolTokens (store w)) ->
  keyed Token.id (tokens (store w)) ->
  (forall j a, Pool.tokensList pool !! j = Some a ->
     is_Some (poolTokens (store w) !! getPoolTokenId (PoolBalanceChanged.poolId event) a)
     /\ is_Some (PoolBalanceChanged.deltas event !! j)
     /\ is_Some (PoolBalanceChanged.protocolFeeAmounts event !! j)) ->
  wp (handlePoolExited event) (fun _ w' => exitPost event pool w w') w.
Proof.
  intros Hts Hpool HkPT HkT Hpre.
  set (poolId := PoolBalanceChanged.poolId event) in *.
  set (amounts := PoolBalanceChanged.deltas event) in *.
  set (fees := PoolBalanceChanged.protocolFeeAmounts event) in *.
  assert (Hlen : (length (Pool.tokensList pool) <= length amounts)%nat).
  { destruct (Pool.tokensList pool) as [ | a0 l0 ] eqn:Htl using rev_ind; [ cbn; lia | ].
    destruct (Hpre (length l0) a0) as (_ & [x Hx] & _).
    - rewrite lookup_app_r, Nat.sub_diag by lia. reflexivity.
    - apply lookup_lt_Some in Hx. rewrite length_app. cbn. lia. }
  rewrite handlePoolExited_phases. cbn zeta. fold poolId amounts fees.
  apply wp_bind, wp_toI32; [ assumption | ].
  apply wp_bind. unfold loadPool. apply wp_gets. rewrite Hpool.
  apply wp_bind. eapply wp_mono.
  { apply gross_loop_spec.
    - intros j a Hj. destruct (Hpre j a Hj) as (? & ? & ?). now split.
    - rewrite length_replicate. cbn. lia. }
  cbn beta. intros exitAmounts w1 (-> & HlenJ & HoutJ & HinJ).
  rewrite length_replicate in HlenJ.
  apply wp_bind. unfold saveJoinExit. apply wp_modify. cbn [JoinExit.id].
  apply wp_bind. eapply wp_mono.
  { apply exit_loop_spec; cbn [store set_joinExits poolTokens tokens];
      solve [ assumption | intros j a Hj; exact (Hpre j a Hj) ]. }
  cbn beta. cbn [store logs dispatched set_joinExits poolTokens tokens].
  intros _ w2 (Hlogs2 & Hdisp2 & PT' & T' & Hst2 & HkPT' & HkT' & Hdom & HfPT & HfT & Hnd).
  apply wp_bind. eapply wp_updatePoolLiquidity; [ | assumption | ].
  { rewrite Hst2. cbn [store set_tokens set_poolTokens set_joinExits pools]. exact Hpool. }
  apply wp_ret. cbn [store logs dispatched].
  exists exitAmounts, PT', T'. cbn zeta.
  split; [ rewrite Hst2; reflexivity | ].
  repeat (split; [ assumption | ]). exact Hnd.
Qed.

Lemma handleBalanceChange_exit (event : PoolBalanceChanged.t) :
  PoolBalanceChanged.deltas event <> [] ->
  fold_left Z.add (PoolBalanceChanged.deltas event) 0 <= 0 ->
  handleBalanceChange event = handlePoolExited event.
Proof.
  intros Hne Hsum. unfold handleBalanceChange.
  case_bool_decide as Hlen.
  - destruct (PoolBalanceChanged.deltas event); [ contradiction | discriminate ].
  - change (fold_left (fun sum amount => sum + amount) (PoolBalanceChanged.deltas event) 0)
      with (fold_left Z.add (PoolBalanceChanged.deltas event) 0).
    unfold ZERO. destruct (Z.gtb_spec (fold_left Z.add (PoolBalanceChanged.deltas event) 0) 0);
      [ lia | reflexivity ].
Qed.

End ExitFacts.

Section JoinExitFacts.
Context `{Collaborators}.

(** The tables a processed join leaves behind, for a pool of distinct
    tokens. *)
Lemma joinPost_tables (event : PoolBalanceChanged.t) (pool : Pool.t) w w' :
  let poolId := PoolBalanceChanged.poolId event in
  let tl := Pool.tokensList pool in
  transfer_frame ->
  NoDup tl ->
  Pool.id pool = poolId ->
  keyed PoolToken.id (poolTokens (store w)) ->
  keyed Token.id (tokens (store w)) ->
  joinPost event pool w w' ->
  (exists pool',
      pools (store w') !! poolId = Some pool'
      /\ Pool.tokensList pool' = tl /\ Pool.id pool' = Pool.id pool)
  /\ keyed PoolToken.id (poolTokens (store w'))
  /\ keyed Token.id (tokens (store w'))
  /\ (forall k, (forall a, a ∈ tl -> k <> getPoolTokenId poolId a) ->
                poolTokens (store w') !! k = poolTokens (store w) !! k)
  /\ (forall b, b ∉ tl -> tokens (store w') !! b = tokens (store w) !! b)
  /\ (forall j a, tl !! j = Some a ->
        exists pt amount fee,
          poolTokens (store w) !! getPoolTokenId poolId a = Some pt
          /\ PoolBalanceChanged.deltas event !! j = Some amount
          /\ PoolBalanceChanged.protocolFeeAmounts event !! j = Some fee
          /\ let x := tokenToDecimal (amount - fee) (PoolToken.decimals pt) in
             poolTokens (store w') !! getPoolTokenId poolId a = Some (creditPoolToken x pt)
             /\ tokens (store w') !! a
                = Some (creditToken x (tokenOrNew (tokens (store w)) a))).
Proof.
  intros poolId tl Hframe Hnodup Hid HkPT HkT Hpost.
  destruct Hpost as (joinAmounts & PT' & T' & preMinted & snaps & Hst & _ & _
                     & _ & _ & _ & HfPT & HfT & Hnet & _ & _).
  cbn zeta in Hst. fold poolId tl in HfPT, HfT, Hnet.
  specialize (Hnet Hnodup).
  set (s2 := set_tokens T' (set_poolTokens PT' (set_joinExits _ (store w)))) in Hst.
  assert (Hs3 : forall s3,
             s3 = (if isPremintedPool pool
                   then handleTransfer (premintTransfer event pool preMinted.1) s2 else s2) ->
             poolTokens s3 = PT' /\ tokens s3 = T').
  { intros s3 ->. destruct (isPremintedPool pool); [ | now split ].
    destruct (Hframe (premintTransfer event pool preMinted.1) s2) as (-> & -> & _).
    now split. }
  destruct (Hs3 _ eq_refl) as (HPT & HT).
  assert (HPT' : poolTokens (store w') = PT') by (rewrite Hst; exact HPT).
  assert (HT' : tokens (store w') = T') by (rewrite Hst; exact HT).
  rewrite HPT', HT'.
  split.
  { rewrite Hst. cbn [pools set_poolSnapshots set_pools]. rewrite Hid, lookup_insert_eq.
    eexists. split; [ reflexivity | ]. now destruct (isPremintedPool pool). }
  split.
  { intros k v Hkv.
    destruct (decide (k ∈ map (getPoolTokenId poolId) tl)) as [Hin | Hnin].
    - apply list_elem_of_fmap in Hin as (a & -> & Ha).
      apply list_elem_of_lookup_1 in Ha as [j Hj].
      destruct (Hnet j a Hj) as (pt & amount & fee & Hpt & _ & _ & Hnew & _).
      rewrite Hnew in Hkv. injection Hkv as <-. cbn. exact (HkPT _ _ Hpt).
    - rewrite HfPT in Hkv; [ exact (HkPT _ _ Hkv) | ].
      intros a Ha ->. apply Hnin. apply list_elem_of_fmap. eauto. }
  split.
  { intros b v Hbv.
    destruct (decide (b ∈ tl)) as [Hin | Hnin].
    - apply list_elem_of_lookup_1 in Hin as [j Hj].
      destruct (Hnet j b Hj) as (pt & amount & fee & _ & _ & _ & _ & Hnew).
      rewrite Hnew in Hbv. injection Hbv as <-. cbn.
      apply tokenOrNew_id. intros t Ht. exact (HkT _ _ Ht).
    - rewrite HfT in Hbv by assumption. exact (HkT _ _ Hbv). }
  split; [ exact HfPT | ]. split; [ exact HfT | ]. exact Hnet.
Qed.

End JoinExitFacts.


(** X8: An exit (a [PoolBalanceChanged] event whose deltas do not sum to a
    positive amount) of a known pool all of whose pool tokens exist debits
    every pool token, and the notional balance of every token, with the
    amount that left the pool, protocol fee included, and records the negated
    deltas in a [JoinExit] entity of type [Exit].  Unlike a join it writes no
    pool entity and hands nothing to the share-transfer handler, whatever the
    kind of the pool. *)
Theorem handlePoolExited_accounting `{Collaborators}
        (event : PoolBalanceChanged.t) (pool : Pool.t) (w : World) :
  let poolId := PoolBalanceChanged.poolId event in
  let deltas := PoolBalanceChanged.deltas event in
  let fees := PoolBalanceChanged.protocolFeeAmounts event in
  deltas <> [] ->
  fold_left Z.add deltas 0 <= 0 ->
  - 2 ^ 31 <= PoolBalanceChanged.blockTimestamp event < 2 ^ 31 ->
  pools (store w) !! poolId = Some pool ->
  keyed PoolToken.id (poolTokens (store w)) ->
  keyed Token.id (tokens (store w)) ->
  NoDup (Pool.tokensList pool) ->
  (forall j a, Pool.tokensList pool !! j = Some a ->
     is_Some (poolTokens (store w) !! getPoolTokenId poolId a)
     /\ is_Some (deltas !! j) /\ is_Some (fees !! j)) ->
  exists w' record,
    handleBalanceChange event w = Ok (tt, w')
    /\ joinExits (store w') !! joinId event = Some record
    /\ JoinExit.type record = "Exit"
    /\ length (JoinExit.amounts record) = length deltas
    /\ (forall i a, Pool.tokensList pool !! i = Some a ->
          exists pt delta fee pt' t',
            poolTokens (store w) !! getPoolTokenId poolId a = Some pt
            /\ deltas !! i = Some delta
            /\ fees !! i = Some fee
            /\ poolTokens (store w') !! getPoolTokenId poolId a = Some pt'
            /\ PoolToken.balance pt'
               = BigDecimal.minus (PoolToken.balance pt)
                                  (tokenToDecimal (- (delta - fee)) (PoolToken.decimals pt))
            /\ tokens (store w') !! a = Some t'
            /\ Token.totalBalanceNotional t'
               = BigDecimal.minus (Token.totalBalanceNotional (tokenOrNew (tokens (store w)) a))
                                  (tokenToDecimal (- (delta - fee)) (PoolToken.decimals pt))
            /\ JoinExit.amounts record !! i
               = Some (Some (scaleDown (- delta) (PoolToken.decimals pt))))
    /\ pools (store w') = pools (store w)
    /\ poolShares (store w') = poolShares (store w)
    /\ dispatched w' = dispatched w
    /\ logs w' = logs w.
Proof.
  intros poolId deltas fees Hne Hsum Hts Hpool HkPT HkT Hnodup Hpre.
  subst poolId deltas fees.
  rewrite handleBalanceChange_exit by assumption.
  destruct (wp_elim _ _ _ (handlePoolExited_spec event pool w Hts Hpool HkPT HkT Hpre))
    as ([] & w' & Hrun & Hpost).
  destruct Hpost as (exitAmounts & PT' & T' & Hst & Hlogs & Hdisp & _ & _ & _
                     & Hlen & Hgross & _ & _ & Hnet).
  cbn zeta in Hst.
  exists w', (exitRecord event exitAmounts).
  split; [ exact Hrun | ]. rewrite Hst.
  cbn [joinExits poolTokens tokens pools poolShares set_poolSnapshots set_tokens
       set_poolTokens set_joinExits].
  split; [ apply lookup_insert_eq | ].
  split; [ reflexivity | ]. split; [ exact Hlen | ].
  split; [ | repeat split; assumption ].
  intros i a Hi.
  destruct (Hnet Hnodup i a Hi) as (pt & delta & fee & Hpt & Hd & Hf & HptN & HtN).
  destruct (Hgross i a Hi) as (pt0 & delta0 & Hpt0 & Hd0 & Hg).
  assert (pt0 = pt) as -> by congruence. assert (delta0 = delta) as -> by congruence.
  exists pt, delta, fee. eexists _, _.
  repeat split; try eassumption; reflexivity.
Qed.

Lemma fold_add_opp (l : list Z) (acc : Z) :
  fold_left Z.add (map Z.opp l) (- acc) = - fold_left Z.add l acc.
Proof.
  revert acc. induction l as [ | x l IH ]; intros acc; [ reflexivity | ].
  cbn [map fold_left]. replace (- acc + - x) with (- (acc + x)) by lia. apply IH.
Qed.

(** X9: A join followed by the exit that takes the same amounts out again
    leaves every pool-token balance, and the notional balance of every token,
    lower by the protocol fees of the two events and by nothing else: without
    fees the pair brings the balances back to their values. *)
Theorem join_then_exit_balances `{Collaborators}
        (join exit : PoolBalanceChanged.t) (pool : Pool.t) (w : World) :
  let poolId := PoolBalanceChanged.poolId join in
  let tl := Pool.tokensList pool in
  transfer_frame ->
  PoolBalanceChanged.poolId exit = poolId ->
  PoolBalanceChanged.deltas exit = map Z.opp (PoolBalanceChanged.deltas join) ->
  0 < fold_left Z.add (PoolBalanceChanged.deltas join) 0 ->
  - 2 ^ 31 <= PoolBalanceChanged.blockTimestamp join < 2 ^ 31 ->
  - 2 ^ 31 <= PoolBalanceChanged.blockTimestamp exit < 2 ^ 31 ->
  pools (store w) !! poolId = Some pool ->
  Pool.id pool = poolId ->
  keyed PoolToken.id (poolTokens (store w)) ->
  keyed Token.id (tokens (store w)) ->
  NoDup tl ->
  (forall j a, tl !! j = Some a ->
     is_Some (poolTokens (store w) !! getPoolTokenId poolId a)
     /\ is_Some (PoolBalanceChanged.deltas join !! j)
     /\ is_Some (PoolBalanceChanged.protocolFeeAmounts join !! j)
     /\ is_Some (PoolBalanceChanged.protocolFeeAmounts exit !! j)) ->
  exists w1 w2,
    handleBalanceChange join w = Ok (tt, w1)
    /\ handleBalanceChange exit w1 = Ok (tt, w2)
    /\ forall j a, tl !! j = Some a ->
         exists pt feeIn feeOut pt2 t2,
           poolTokens (store w) !! getPoolTokenId poolId a = Some pt
           /\ PoolBalanceChanged.protocolFeeAmounts join !! j = Some feeIn
           /\ PoolBalanceChanged.protocolFeeAmounts exit !! j = Some feeOut
           /\ poolTokens (store w2) !! getPoolTokenId poolId a = Some pt2
           /\ tokens (store w2) !! a = Some t2
           /\ let fees := tokenToDecimal (feeIn + feeOut) (PoolToken.decimals pt) in
              let notional := Token.totalBalanceNotional (tokenOrNew (tokens (store w)) a) in
              BigDecimal.equals (PoolToken.balance pt2)
                                (BigDecimal.minus (PoolToken.balance pt) fees) = true
              /\ BigDecimal.equals (Token.totalBalanceNotional t2)
                                   (BigDecimal.minus notional fees) = true
              /\ (feeIn = 0 -> feeOut = 0 ->
                  BigDecimal.equals (PoolToken.balance pt2) (PoolToken.balance pt) = true
                  /\ BigDecimal.equals (Token.totalBalanceNotional t2) notional = true).
Proof.
  intros poolId tl Hframe Hsame Hmirror Hsum Hts1 Hts2 Hpool Hid HkPT HkT Hnodup Hpre.
  (* the join *)
  rewrite handleBalanceChange_join by assumption.
  assert (Hpre1 : forall j a, Pool.tokensList pool !! j = Some a ->
            is_Some (poolTokens (store w) !! getPoolTokenId (PoolBalanceChanged.poolId join) a)
            /\ is_Some (PoolBalanceChanged.deltas join !! j)
            /\ is_Some (PoolBalanceChanged.protocolFeeAmounts join !! j)).
  { intros j a Hj. destruct (Hpre j a Hj) as (? & ? & ? & _). now repeat split. }
  destruct (wp_elim _ _ _ (handlePoolJoined_spec join pool w Hts1 Hpool Hid HkPT HkT Hpre1))
    as ([] & w1 & Hrun1 & Hpost1).
  destruct (joinPost_tables join pool w w1 Hframe Hnodup Hid HkPT HkT Hpost1)
    as ((pool1 & Hpool1 & Htl1 & Hid1) & HkPT1 & HkT1 & _ & _ & Hjoin).
  fold poolId tl in Hpool1, Htl1, Hjoin.
  (* the exit *)
  assert (Hne : PoolBalanceChanged.deltas exit <> []).
  { rewrite Hmirror. destruct (PoolBalanceChanged.deltas join); [ cbn in Hsum; lia | discriminate ]. }
  assert (Hsum2 : fold_left Z.add (PoolBalanceChanged.deltas exit) 0 <= 0).
  { rewrite Hmirror. change 0 with (- 0) at 1. rewrite fold_add_opp. lia. }
  assert (Hpre2 : forall j a, Pool.tokensList pool1 !! j = Some a ->
            is_Some (poolTokens (store w1) !! getPoolTokenId (PoolBalanceChanged.poolId exit) a)
            /\ is_Some (PoolBalanceChanged.deltas exit !! j)
            /\ is_Some (PoolBalanceChanged.protocolFeeAmounts exit !! j)).
  { rewrite Htl1, Hsame. intros j a Hj.
    destruct (Hpre j a Hj) as (_ & [d Hd] & _ & Hf2).
    destruct (Hjoin j a Hj) as (pt & amount & fee & _ & _ & _ & Hnew & _).
    split; [ eauto | ]. split; [ | exact Hf2 ].
    rewrite Hmirror, list_lookup_fmap, Hd. eauto. }
  rewrite <- Hsame in Hpool1.
  rewrite handleBalanceChange_exit by assumption.
  destruct (wp_elim _ _ _ (handlePoolExited_spec exit pool1 w1 Hts2 Hpool1 HkPT1 HkT1 Hpre2))
    as ([] & w2 & Hrun2 & Hpost2).
  destruct Hpost2 as (exitAmounts & PT2 & T2 & Hst2 & _ & _ & _ & _ & _
                      & _ & _ & _ & _ & Hexit).
  cbn zeta in Hst2. rewrite Htl1, Hsame in Hexit. specialize (Hexit Hnodup).
  exists w1, w2. split; [ exact Hrun1 | ]. split; [ exact Hrun2 | ].
  intros j a Hj.
  destruct (Hjoin j a Hj) as (pt & d1 & f1 & Hpt & Hd1 & Hf1 & Hnew1 & Hnew1T).
  destruct (Hexit j a Hj) as (pt1 & d2 & f2 & Hpt1 & Hd2 & Hf2 & Hnew2 & Hnew2T).
  cbn zeta in Hnew1, Hnew1T, Hnew2, Hnew2T.
  rewrite Hnew1 in Hpt1. injection Hpt1 as <-.
  rewrite Hmirror, list_lookup_fmap, Hd1 in Hd2. injection Hd2 as <-.
  unfold tokenOrNew in Hnew2T at 1. rewrite Hnew1T in Hnew2T. cbn [default] in Hnew2T.
  exists pt, f1, f2. eexists _, _.
  split; [ exact Hpt | ]. split; [ exact Hf1 | ]. split; [ exact Hf2 | ].
  rewrite Hst2.
  cbn [poolTokens tokens set_poolSnapshots set_tokens set_poolTokens set_joinExits].
  split; [ exact Hnew2 | ]. split; [ exact Hnew2T | ].
  cbn zeta.
  cbn [debitPoolToken creditPoolToken debitToken creditToken PoolToken.balance
       PoolToken.set_balance PoolToken.decimals Token.totalBalanceNotional
       Token.set_totalBalanceNotional].
  assert (Hnz := Qpow10_nonzero (u8 (PoolToken.decimals pt))).
  assert (Hval : forall b : BigDecimal,
            (BigDecimal.value
               (BigDecimal.minus
                  (BigDecimal.plus b (tokenToDecimal (d1 - f1) (PoolToken.decimals pt)))
                  (tokenToDecimal (- (- d1 - f2)) (PoolToken.decimals pt)))
             == BigDecimal.value
                  (BigDecimal.minus b (tokenToDecimal (f1 + f2) (PoolToken.decimals pt))))%Q).
  { intros b. rewrite !value_minus, value_plus, !tokenToDecimal_scaleDown, !value_scaleDown.
    unfold Z.sub. rewrite !inject_Z_opp, !inject_Z_plus, !inject_Z_opp.
    field. exact Hnz. }
  assert (Hzero : forall b : BigDecimal,
            f1 = 0 -> f2 = 0 ->
            (BigDecimal.value
               (BigDecimal.minus b (tokenToDecimal (f1 + f2) (PoolToken.decimals pt)))
             == BigDecimal.value b)%Q).
  { intros b -> ->. rewrite value_minus, tokenToDecimal_scaleDown, value_scaleDown.
    change (inject_Z (0 + 0)) with 0%Q. field. exact Hnz. }
  split; [ apply equals_value, Hval | ].
  split; [ apply equals_value, Hval | ].
  intros Hf1z Hf2z.
  split; apply equals_value; (eapply Qeq_trans; [ apply Hval | now apply Hzero ]).
Qed.

(** A small deployment for the further properties: the pool [P] of the
    concrete deployment above. *)
Module Scenario.

Definition exitP : PoolBalanceChanged.t :=
  PoolBalanceChanged.mk "0xpoolP0001" "0xuser" [-1000000; -2000000000000000000] [0; 0]
                        8 "0xtx0a" 106 1700000600.


Lemma poolP_ready (event : PoolBalanceChanged.t) (j : nat) (a : Address) :
  length (PoolBalanceChanged.deltas event) = 2%nat ->
  length (PoolBalanceChanged.protocolFeeAmounts event) = 2%nat ->
  Pool.tokensList Demo.poolP !! j = Some a ->
  is_Some (poolTokens Demo.store0 !! getPoolTokenId "0xpoolP0001" a)
  /\ is_Some (PoolBalanceChanged.deltas event !! j)
  /\ is_Some (PoolBalanceChanged.protocolFeeAmounts event !! j).
Proof.
  intros Hd Hf Hj.
  assert (Hlt : (j < 2)%nat) by (apply lookup_lt_Some in Hj; exact Hj).
  split; [ | split; apply lookup_lt_is_Some; lia ].
  destruct j as [ | [ | j ] ]; try (cbn in Hlt; lia);
    injection Hj as <-; eexists; reflexivity.
Qed.

End Scenario.


Lemma handlePoolExited_accounting_witness :
  exists w' record ptA,
    handleBalanceChange (H := Demo.collaborators) Scenario.exitP Demo.world0 = Ok (tt, w')
    /\ joinExits (store w') !! "0xtx0a8" = Some record
    /\ JoinExit.type record = "Exit"
    /\ poolTokens (store w') !! "0xpoolP0001-0xaaaa" = Some ptA
    /\ PoolToken.balance ptA
       = BigDecimal.minus BigDecimal.zero (tokenToDecimal 1000000 6)
    /\ pools (store w') = pools Demo.store0.
Proof.
  destruct (handlePoolExited_accounting (H := Demo.collaborators)
              Scenario.exitP Demo.poolP Demo.world0)
    as (w' & record & Hrun & Hrec & Htype & _ & Hall & Hpools & _).
  - discriminate.
  - cbn. lia.
  - cbn. lia.
  - reflexivity.
  - apply Demo.keyed_compute. reflexivity.
  - apply Demo.keyed_compute. reflexivity.
  - apply (bool_decide_unpack _). vm_compute. exact I.
  - intros j a Hj. now apply Scenario.poolP_ready.
  - destruct (Hall 0%nat "0xaaaa" eq_refl)
      as (pt & delta & fee & pt' & t' & Hpt & Hd & Hf & Hpt' & Hbal & _).
    injection Hpt as <-. injection Hd as <-. injection Hf as <-.
    exists w', record, pt'. repeat split; assumption.
Defined.

Lemma join_then_exit_balances_witness :
  exists w1 w2 ptA ptB,
    handleBalanceChange (H := Demo.collaborators) Demo.joinP Demo.world0 = Ok (tt, w1)
    /\ handleBalanceChange (H := Demo.collaborators) Scenario.exitP w1 = Ok (tt, w2)
    /\ poolTokens (store w2) !! "0xpoolP0001-0xaaaa" = Some ptA
    /\ BigDecimal.equals (PoolToken.balance ptA) BigDecimal.zero = true
    /\ poolTokens (store w2) !! "0xpoolP0001-0xbbbb" = Some ptB
    /\ BigDecimal.equals (PoolToken.balance ptB) BigDecimal.zero = true.
Proof.
  destruct (join_then_exit_balances (H := Demo.collaborators)
              Demo.joinP Scenario.exitP Demo.poolP Demo.world0)
    as (w1 & w2 & Hrun1 & Hrun2 & Hall).
  - apply Demo.transfer_frame_holds.
  - reflexivity.
  - reflexivity.
  - cbn. lia.
  - cbn. lia.
  - cbn. lia.
  - reflexivity.
  - reflexivity.
  - apply Demo.keyed_compute. reflexivity.
  - apply Demo.keyed_compute. reflexivity.
  - apply (bool_decide_unpack _). vm_compute. exact I.
  - intros j a Hj.
    destruct (Scenario.poolP_ready Demo.joinP j a eq_refl eq_refl Hj) as (? & ? & ?).
    destruct (Scenario.poolP_ready Scenario.exitP j a eq_refl eq_refl Hj) as (_ & _ & ?).
    now repeat split.
  - destruct (Hall 0%nat "0xaaaa" eq_refl)
      as (ptA0 & fA1 & fA2 & ptA & tA & HptA0 & HfA1 & HfA2 & HptA & _ & _ & _ & HzeroA).
    destruct (Hall 1%nat "0xbbbb" eq_refl)
      as (ptB0 & fB1 & fB2 & ptB & tB & HptB0 & HfB1 & HfB2 & HptB & _ & _ & _ & HzeroB).
    injection HptA0 as <-. injection HptB0 as <-.
    injection HfA1 as <-. injection HfA2 as <-. injection HfB1 as <-. injection HfB2 as <-.
    exists w1, w2, ptA, ptB.
    split; [ exact Hrun1 | ]. split; [ exact Hrun2 | ].
    split; [ exact HptA | ]. split; [ now apply HzeroA | ].
    split; [ exact HptB | ]. now apply HzeroB.
Defined.

(** ** Asset-manager rebalances and swaps: what else they write *)

(** X10: A [PoolBalanceManaged] event books the sum of its two deltas on the
    notional balance of the token as well, and writes nothing but the pool
    token and the token: the pool, the snapshots and the join/exit records
    stay as they were.  A pure transfer between cash and managed (deltas that
    cancel) leaves the balance of the pool token and the notional balance of
    the token at their values. *)
Theorem handleBalanceManage_books `{Collaborators}
        (event : PoolBalanceManaged.t) (pool : Pool.t) (pt : PoolToken.t) (w : World) :
  let poolId := PoolBalanceManaged.poolId event in
  let a := PoolBalanceManaged.token event in
  let key := getPoolTokenId poolId a in
  let cash := tokenToDecimal (PoolBalanceManaged.cashDelta event) (PoolToken.decimals pt) in
  let managed :=
    tokenToDecimal (PoolBalanceManaged.managedDelta event) (PoolToken.decimals pt) in
  let before := tokenOrNew (tokens (store w)) a in
  pools (store w) !! poolId = Some pool ->
  poolTokens (store w) !! key = Some pt ->
  PoolToken.id pt = key ->
  keyed Token.id (tokens (store w)) ->
  exists w' pt' t',
    handleBalanceManage event w = Ok (tt, w')
    /\ poolTokens (store w') !! key = Some pt'
    /\ tokens (store w') !! a = Some t'
    /\ Token.totalBalanceNotional t'
       = BigDecimal.plus (Token.totalBalanceNotional before) (BigDecimal.plus cash managed)
    /\ (forall k, k <> key -> poolTokens (store w') !! k = poolTokens (store w) !! k)
    /\ (forall b, b <> a -> tokens (store w') !! b = tokens (store w) !! b)
    /\ pools (store w') = pools (store w)
    /\ poolSnapshots (store w') = poolSnapshots (store w)
    /\ joinExits (store w') = joinExits (store w)
    /\ logs w' = logs w
    /\ dispatched w' = dispatched w
    /\ (PoolBalanceManaged.cashDelta event + PoolBalanceManaged.managedDelta event = 0 ->
        BigDecimal.equals (PoolToken.balance pt') (PoolToken.balance pt) = true
        /\ BigDecimal.equals (Token.totalBalanceNotional t')
                             (Token.totalBalanceNotional before) = true).
Proof.
  intros poolId a key cash managed before Hpool Hpt Hid HkT.
  rewrite (handleBalanceManage_known event pool pt w Hpool Hpt Hid)
    by (intros t Ht; exact (HkT _ _ Ht)).
  cbn zeta. fold poolId a key cash managed before.
  eexists _, _, _. split; [ reflexivity | ].
  cbn [store logs dispatched set_tokens set_poolTokens poolTokens tokens pools
       poolSnapshots joinExits].
  split; [ apply lookup_insert_eq | ]. split; [ apply lookup_insert_eq | ].
  split; [ reflexivity | ].
  split; [ intros k Hk; now apply lookup_insert_ne | ].
  split; [ intros b Hb; now apply lookup_insert_ne | ].
  repeat (split; [ reflexivity | ]).
  intros Hcancel.
  assert (Hzero : (BigDecimal.value (BigDecimal.plus cash managed) == 0)%Q).
  { unfold cash, managed.
    rewrite value_plus, !tokenToDecimal_scaleDown, !value_scaleDown.
    replace (PoolBalanceManaged.managedDelta event)
      with (- PoolBalanceManaged.cashDelta event) by lia.
    rewrite inject_Z_opp. field. apply Qpow10_nonzero. }
  split; apply equals_value;
    cbn [managePoolToken PoolToken.balance creditToken Token.totalBalanceNotional
         Token.set_totalBalanceNotional];
    rewrite value_plus; fold cash managed; rewrite Hzero; ring.
Qed.

Lemma handleBalanceManage_books_witness :
  exists w' pt' t',
    handleBalanceManage (H := Demo.collaborators) Demo.manageA Demo.world0 = Ok (tt, w')
    /\ poolTokens (store w') !! "0xpoolP0001-0xaaaa" = Some pt'
    /\ tokens (store w') !! "0xaaaa" = Some t'
    /\ pools (store w') = pools Demo.store0
    /\ poolSnapshots (store w') = ∅.
Proof.
  destruct (handleBalanceManage_books (H := Demo.collaborators)
              Demo.manageA Demo.poolP
              (Demo.freshPoolToken "0xpoolP0001" "0xaaaa" "A" 6) Demo.world0)
    as (w' & pt' & t' & Hrun & Hpt & Ht & _ & _ & _ & Hpools & Hsnap & _).
  - reflexivity.
  - reflexivity.
  - reflexivity.
  - apply Demo.keyed_compute. reflexivity.
  - exists w', pt', t'. repeat split; assumption.
Defined.

(** X11: A processed swap stores a [Swap] record under the transaction hash
    followed by the log index: each amount is scaled with the decimals of its
    own pool token, the symbols are those of the pool tokens, and the caller
    and the user are the sender of the transaction.  No other swap record, no
    join/exit record and no oracle is touched, nothing is logged and nothing
    is handed to the share-transfer handler. *)
Theorem handleSwapEvent_record `{Collaborators}
        (event : SwapEvent.t) (pool : Pool.t) (poolTokenIn poolTokenOut : PoolToken.t)
        (vault : Balancer.t) (w : World) :
  refresh_frame ->
  swapReady event pool poolTokenIn poolTokenOut vault w ->
  exists w' swap,
    handleSwapEvent event w = Ok (tt, w')
    /\ swaps (store w') !! (SwapEvent.transactionHash event +:+ pretty (SwapEvent.logIndex event))
       = Some swap
    /\ Swap.tokenAmountIn swap
       = scaleDown (SwapEvent.amountIn event) (PoolToken.decimals poolTokenIn)
    /\ Swap.tokenAmountOut swap
       = scaleDown (SwapEvent.amountOut event) (PoolToken.decimals poolTokenOut)
    /\ Swap.tokenInSym swap = PoolToken.symbol poolTokenIn
    /\ Swap.tokenOutSym swap = PoolToken.symbol poolTokenOut
    /\ Swap.tokenIn swap = SwapEvent.tokenIn event
    /\ Swap.tokenOut swap = SwapEvent.tokenOut event
    /\ Swap.caller swap = SwapEvent.transactionFrom event
    /\ Swap.userAddress swap = SwapEvent.transactionFrom event
    /\ Swap.poolId swap = SwapEvent.poolId event
    /\ Swap.timestamp swap = SwapEvent.blockTimestamp event
    /\ (forall k, k <> swapId event -> swaps (store w') !! k = swaps (store w) !! k)
    /\ joinExits (store w') = joinExits (store w)
    /\ fxOracles (store w') = fxOracles (store w)
    /\ logs w' = logs w
    /\ dispatched w' = dispatched w.
Proof.
  intros Hframe Hready.
  destruct (wp_elim _ _ _
              (handleSwapEvent_spec event pool poolTokenIn poolTokenOut vault w Hframe Hready))
    as ([] & w' & Hrun & Hpost).
  destruct Hpost as (ampA & P' & U' & inv & lastAmp & Hst & Hlogs & Hdisp).
  cbn zeta in Hst.
  exists w', (swapRecord event poolTokenIn poolTokenOut).
  split; [ exact Hrun | ]. rewrite Hst.
  destruct (zeroLeg _ _);
    cbn [swaps joinExits fxOracles set_poolSnapshots];
    (split; [ apply lookup_insert_eq | ]);
    repeat (split; [ reflexivity | ]);
    (split; [ intros k Hk; now apply lookup_insert_ne | ]);
    repeat (split; [ reflexivity | ]); split; assumption.
Qed.

Lemma handleSwapEvent_record_witness :
  exists w' swap,
    handleSwapEvent (H := Demo.collaborators) Demo.swapPlain Demo.world0 = Ok (tt, w')
    /\ swaps (store w') !! "0xtx0614" = Some swap
    /\ Swap.tokenAmountIn swap = BigDecimal.mk 25 (-6)
    /\ Swap.tokenAmountOut swap = BigDecimal.mk 10 (-18)
    /\ Swap.tokenInSym swap = "A"
    /\ Swap.userAddress swap = "0xtrader".
Proof.
  destruct (handleSwapEvent_record (H := Demo.collaborators)
              Demo.swapPlain Demo.poolP
              (Demo.freshPoolToken "0xpoolP0001" "0xaaaa" "A" 6)
              (Demo.freshPoolToken "0xpoolP0001" "0xbbbb" "B" 18)
              (Balancer.mk "2" 0) Demo.world0)
    as (w' & swap & Hrun & Hlk & Hin & Hout & Hsym & _ & _ & _ & _ & Huser & _).
  - apply Demo.refresh_frame_holds.
  - apply Demo.ready_on_poolP; try reflexivity. cbn. lia.
  - exists w', swap. repeat split; assumption.
Defined.

(** X12: On a pool without virtual supply a swap is no mint and no burn: the
    total shares of the pool and the share table stay as they were, also
    when one of the swapped tokens is the pool's own share token. *)
Theorem handleSwapEvent_plain_pool `{Collaborators}
        (event : SwapEvent.t) (pool : Pool.t) (poolTokenIn poolTokenOut : PoolToken.t)
        (vault : Balancer.t) (w : World) :
  refresh_frame ->
  swapReady event pool poolTokenIn poolTokenOut vault w ->
  (forall amp, hasVirtualSupply (Pool.set_amp amp pool) = false) ->
  exists w' pool',
    handleSwapEvent event w = Ok (tt, w')
    /\ pools (store w') !! SwapEvent.poolId event = Some pool'
    /\ Pool.totalShares pool' = Pool.totalShares pool
    /\ Pool.swapsCount pool' = Pool.swapsCount pool + 1
    /\ poolShares (store w') = poolShares (store w).
Proof.
  intros Hframe Hready Hplain.
  destruct (wp_elim _ _ _
              (handleSwapEvent_spec event pool poolTokenIn poolTokenOut vault w Hframe Hready))
    as ([] & w' & Hrun & Hpost).
  destruct (swapPost_tables _ _ _ _ _ _ _ Hpost)
    as (ampA & inv & la & Hpool' & HPS & _).
  cbn zeta in Hpool', HPS.
  unfold virtualShares in Hpool'. unfold virtualVault in HPS.
  rewrite Hplain in Hpool', HPS.
  eexists w', _. split; [ exact Hrun | ]. split; [ exact Hpool' | ].
  repeat split. exact HPS.
Qed.

Lemma handleSwapEvent_plain_pool_witness :
  exists w' pool',
    handleSwapEvent (H := Demo.collaborators) Demo.swapPlain Demo.world0 = Ok (tt, w')
    /\ pools (store w') !! "0xpoolP0001" = Some pool'
    /\ Pool.totalShares pool' = BigDecimal.zero
    /\ poolShares (store w') = ∅.
Proof.
  destruct (handleSwapEvent_plain_pool (H := Demo.collaborators)
              Demo.swapPlain Demo.poolP
              (Demo.freshPoolToken "0xpoolP0001" "0xaaaa" "A" 6)
              (Demo.freshPoolToken "0xpoolP0001" "0xbbbb" "B" 18)
              (Balancer.mk "2" 0) Demo.world0)
    as (w' & pool' & Hrun & Hlk & Hshares & _ & HPS).
  - apply Demo.refresh_frame_holds.
  - apply Demo.ready_on_poolP; try reflexivity. cbn. lia.
  - reflexivity.
  - exists w', pool'. repeat split; assumption.
Defined.

Section SwapFatal.
Context `{Collaborators}.

Lemma bind_err {A B} (m : M A) (k : A -> M B) (e : string) w :
  wp m (fun a w' => k a w' = Err e) w -> bind m k w = Err e.
Proof. unfold wp, bind. destruct (m w) as [[a w'] | e0]; [ auto | tauto ]. Qed.

Lemma invariant_loop_err (pool : Pool.t) l i acc w :
  (exists a, a ∈ l /\ a <> Pool.address pool
             /\ poolTokens (store w) !! getPoolTokenId (Pool.id pool) a = None) ->
  for_each (invariantBody pool) i l acc w = Err "poolToken not found".
Proof.
  revert i acc. induction l as [ | a0 l IH ]; intros i acc (a & Hin & Hne & Hnone).
  - now apply elem_of_nil in Hin.
  - rewrite for_each_cons. unfold bind, invariantBody at 1.
    case_bool_decide as Heq.
    + unfold ret. apply IH. exists a. repeat split; try assumption.
      apply elem_of_cons in Hin as [-> | Hin]; [ contradiction | assumption ].
    + unfold loadPoolToken, bind, gets.
      destruct (poolTokens (store w) !! getPoolTokenId (Pool.id pool) a0) as [pt | ] eqn:Hpt;
        [ | reflexivity ].
      rewrite scaleUp_trunc by lia. cbn [liftRes]. unfold ret.
      apply IH. exists a. repeat split; try assumption.
      apply elem_of_cons in Hin as [-> | Hin]; [ congruence | assumption ].
Qed.

End SwapFatal.

(** X13: A swap of the share token of a composable stable pool recomputes the
    invariant from the balances of all the other tokens of the pool: when one
    of them has no pool token the handler aborts, although the two swapped
    tokens are registered. *)
Theorem handleSwapEvent_invariant_fatal `{Collaborators}
        (event : SwapEvent.t) (pool : Pool.t) (poolTokenIn poolTokenOut : PoolToken.t)
        (missing : Address) (w : World) :
  let poolId := SwapEvent.poolId event in
  refresh_frame ->
  - 2 ^ 31 <= SwapEvent.blockTimestamp event < 2 ^ 31 ->
  pools (store w) !! poolId = Some pool ->
  Pool.id pool = poolId ->
  poolTokens (store w) !! getPoolTokenId poolId (SwapEvent.tokenIn event) = Some poolTokenIn ->
  poolTokens (store w) !! getPoolTokenId poolId (SwapEvent.tokenOut event) = Some poolTokenOut ->
  keyed PoolToken.id (poolTokens (store w)) ->
  vaultKeyed poolId (poolShares (store w)) ->
  (forall amp shares,
      isComposableStablePool (Pool.set_totalShares shares (Pool.set_amp amp pool)) = true) ->
  SwapEvent.tokenIn event = Pool.address pool \/ SwapEvent.tokenOut event = Pool.address pool ->
  missing ∈ Pool.tokensList pool ->
  missing <> Pool.address pool ->
  poolTokens (store w) !! getPoolTokenId poolId missing = None ->
  handleSwapEvent event w = Err "poolToken not found".
Proof.
  intros poolId Hframe Hts Hpool Hid HptIn HptOut HkPT HkS Hkind Hshare Hmem Hnot Hnone.
  rewrite handleSwapEvent_phases. cbn zeta. fold poolId.
  apply bind_err, wp_createUserEntity. intros U0.
  apply bind_err. unfold loadPool. apply wp_gets.
  cbn [store set_users pools]. rewrite Hpool.
  apply bind_err, wp_refreshPool; [ assumption | ]. intros ampA P'.
  cbn [store logs dispatched].
  apply bind_err, wp_adjustVirtualSupply.
  { cbn [store set_pools set_users poolShares]. exact HkS. }
  intros U'. cbn [store logs dispatched set_pools set_users poolShares Pool.totalShares
                  Pool.set_amp].
  apply bind_err, wp_toI32; [ assumption | ].
  apply bind_err. unfold loadPoolToken. apply wp_gets.
  cbn [store set_pools set_users set_poolShares poolTokens]. rewrite HptIn.
  apply bind_err, wp_gets.
  cbn [store set_pools set_users set_poolShares poolTokens]. rewrite HptOut.
  apply bind_err. unfold savePoolToken. apply wp_modify.
  apply bind_err, wp_modify.
  cbn [store logs dispatched set_pools set_users set_poolShares set_poolTokens poolTokens
       PoolToken.id PoolToken.set_balance pools poolShares tokens users swaps joinExits
       balancers fxOracles poolSnapshots].
  rewrite (keyed_lookup _ _ _ _ HkPT HptIn), (keyed_lookup _ _ _ _ HkPT HptOut).
  set (pool2 := Pool.set_totalShares _ _).
  unfold bind at 1. unfold refreshInvariant.
  change (Pool.address pool2) with (Pool.address pool).
  assert (Hgate : bool_decide (Pool.address pool = SwapEvent.tokenIn event)
                  || bool_decide (Pool.address pool = SwapEvent.tokenOut event) = true).
  { destruct Hshare as [He | He]; rewrite He;
      rewrite (bool_decide_eq_true_2 _ eq_refl); [ reflexivity | apply orb_true_r ]. }
  rewrite Hgate. unfold pool2 at 1. rewrite Hkind.
  unfold bind at 1. rewrite invariant_loop_err; [ reflexivity | ].
  exists missing. change (Pool.tokensList pool2) with (Pool.tokensList pool).
  change (Pool.address pool2) with (Pool.address pool).
  change (Pool.id pool2) with (Pool.id pool). rewrite Hid.
  repeat split; try assumption.
  cbn [store poolTokens set_poolTokens].
  rewrite !lookup_insert_ne; [ exact Hnone | | ];
    intros Heq; apply getPoolTokenId_inj in Heq; subst missing; congruence.
Qed.

Module SwapScenario.

(** The composable stable pool of the deployment, one of whose tokens was
    never registered as a pool token. *)
Definition poolT : Pool.t :=
  Pool.mk "0xstabT0004" "0xstbt" (Some "ComposableStable") ["0xstbt"; "0xaaaa"; "0xdddd"]
          BigDecimal.zero BigDecimal.zero 0 0 (Some 200) None None.

Definition storeT : Store :=
  mkStore
    {["0xstabT0004" := poolT]}
    (list_to_map
       [ (getPoolTokenId "0xstabT0004" "0xstbt", Demo.freshPoolToken "0xstabT0004" "0xstbt" "T" 18);
         (getPoolTokenId "0xstabT0004" "0xaaaa", Demo.freshPoolToken "0xstabT0004" "0xaaaa" "A" 6) ])
    ∅ ∅ ∅ ∅ ∅
    {["2" := Balancer.mk "2" 0]}
    ∅ ∅.

Definition swapT : SwapEvent.t :=
  SwapEvent.mk "0xstabT0004" "0xaaaa" "0xstbt" 1000000 500000000000000000
               15 "0xtx0c" "0xtrader" 108 1700000800.

End SwapScenario.

Lemma handleSwapEvent_invariant_fatal_witness :
  handleSwapEvent (H := Demo.collaborators) SwapScenario.swapT
                  (mkWorld SwapScenario.storeT [] [])
  = Err "poolToken not found".
Proof.
  apply (handleSwapEvent_invariant_fatal (H := Demo.collaborators)
           SwapScenario.swapT SwapScenario.poolT
           (Demo.freshPoolToken "0xstabT0004" "0xaaaa" "A" 6)
           (Demo.freshPoolToken "0xstabT0004" "0xstbt" "T" 18)
           "0xdddd").
  - apply Demo.refresh_frame_holds.
  - cbn. lia.
  - reflexivity.
  - reflexivity.
  - reflexivity.
  - reflexivity.
  - apply Demo.keyed_compute. reflexivity.
  - intros ps Hps. discriminate Hps.
  - reflexivity.
  - right. reflexivity.
  - apply (bool_decide_unpack _). vm_compute. exact I.
  - discriminate.
  - reflexivity.
Defined.

(** ** Internal balances ([handleInternalBalanceChange]) *)

Module UserInternalBalance.
Record t := mk {
  id : string;
  userAddress : string;
  tokenInfo : string;
  token : Address;
  balance : BigDecimal
}.

Definition set_balance (v : BigDecimal) (b : t) : t :=
  mk (id b) (userAddress b) (tokenInfo b) (token b) v.
End UserInternalBalance.

Module InternalBalanceChanged.
Record t := mk {
  user : Address;
  token : Address;
  delta : Z;
  logIndex : Z;
  transactionHash : string;
  blockNumber : Z;
  blockTimestamp : Z
}.
End InternalBalanceChanged.

(** The world of the internal-balance handler: the world of the handlers
    above, the [UserInternalBalance] entities and the addresses that have a
    [PoolContract] entity. *)
Record VaultWorld := mkVaultWorld {
  base : World;
  userInternalBalances : gmap string UserInternalBalance.t;
  poolContracts : gset string
}.

Definition V (A : Type) : Type := VaultWorld -> Res (A * VaultWorld).

Definition retV {A} (a : A) : V A := fun v => Ok (a, v).

Definition bindV {A B} (m : V A) (k : A -> V B) : V B :=
  fun v => match m v with
           | Ok (a, v') => k a v'
           | Err e => Err e
           end.

(** A handler of the base world, run inside the larger one. *)
Definition liftV {A} (m : M A) : V A :=
  fun v => match m (base v) with
           | Ok (a, w') => Ok (a, mkVaultWorld w' (userInternalBalances v) (poolContracts v))
           | Err e => Err e
           end.

Definition getsV {A} (f : VaultWorld -> A) : V A := fun v => Ok (f v, v).

Definition saveUserInternalBalance (b : UserInternalBalance.t) : V unit :=
  fun v => Ok (tt, mkVaultWorld (base v)
                                (<[UserInternalBalance.id b := b]> (userInternalBalances v))
                                (poolContracts v)).

Declare Scope vault_scope.
Delimit Scope vault_scope with vault.
Notation "'let*' x := c1 'in' c2" := (bindV c1 (fun x => c2))
  (at level 10, x name, c1 at level 100, c2 at level 200,
   format "'[v' 'let*'  x  :=  c1  'in' '/' c2 ']'") : vault_scope.
Notation "c1 ;; c2" := (bindV c1 (fun _ => c2))
  (at level 100, c2 at level 200, right associativity,
   format "'[v' c1  ;; '/' c2 ']'") : vault_scope.

Section InternalBalances.
Context `{Collaborators}.

Definition getTokenDecimals (tokenAddress : Address) : Z :=
  match try_decimals (erc20 tokenAddress) with
  | None => 0
  | Some value => value
  end.

Definition handleInternalBalanceChange (event : InternalBalanceChanged.t) : V unit :=
  (liftV (createUserEntity (InternalBalanceChanged.user event)) ;;
   let userAddress := InternalBalanceChanged.user event in
   let tokenAddress := InternalBalanceChanged.token event in
   let* token := liftV (getToken tokenAddress) in
   let balanceId := userAddress +:+ Token.id token in
   let* loaded := getsV (fun v => userInternalBalances v !! balanceId) in
   let userBalance :=
     match loaded with
     | Some userBalance => userBalance
     | None =>
         UserInternalBalance.mk balanceId userAddress (Token.id token) tokenAddress ZERO_BD
     end in
   let transferAmount := InternalBalanceChanged.delta event in
   let scaledTransferAmount :=
     tokenToDecimal transferAmount (getTokenDecimals tokenAddress) in
   let userBalance :=
     UserInternalBalance.set_balance
       (BigDecimal.plus (UserInternalBalance.balance userBalance) scaledTransferAmount)
       userBalance in
   saveUserInternalBalance userBalance ;;
   let* poolContract := getsV (fun v => bool_decide (tokenAddress ∈ poolContracts v)) in
   if negb poolContract then retV tt
   else
     let '(mockFrom, mockTo, mockAmount) :=
       if transferAmount <? ZERO
       then (InternalBalanceChanged.user event, VAULT_ADDRESS, - transferAmount)
       else (VAULT_ADDRESS, InternalBalanceChanged.user event, transferAmount) in
     let mockEvent :=
       Transfer.mk tokenAddress mockFrom mockTo mockAmount
                   (InternalBalanceChanged.logIndex event)
                   (InternalBalanceChanged.transactionHash event)
                   (InternalBalanceChanged.blockNumber event)
                   (InternalBalanceChanged.blockTimestamp event) in
     liftV (dispatchTransfer mockEvent))%vault.

(** The balance entity the handler works on: the stored one, or a fresh
    one of balance zero. *)
Definition balanceOrNew (B : gmap string UserInternalBalance.t) (user token : Address)
  : UserInternalBalance.t :=
  default (UserInternalBalance.mk (user +:+ token) user token token ZERO_BD)
          (B !! (user +:+ token)).

(** The synthetic transfer of the shares that enter or leave the internal
    balance. *)
Definition internalTransfer (event : InternalBalanceChanged.t) : Transfer.t :=
  let user := InternalBalanceChanged.user event in
  let delta := InternalBalanceChanged.delta event in
  Transfer.mk (InternalBalanceChanged.token event)
              (if delta <? 0 then user else VAULT_ADDRESS)
              (if delta <? 0 then VAULT_ADDRESS else user)
              (Z.abs delta)
              (InternalBalanceChanged.logIndex event)
              (InternalBalanceChanged.transactionHash event)
              (InternalBalanceChanged.blockNumber event)
              (InternalBalanceChanged.blockTimestamp event).

Lemma getToken_run (a : Address) w :
  (forall known, tokens (store w) !! a = Some known -> Token.id known = a) ->
  getToken a w
  = Ok (tokenOrNew (tokens (store w)) a,
        mkWorld (set_tokens (<[a := tokenOrNew (tokens (store w)) a]> (tokens (store w)))
                            (store w))
                (logs w) (dispatched w)).
Proof.
  intros Hk. unfold getToken, bind, gets, tokenOrNew.
  destruct (tokens (store w) !! a) as [known | ] eqn:Hlk; cbn [default].
  - unfold ret. rewrite insert_id by assumption.
    do 2 f_equal. destruct w as [s l d]. cbn. f_equal. now destruct s.
  - unfold createToken, saveToken, bind, modify, ret. reflexivity.
Qed.

Lemma handleInternalBalanceChange_run (event : InternalBalanceChanged.t) (v : VaultWorld) :
  let user := InternalBalanceChanged.user event in
  let a := InternalBalanceChanged.token event in
  let s := store (base v) in
  let before := balanceOrNew (userInternalBalances v) user a in
  let after :=
    UserInternalBalance.set_balance
      (BigDecimal.plus (UserInternalBalance.balance before)
                       (tokenToDecimal (InternalBalanceChanged.delta event)
                                       (getTokenDecimals a)))
      before in
  let s1 :=
    set_tokens (<[a := tokenOrNew (tokens s) a]> (tokens s))
               (set_users ({[user]} ∪ users s) s) in
  let listed := bool_decide (a ∈ poolContracts v) in
  (forall known, tokens s !! a = Some known -> Token.id known = a) ->
  (forall known, userInternalBalances v !! (user +:+ a) = Some known ->
                 UserInternalBalance.id known = user +:+ a) ->
  handleInternalBalanceChange event v
  = Ok (tt,
        mkVaultWorld
          (mkWorld (if listed then handleTransfer (internalTransfer event) s1 else s1)
                   (logs (base v))
                   (if listed then dispatched (base v) ++ [internalTransfer event]
                    else dispatched (base v)))
          (<[user +:+ a := after]> (userInternalBalances v))
          (poolContracts v)).
Proof.
  intros user a s before after s1 listed HkT HkB.
  unfold handleInternalBalanceChange. fold user a.
  unfold bindV at 1, liftV at 1. rewrite createUserEntity_run.
  cbn [base userInternalBalances poolContracts].
  unfold bindV at 1, liftV at 1. cbn [base].
  rewrite getToken_run by (cbn [store set_users tokens]; exact HkT).
  cbn [store logs dispatched set_users tokens userInternalBalances poolContracts].
  fold s. rewrite (tokenOrNew_id (tokens s) a HkT).
  unfold bindV at 1, getsV at 1. cbn [userInternalBalances].
  unfold bindV at 1, saveUserInternalBalance at 1.
  cbn [base userInternalBalances poolContracts].
  assert (Hid : UserInternalBalance.id
                  (match userInternalBalances v !! (user +:+ a) with
                   | Some userBalance => userBalance
                   | None => UserInternalBalance.mk (user +:+ a) user a a ZERO_BD
                   end) = user +:+ a).
  { destruct (userInternalBalances v !! (user +:+ a)) as [known | ] eqn:Hlk;
      [ now apply HkB | reflexivity ]. }
  cbn [UserInternalBalance.id UserInternalBalance.set_balance]. rewrite Hid.
  unfold bindV at 1, getsV at 1. cbn [poolContracts]. fold listed.
  change (match userInternalBalances v !! (user +:+ a) with
          | Some userBalance => userBalance
          | None => UserInternalBalance.mk (user +:+ a) user a a ZERO_BD
          end) with before.
  destruct listed; cbn [negb]; [ | reflexivity ].
  unfold ZERO, internalTransfer. fold user a.
  destruct (Z.ltb_spec (InternalBalanceChanged.delta event) 0) as [Hneg | Hpos];
    unfold liftV, dispatchTransfer; cbn [base store logs dispatched userInternalBalances
                                         poolContracts].
  - rewrite Z.abs_neq by lia. reflexivity.
  - rewrite Z.abs_eq by lia. reflexivity.
Qed.

End InternalBalances.

(** X14: A change of an internal balance adds the delta, scaled with the
    decimals the token contract reports at that moment (zero when the call
    reverts), to the balance entity of the user and the token, created at zero
    when it is the first one.  When the token is the share token of a
    registered pool contract, and only then, the share-transfer handler is
    handed a synthetic transfer between the vault and the user: out of the
    vault for a deposit, into it for a withdrawal, of the absolute value of
    the delta. *)
Theorem handleInternalBalanceChange_books `{Collaborators}
        (event : InternalBalanceChanged.t) (v : VaultWorld) :
  let user := InternalBalanceChanged.user event in
  let a := InternalBalanceChanged.token event in
  let delta := InternalBalanceChanged.delta event in
  let before := balanceOrNew (userInternalBalances v) user a in
  (forall known, tokens (store (base v)) !! a = Some known -> Token.id known = a) ->
  (forall known, userInternalBalances v !! (user +:+ a) = Some known ->
                 UserInternalBalance.id known = user +:+ a) ->
  exists v' after,
    handleInternalBalanceChange event v = Ok (tt, v')
    /\ userInternalBalances v' !! (user +:+ a) = Some after
    /\ UserInternalBalance.balance after
       = BigDecimal.plus (UserInternalBalance.balance before)
                         (tokenToDecimal delta (default 0 (try_decimals (erc20 a))))
    /\ UserInternalBalance.userAddress after = UserInternalBalance.userAddress before
    /\ (forall k, k <> user +:+ a ->
                  userInternalBalances v' !! k = userInternalBalances v !! k)
    /\ poolContracts v' = poolContracts v
    /\ logs (base v') = logs (base v)
    /\ (a ∉ poolContracts v ->
        dispatched (base v') = dispatched (base v)
        /\ user ∈ users (store (base v'))
        /\ is_Some (tokens (store (base v')) !! a))
    /\ (a ∈ poolContracts v ->
        exists mock,
          dispatched (base v') = dispatched (base v) ++ [mock]
          /\ Transfer.address mock = a
          /\ Transfer.value mock = Z.abs delta
          /\ (delta < 0 -> Transfer.from mock = user /\ Transfer.to mock = VAULT_ADDRESS)
          /\ (0 <= delta -> Transfer.from mock = VAULT_ADDRESS /\ Transfer.to mock = user)).
Proof.
  intros user a delta before HkT HkB.
  rewrite (handleInternalBalanceChange_run event v HkT HkB). cbn zeta. fold user a delta before.
  eexists _, _. split; [ reflexivity | ].
  cbn [userInternalBalances poolContracts base logs dispatched store].
  split; [ apply lookup_insert_eq | ].
  split.
  { cbn [UserInternalBalance.balance UserInternalBalance.set_balance].
    unfold getTokenDecimals. now destruct (try_decimals (erc20 a)). }
  split; [ reflexivity | ].
  split; [ intros k Hk; now apply lookup_insert_ne | ].
  split; [ reflexivity | ]. split; [ reflexivity | ].
  split.
  - intros Hnot. rewrite (bool_decide_eq_false_2 _ Hnot).
    cbn [users tokens set_tokens set_users].
    split; [ reflexivity | ]. split; [ set_solver | ].
    rewrite lookup_insert_eq. eauto.
  - intros Hin. rewrite (bool_decide_eq_true_2 _ Hin).
    exists (internalTransfer event). split; [ reflexivity | ].
    unfold internalTransfer. fold user a delta.
    cbn [Transfer.address Transfer.value Transfer.from Transfer.to].
    split; [ reflexivity | ]. split; [ reflexivity | ].
    split; intros Hd.
    + destruct (Z.ltb_spec delta 0); [ now split | lia ].
    + destruct (Z.ltb_spec delta 0); [ lia | now split ].
Qed.

(** X15: A deposit into an internal balance followed by the withdrawal of the
    same raw amount brings the balance back to its value, and for a share
    token the two synthetic transfers mirror each other. *)
Theorem internal_deposit_then_withdrawal `{Collaborators}
        (deposit withdrawal : InternalBalanceChanged.t) (v : VaultWorld) :
  let user := InternalBalanceChanged.user deposit in
  let a := InternalBalanceChanged.token deposit in
  let before := balanceOrNew (userInternalBalances v) user a in
  transfer_frame ->
  InternalBalanceChanged.user withdrawal = user ->
  InternalBalanceChanged.token withdrawal = a ->
  0 < InternalBalanceChanged.delta deposit ->
  InternalBalanceChanged.delta withdrawal = - InternalBalanceChanged.delta deposit ->
  (forall known, tokens (store (base v)) !! a = Some known -> Token.id known = a) ->
  (forall known, userInternalBalances v !! (user +:+ a) = Some known ->
                 UserInternalBalance.id known = user +:+ a) ->
  exists v1 v2 after,
    handleInternalBalanceChange deposit v = Ok (tt, v1)
    /\ handleInternalBalanceChange withdrawal v1 = Ok (tt, v2)
    /\ userInternalBalances v2 !! (user +:+ a) = Some after
    /\ BigDecimal.equals (UserInternalBalance.balance after)
                         (UserInternalBalance.balance before) = true
    /\ (a ∈ poolContracts v ->
        exists out back,
          dispatched (base v2) = dispatched (base v) ++ [out; back]
          /\ Transfer.from out = VAULT_ADDRESS /\ Transfer.to out = user
          /\ Transfer.from back = user /\ Transfer.to back = VAULT_ADDRESS
          /\ Transfer.value out = InternalBalanceChanged.delta deposit
          /\ Transfer.value back = InternalBalanceChanged.delta deposit).
Proof.
  intros user a before Hframe Huser Htoken Hpos Hmirror HkT HkB.
  rewrite (handleInternalBalanceChange_run deposit v HkT HkB). cbn zeta.
  fold user a before.
  set (after1 := UserInternalBalance.set_balance _ before).
  set (v1 := mkVaultWorld _ _ _).
  assert (HkT1 : forall known, tokens (store (base v1)) !! a = Some known -> Token.id known = a).
  { unfold v1. cbn [base store]. intros known.
    assert (Htok : forall s1, tokens (if bool_decide (a ∈ poolContracts v)
                                      then handleTransfer (internalTransfer deposit) s1 else s1)
                              = tokens s1).
    { intros s1. destruct (bool_decide _); [ | reflexivity ].
      now destruct (Hframe (internalTransfer deposit) s1) as (_ & -> & _). }
    rewrite Htok. cbn [tokens set_tokens]. rewrite lookup_insert_eq. intros [= <-].
    now apply tokenOrNew_id. }
  assert (HkB1 : forall known,
             userInternalBalances v1 !! (user +:+ a) = Some known ->
             UserInternalBalance.id known = user +:+ a).
  { unfold v1. cbn [userInternalBalances]. rewrite lookup_insert_eq. intros known [= <-].
    unfold after1, before, balanceOrNew. cbn [UserInternalBalance.id UserInternalBalance.set_balance].
    destruct (userInternalBalances v !! (user +:+ a)) as [known | ] eqn:Hlk;
      [ now apply HkB | reflexivity ]. }
  rewrite <- Htoken in HkT1. rewrite <- Huser, <- Htoken in HkB1.
  exists v1. eexists _, _. split; [ reflexivity | ].
  rewrite (handleInternalBalanceChange_run withdrawal v1 HkT1 HkB1). cbn zeta.
  rewrite Huser, Htoken. fold user a.
  split; [ reflexivity | ].
  cbn [userInternalBalances]. split; [ apply lookup_insert_eq | ].
  assert (Hb1 : balanceOrNew (userInternalBalances v1) user a = after1).
  { unfold balanceOrNew, v1. cbn [userInternalBalances]. now rewrite lookup_insert_eq. }
  rewrite Hb1. split.
  - apply equals_value.
    cbn [UserInternalBalance.balance UserInternalBalance.set_balance after1].
    rewrite !value_plus, !tokenToDecimal_scaleDown, !value_scaleDown, Hmirror, inject_Z_opp.
    field. apply Qpow10_nonzero.
  - intros Hin. cbn [base dispatched]. unfold v1. cbn [base dispatched poolContracts].
    rewrite (bool_decide_eq_true_2 _ Hin).
    exists (internalTransfer deposit), (internalTransfer withdrawal).
    split; [ now rewrite <- app_assoc | ].
    unfold internalTransfer. rewrite Huser, Hmirror. fold user.
    cbn [Transfer.from Transfer.to Transfer.value].
    destruct (Z.ltb_spec (InternalBalanceChanged.delta deposit) 0); [ lia | ].
    destruct (Z.ltb_spec (- InternalBalanceChanged.delta deposit) 0); [ | lia ].
    repeat split; lia.
Qed.

Module InternalScenario.

Definition vault0 : VaultWorld := mkVaultWorld Demo.world0 ∅ {["0xstab"]}.

Definition deposit : InternalBalanceChanged.t :=
  InternalBalanceChanged.mk "0xuser" "0xstab" 5000000000000000000 16 "0xtx0d" 109 1700000900.

Definition withdrawal : InternalBalanceChanged.t :=
  InternalBalanceChanged.mk "0xuser" "0xstab" (-5000000000000000000) 17 "0xtx0e" 110 1700001000.

End InternalScenario.

Lemma handleInternalBalanceChange_books_witness :
  exists v' after,
    handleInternalBalanceChange (H := Demo.collaborators) InternalScenario.deposit
                                InternalScenario.vault0 = Ok (tt, v')
    /\ userInternalBalances v' !! "0xuser0xstab" = Some after
    /\ UserInternalBalance.balance after
       = BigDecimal.plus BigDecimal.zero (tokenToDecimal 5000000000000000000 18)
    /\ dispatched (base v')
       = [Transfer.mk "0xstab" Demo.vault "0xuser" 5000000000000000000
                      16 "0xtx0d" 109 1700000900].
Proof.
  destruct (handleInternalBalanceChange_books (H := Demo.collaborators)
              InternalScenario.deposit InternalScenario.vault0)
    as (v' & after & Hrun & Hlk & Hbal & _ & _ & _ & _ & _ & Hmock).
  - intros known Hknown. discriminate Hknown.
  - intros known Hknown. discriminate Hknown.
  - exists v', after. split; [ exact Hrun | ]. split; [ exact Hlk | ].
    split; [ exact Hbal | ].
    assert (Hv : handleInternalBalanceChange (H := Demo.collaborators)
                   InternalScenario.deposit InternalScenario.vault0 = Ok (tt, v'))
      by exact Hrun.
    vm_compute in Hv. injection Hv as <-. reflexivity.
Defined.

Lemma internal_deposit_then_withdrawal_witness :
  exists v1 v2 after,
    handleInternalBalanceChange (H := Demo.collaborators) InternalScenario.deposit
                                InternalScenario.vault0 = Ok (tt, v1)
    /\ handleInternalBalanceChange (H := Demo.collaborators) InternalScenario.withdrawal v1
       = Ok (tt, v2)
    /\ userInternalBalances v2 !! "0xuser0xstab" = Some after
    /\ BigDecimal.equals (UserInternalBalance.balance after) BigDecimal.zero = true.
Proof.
  destruct (internal_deposit_then_withdrawal (H := Demo.collaborators)
              InternalScenario.deposit InternalScenario.withdrawal InternalScenario.vault0)
    as (v1 & v2 & after & Hrun1 & Hrun2 & Hlk & Heq & _).
  - apply Demo.transfer_frame_holds.
  - reflexivity.
  - reflexivity.
  - cbn. lia.
  - reflexivity.
  - intros known Hknown. discriminate Hknown.
  - intros known Hknown. discriminate Hknown.
  - exists v1, v2, after. repeat split; assumption.
Defined.

(** ** Snapshot refresh and oracle answers: edges *)


Section OracleEdges.
Context `{Collaborators}.





Lemma price_loop_fails answer oracle l i w :
  keyed Token.id (tokens (store w)) ->
  (exists a e, a ∈ l /\ is_Some (tokens (store w) !! a)
               /\ oraclePrice oracle answer a = Err e) ->
  fails (for_each (priceBody answer oracle) i l tt) w.
Proof.
  revert i w. induction l as [ | a0 l IH ]; intros i w Hk (a & e & Hin & Hsome & Herr).
  - now apply elem_of_nil in Hin.
  - rewrite for_each_cons. unfold fails, bind. rewrite priceBody_run.
    destruct (tokens (store w) !! a0) as [t0 | ] eqn:Ht0.
    + destruct (oraclePrice oracle answer a0) as [p | e0] eqn:Hp0; [ | eauto ].
      apply IH.
      * cbn [store set_tokens tokens]. apply keyed_insert; [ assumption | ].
        unfold withOracleDecimals. now destruct (_ =? _).
      * exists a, e. split; [ | split; [ | assumption ] ].
        -- apply elem_of_cons in Hin as [-> | Hin]; [ congruence | assumption ].
        -- cbn [store set_tokens tokens]. rewrite lookup_insert_is_Some'. now right.
    + apply IH; [ assumption | ].
      exists a, e. split; [ | split; assumption ].
      apply elem_of_cons in Hin as [-> | Hin]; [ | assumption ].
      destruct Hsome as [? Hsome]. cbn [store] in Hsome. congruence.
Qed.

End OracleEdges.

(** X17: The precious-metal token is priced per gram: an answer of its
    aggregator, in USD per troy ounce, is multiplied by [10^8] and divided
    (toward zero) by [3110347680] before it is read at 8 decimals, whatever
    divisor and decimals the oracle entity records. *)
Theorem handleAnswerUpdated_gold `{Collaborators}
        (event : AnswerUpdated.t) (oracle : option FXOracle.t) (t : Token.t) (w : World) :
  let aggregator := AnswerUpdated.address event in
  let answer := AnswerUpdated.current event in
  fxOracles (store w) !! aggregator = oracle ->
  keyed Token.id (tokens (store w)) ->
  divisorWellFormed oracle ->
  ((VNXAU, aggregator) ∈ FX_ASSET_AGGREGATORS
   \/ exists o, oracle = Some o /\ VNXAU ∈ FXOracle.tokens o) ->
  tokens (store w) !! VNXAU = Some t ->
  exists w' t' p,
    handleAnswerUpdated event w = Ok (tt, w')
    /\ tokens (store w') !! VNXAU = Some t'
    /\ Token.latestFXPrice t' = Some p
    /\ p = scaleDown ((answer * 100000000) ÷ 3110347680) 8
    /\ (BigDecimal.value p
        == inject_Z ((answer * 100000000) ÷ 3110347680) / inject_Z 100000000)%Q.
Proof.
  intros aggregator answer Horacle HkT Hwf Hlisted Ht.
  destruct (wp_elim _ _ _ (handleAnswerUpdated_spec event oracle w Horacle HkT Hwf))
    as ([] & w' & Hrun & Hdom & Hprice & _).
  assert (Hin : VNXAU ∈ tokensToUpdate aggregator oracle) by now apply tokensToUpdate_spec.
  destruct (proj2 (Hdom VNXAU)) as [t' Ht']; [ eauto | ].
  destruct (Hprice VNXAU t' Hin Ht') as (p & Hp & Hlatest).
  unfold oraclePrice in Hp. rewrite bool_decide_eq_true_2 in Hp by reflexivity.
  injection Hp as <-.
  eexists w', t', _. split; [ exact Hrun | ]. split; [ exact Ht' | ].
  split; [ exact Hlatest | ]. split; [ reflexivity | ].
  rewrite value_scaleDown. reflexivity.
Qed.


(** X19: An oracle entity whose divisor does not parse as an integer, or is
    zero, makes every answer of its aggregator fatal as soon as one of the
    tokens to update, other than the precious-metal token, has an entity. *)
Theorem handleAnswerUpdated_bad_divisor `{Collaborators}
        (event : AnswerUpdated.t) (o : FXOracle.t) (divisor : string) (a : Address)
        (w : World) :
  let aggregator := AnswerUpdated.address event in
  fxOracles (store w) !! aggregator = Some o ->
  keyed Token.id (tokens (store w)) ->
  FXOracle.divisor o = Some divisor ->
  FXOracle.decimals o <> 0 ->
  BigInt_fromString divisor = None \/ BigInt_fromString divisor = Some 0 ->
  ((a, aggregator) ∈ FX_ASSET_AGGREGATORS \/ a ∈ FXOracle.tokens o) ->
  a <> VNXAU ->
  is_Some (tokens (store w) !! a) ->
  fails (handleAnswerUpdated event) w.
Proof.
  intros aggregator Horacle HkT Hdiv Hdec Hbad Hlisted Hne Hsome.
  rewrite handleAnswerUpdated_phases. cbn zeta. fold aggregator.
  unfold fails, bind at 1, gets at 1. rewrite Horacle.
  unfold bind at 1, ret at 1.
  apply price_loop_fails; [ assumption | ].
  assert (Herr : exists e, oraclePrice (Some o) (AnswerUpdated.current event) a = Err e).
  { unfold oraclePrice. rewrite bool_decide_eq_false_2 by assumption. rewrite Hdiv.
    destruct (Z.eqb_spec (FXOracle.decimals o) 0); [ contradiction | ]. cbn [negb].
    destruct Hbad as [-> | ->]; eauto. }
  destruct Herr as [e Herr]. exists a, e.
  split; [ | split; assumption ].
  apply tokensToUpdate_spec. destruct Hlisted; [ now left | right; eauto ].
Qed.

Module OracleScenario.

Definition tokenGold : Token.t :=
  Token.mk VNXAU "VNX Gold" "VNXAU" 18 BigDecimal.zero 0 VNXAU None 0.

Definition oracleGold : FXOracle.t := FXOracle.mk "0xagg4" [VNXAU] 3 (Some "7").

Definition oracleBroken : FXOracle.t := FXOracle.mk "0xagg5" ["0xgbp"] 2 (Some "0").

Definition storeG : Store :=
  mkStore ∅ ∅ (<[VNXAU := tokenGold]> {["0xgbp" := Demo.tokenGBP]}) ∅ ∅ ∅ ∅ ∅
          (<["0xagg4" := oracleGold]> {["0xagg5" := oracleBroken]}) ∅.

Definition worldG : World := mkWorld storeG [] [].

End OracleScenario.

Lemma handleAnswerUpdated_gold_witness :
  exists w' t',
    handleAnswerUpdated (H := Demo.collaborators) (AnswerUpdated.mk "0xagg4" 200000000000)
                        OracleScenario.worldG = Ok (tt, w')
    /\ tokens (store w') !! VNXAU = Some t'
    /\ Token.latestFXPrice t' = Some (BigDecimal.mk 6430149313 (-8)).
Proof.
  destruct (handleAnswerUpdated_gold (H := Demo.collaborators)
              (AnswerUpdated.mk "0xagg4" 200000000000)
              (Some OracleScenario.oracleGold) OracleScenario.tokenGold
              OracleScenario.worldG)
    as (w' & t' & p & Hrun & Hlk & Hprice & Hp & _).
  - reflexivity.
  - apply Demo.keyed_compute. reflexivity.
  - intros o dstr [= <-] [= <-] _. exists 7. split; [ reflexivity | discriminate ].
  - right. exists OracleScenario.oracleGold. split; [ reflexivity | ].
    apply (bool_decide_unpack _). vm_compute. exact I.
  - reflexivity.
  - exists w', t'. split; [ exact Hrun | ]. split; [ exact Hlk | ].
    rewrite Hprice, Hp. reflexivity.
Defined.


Lemma handleAnswerUpdated_bad_divisor_witness :
  fails (handleAnswerUpdated (H := Demo.collaborators) (AnswerUpdated.mk "0xagg5" 125000000))
        OracleScenario.worldG.
Proof.
  apply (handleAnswerUpdated_bad_divisor (H := Demo.collaborators)
           (AnswerUpdated.mk "0xagg5" 125000000) OracleScenario.oracleBroken "0" "0xgbp").
  - reflexivity.
  - apply Demo.keyed_compute. reflexivity.
  - reflexivity.
  - discriminate.
  - right. reflexivity.
  - right. apply (bool_decide_unpack _). vm_compute. exact I.
  - discriminate.
  - eexists. reflexivity.
Defined.

(** ** Pricing assets and valuation ([pricing.ts]) *)

Section PricingAssets.
Context `{Collaborators}.

(** The lists of [helpers/constants], which are no part of the sources. *)
Variable PRICING_ASSETS : list Address.
Variable USD_STABLE_ASSETS : list Address.

(** [for (i ...) if (list[i] == asset) return true; return false] *)
Fixpoint listed (list : list Address) (asset : Address) : bool :=
  match list with
  | [] => false
  | x :: rest => if bool_decide (x = asset) then true else listed rest asset
  end.

Definition isPricingAsset (asset : Address) : bool := listed PRICING_ASSETS asset.

Definition isUSDStable (asset : Address) : bool := listed USD_STABLE_ASSETS asset.

Fixpoint firstIncluded (candidates assets : list Address) : Address :=
  match candidates with
  | [] => ZERO_ADDRESS
  | c :: rest => if bool_decide (c ∈ assets) then c else firstIncluded rest assets
  end.

Definition getPreferentialPricingAsset (assets : list Address) : Address :=
  firstIncluded PRICING_ASSETS assets.


Definition valueInFX (value : BigDecimal) (asset : Address) : M BigDecimal :=
  let* token := getToken asset in
  match Token.latestFXPrice token with
  | Some latestFXPrice => ret (BigDecimal.times value latestFXPrice)
  | None => ret BigDecimal.zero
  end.


Lemma listed_elem (l : list Address) (a : Address) : listed l a = true <-> a ∈ l.
Proof.
  induction l as [ | x l IH ]; cbn [listed].
  - split; [ discriminate | intros Hin; now apply elem_of_nil in Hin ].
  - rewrite elem_of_cons. case_bool_decide as Heq.
    + split; [ intros _; now left | reflexivity ].
    + rewrite IH. split; [ now right | intros [ -> | ? ]; [ contradiction | assumption ] ].
Qed.

Lemma firstIncluded_none (candidates assets : list Address) :
  (forall p, p ∈ candidates -> p ∉ assets) ->
  firstIncluded candidates assets = ZERO_ADDRESS.
Proof.
  induction candidates as [ | c rest IH ]; intros Hnone; cbn [firstIncluded].
  - reflexivity.
  - rewrite bool_decide_eq_false_2 by (apply Hnone; left).
    apply IH. intros p Hp. apply Hnone. now right.
Qed.

Lemma firstIncluded_first (candidates assets : list Address) (p : Address) :
  p ∈ candidates -> p ∈ assets ->
  exists i,
    candidates !! i = Some (firstIncluded candidates assets)
    /\ firstIncluded candidates assets ∈ assets
    /\ forall j q, candidates !! j = Some q -> q ∈ assets -> (i <= j)%nat.
Proof.
  induction candidates as [ | c rest IH ]; intros Hp Hin.
  - now apply elem_of_nil in Hp.
  - cbn [firstIncluded]. case_bool_decide as Hc.
    + exists 0%nat. repeat split; [ assumption | intros; lia ].
    + apply elem_of_cons in Hp as [-> | Hp]; [ contradiction | ].
      destruct (IH Hp Hin) as (i & Hi & Hmem & Hmin).
      exists (S i). repeat split; try assumption.
      intros [ | j ] q Hj Hq; cbn in Hj.
      * injection Hj as <-. contradiction.
      * specialize (Hmin j q Hj Hq). lia.
Qed.

End PricingAssets.

(** X20: [getPreferentialPricingAsset] returns the pricing asset of highest
    preference (the earliest in [PRICING_ASSETS]) among the given assets, and
    the zero address when none of them is a pricing asset; the order of the
    given assets does not matter. *)
Theorem getPreferentialPricingAsset_preference `{Collaborators}
        (PRICING_ASSETS assets : list Address) :
  let best := getPreferentialPricingAsset PRICING_ASSETS assets in
  ((forall p, p ∈ assets -> isPricingAsset PRICING_ASSETS p = false) -> best = ZERO_ADDRESS)
  /\ (forall p, p ∈ assets -> isPricingAsset PRICING_ASSETS p = true ->
        best ∈ assets
        /\ isPricingAsset PRICING_ASSETS best = true
        /\ exists i,
            PRICING_ASSETS !! i = Some best
            /\ forall j q, PRICING_ASSETS !! j = Some q -> q ∈ assets -> (i <= j)%nat)
  /\ (forall assets', assets ≡ₚ assets' ->
        getPreferentialPricingAsset PRICING_ASSETS assets' = best).
Proof.
  intros best. subst best. unfold getPreferentialPricingAsset, isPricingAsset.
  split; [ | split ].
  - intros Hnone. apply firstIncluded_none. intros p Hp Hin.
    specialize (Hnone p Hin). apply listed_elem in Hp. congruence.
  - intros p Hin Hp. apply listed_elem in Hp.
    destruct (firstIncluded_first PRICING_ASSETS assets p Hp Hin) as (i & Hi & Hmem & Hmin).
    split; [ assumption | ]. split; [ | eauto ].
    apply listed_elem. eapply list_elem_of_lookup_2; eauto.
  - intros assets' Hperm.
    induction PRICING_ASSETS as [ | c rest IH ]; cbn [firstIncluded]; [ reflexivity | ].
    rewrite IH. destruct (decide (c ∈ assets)) as [Hc | Hc].
    + rewrite !bool_decide_eq_true_2; [ reflexivity | assumption | now rewrite <- Hperm ].
    + rewrite !bool_decide_eq_false_2; [ reflexivity | assumption | now rewrite <- Hperm ].
Qed.

(** X21: [valueInFX] converts with the latest price of the asset and gives zero
    for an asset without price.  It reads the token through [getToken]: for
    an asset that has no token entity yet it returns zero and leaves a new
    token entity behind, and otherwise it writes nothing. *)
Theorem valueInFX_lookup `{Collaborators} (value : BigDecimal) (asset : Address) (w : World) :
  (forall t p,
      tokens (store w) !! asset = Some t -> Token.latestFXPrice t = Some p ->
      valueInFX value asset w = Ok (BigDecimal.times value p, w))
  /\ (forall t,
        tokens (store w) !! asset = Some t -> Token.latestFXPrice t = None ->
        valueInFX value asset w = Ok (BigDecimal.zero, w))
  /\ (tokens (store w) !! asset = None ->
      exists w',
        valueInFX value asset w = Ok (BigDecimal.zero, w')
        /\ is_Some (tokens (store w') !! asset)
        /\ w' <> w).
Proof.
  unfold valueInFX, getToken, bind, gets.
  destruct (tokens (store w) !! asset) as [known | ] eqn:Hlk.
  - split; [ | split; [ | discriminate ] ].
    + intros t p [= <-] Hp. unfold ret. now rewrite Hp.
    + intros t [= <-] Hp. unfold ret. now rewrite Hp.
  - split; [ discriminate | ]. split; [ discriminate | ]. intros _.
    unfold createToken, saveToken, bind, modify, ret.
    cbn [Token.latestFXPrice Token.id store logs dispatched].
    eexists. split; [ reflexivity | ]. cbn [store set_tokens tokens].
    split; [ rewrite lookup_insert_eq; eauto | ].
    intros Heq. apply (f_equal (fun v => tokens (store v) !! asset)) in Heq.
    cbn [store set_tokens tokens] in Heq. rewrite lookup_insert_eq, Hlk in Heq.
    discriminate Heq.
Qed.


Module ValuationScenario.



End ValuationScenario.


(** ** Curation signals ([eventEmitter.ts], [computeCuratedSwapEnabled]) *)

Module LogArgument.
Record t := mk {
  identifier : string;
  message : string;
  value : Z
}.
End LogArgument.

(** The [Pool] entity with the fields of the curation handlers.  The
    flags are nullable booleans, which read as [false] when they are unset. *)
Module CuratedPool.
Record t := mk {
  pool : Pool.t;
  isPaused : bool;
  swapEnabledInternal : bool;
  swapEnabledCurationSignal : bool;
  swapEnabled : bool
}.

Definition id (p : t) : string := Pool.id (pool p).


End CuratedPool.

Section EventEmitter.

(** The outcome of [flag == null] for a boolean [flag]: the comparison of
    a value that is no reference with [null] is left to the compiler. *)
Variable equalsNull : bool -> bool.

(** [poolTypes] of [helpers/pools], which is no part of the sources. *)
Variable poolTypes : list string.

Definition computeCuratedSwapEnabled
           (isPaused swapEnabledCurationSignal internalSwapEnabled : bool) : bool :=
  if isPaused then false
  else if equalsNull swapEnabledCurationSignal then internalSwapEnabled
  else swapEnabledCurationSignal && internalSwapEnabled.








End EventEmitter.



(** X23: Whatever the comparison of a boolean with [null] yields, the curated
    flag is never on for a paused pool, nor for a pool whose own flag is off;
    with the signal on it is on exactly for the pools that are not paused and
    whose own flag is on. *)
Theorem computeCuratedSwapEnabled_bounds
        (equalsNull : bool -> bool) (isPaused signal internal : bool) :
  (computeCuratedSwapEnabled equalsNull isPaused signal internal = true ->
   isPaused = false /\ internal = true)
  /\ (equalsNull true = false ->
      computeCuratedSwapEnabled equalsNull isPaused true internal
      = negb isPaused && internal).
Proof.
  unfold computeCuratedSwapEnabled. split.
  - destruct isPaused; [ discriminate | ].
    destruct (equalsNull signal), signal, internal; cbn; intros; now split.
  - intros ->. now destruct isPaused.
Qed.



Module CurationScenario.



Definition kinds : list string := ["Weighted"; "Stable"; "ComposableStable"].

End CurationScenario.



(** ** Joins: the share token of ordinary and of preminted pools *)

(** X26: A join of a pool that is neither stable phantom, composable stable nor
    managed writes the pool entity as it was and hands nothing to the
    share-transfer handler.  A join of a pool of one of these kinds whose own
    address is not among its tokens still hands over a synthetic transfer, of
    amount zero, and leaves the total shares at their value. *)
Theorem handlePoolJoined_share_edges `{Collaborators}
        (event : PoolBalanceChanged.t) (pool : Pool.t) (w : World) :
  let poolId := PoolBalanceChanged.poolId event in
  let deltas := PoolBalanceChanged.deltas event in
  let preminted :=
    bool_decide (Pool.poolType pool = Some PoolType_StablePhantom)
    || isComposableStablePool pool || isManagedPool pool in
  0 < fold_left Z.add deltas 0 ->
  - 2 ^ 31 <= PoolBalanceChanged.blockTimestamp event < 2 ^ 31 ->
  pools (store w) !! poolId = Some pool ->
  Pool.id pool = poolId ->
  keyed PoolToken.id (poolTokens (store w)) ->
  keyed Token.id (tokens (store w)) ->
  (forall j a, Pool.tokensList pool !! j = Some a ->
     is_Some (poolTokens (store w) !! getPoolTokenId poolId a)
     /\ is_Some (deltas !! j)
     /\ is_Some (PoolBalanceChanged.protocolFeeAmounts event !! j)) ->
  exists w' pool',
    handleBalanceChange event w = Ok (tt, w')
    /\ pools (store w') !! poolId = Some pool'
    /\ (preminted = false -> pool' = pool /\ dispatched w' = dispatched w)
    /\ (preminted = true ->
        (forall a, a ∈ Pool.tokensList pool -> a <> Pool.address pool) ->
        BigDecimal.equals (Pool.totalShares pool') (Pool.totalShares pool) = true
        /\ dispatched w'
           = dispatched w
             ++ [Transfer.mk (Pool.address pool) VAULT_ADDRESS ZERO_ADDRESS 0
                             (PoolBalanceChanged.logIndex event)
                             (PoolBalanceChanged.transactionHash event)
                             (PoolBalanceChanged.blockNumber event)
                             (PoolBalanceChanged.blockTimestamp event)]).
Proof.
  intros poolId deltas preminted Hsum Hts Hpool Hid HkPT HkT Hpre.
  subst poolId deltas preminted. fold (isPremintedPool pool).
  rewrite handleBalanceChange_join by assumption.
  destruct (wp_elim _ _ _ (handlePoolJoined_spec event pool w Hts Hpool Hid HkPT HkT Hpre))
    as ([] & w' & Hrun & Hpost).
  destruct Hpost as (joinAmounts & PT' & T' & preMinted & snaps & Hst & _ & Hdisp
                     & _ & _ & _ & _ & _ & _ & Hnone & _).
  cbn zeta in Hst, Hdisp.
  eexists w', _. split; [ exact Hrun | ].
  split.
  { rewrite Hst. cbn [pools set_poolSnapshots set_pools]. rewrite Hid. apply lookup_insert_eq. }
  split.
  - intros Hgate. rewrite Hgate in *. now split.
  - intros Hgate Hnot. rewrite Hgate in *. rewrite (Hnone Hnot) in *.
    cbn [fst snd] in *. split; [ | exact Hdisp ].
    apply equals_value. cbn [Pool.totalShares Pool.set_totalShares].
    rewrite value_minus. unfold ZERO_BD. rewrite value_zero. ring.
Qed.

Lemma handlePoolJoined_share_edges_witness :
  exists w',
    handleBalanceChange (H := Demo.collaborators) Demo.joinP Demo.world0 = Ok (tt, w')
    /\ pools (store w') !! "0xpoolP0001" = Some Demo.poolP
    /\ dispatched w' = [].
Proof.
  destruct (handlePoolJoined_share_edges (H := Demo.collaborators)
              Demo.joinP Demo.poolP Demo.world0)
    as (w' & pool' & Hrun & Hlk & Hplain & _).
  - cbn. lia.
  - cbn. lia.
  - reflexivity.
  - reflexivity.
  - apply Demo.keyed_compute. reflexivity.
  - apply Demo.keyed_compute. reflexivity.
  - intros j a Hj. now apply Scenario.poolP_ready.
  - destruct (Hplain eq_refl) as [-> Hdisp].
    exists w'. repeat split; assumption.
Defined.

(** ** Entity identifiers *)





(** ** Registration of pool tokens ([createPoolTokenEntity]) *)

(** The [PoolToken] entity with the fields that only its creation writes,
    around the fields the handlers work on. *)
Module PoolTokenEntity.
Record t := mk {
  core : PoolToken.t;
  assetManager : Address;
  name : string;
  paidProtocolFees : BigDecimal;
  oldPriceRate : BigDecimal;
  token : string;
  index : Z;
  isExemptFromYieldProtocolFee : option bool
}.
End PoolTokenEntity.

Section CreatePoolToken.
Context `{Collaborators}.

(** [PoolType.Weighted], the field [poolTypeVersion] of the pool entity, and
    the two calls on the pool contract. *)
Variable PoolType_Weighted : string.
Variable poolTypeVersion : Pool.t -> Z.
Variable try_isTokenExemptFromYieldProtocolFee : Address -> Address -> option bool.
Variable try_getRateProviders : Address -> option (list Address).

Definition ONE_BD : BigDecimal := BigDecimal.one.

(** [arr[i]] for an [i32] index. *)
Definition indexZ {A} (l : list A) (i : Z) : M A :=
  if i <? 0 then throw "Index out of range" else index l (Z.to_nat i).

(** The entity is returned as it is saved; the store keeps its [core]. *)
Definition createPoolTokenEntity (pool : Pool.t) (tokenAddress : Address)
           (tokenIndex : Z) (assetManagerAddress : Address) : M PoolTokenEntity.t :=
  let poolTokenId := getPoolTokenId (Pool.id pool) tokenAddress in
  let token := erc20 tokenAddress in
  let symbol := match try_symbol token with Some value => value | None => "" end in
  let name := match try_name token with Some value => value | None => "" end in
  let decimals := match try_decimals token with Some value => value | None => 18 end in
  let* _token := getToken tokenAddress in
  let* exempt :=
    if isComposableStablePool pool then
      ret (try_isTokenExemptFromYieldProtocolFee (Pool.address pool) tokenAddress)
    else if bool_decide (Pool.poolType pool = Some PoolType_Weighted)
            && (poolTypeVersion pool =? 4) then
      match try_getRateProviders (Pool.address pool) with
      | Some rateProviders =>
          if Z.of_nat (length rateProviders) >? tokenIndex then
            let* provider := indexZ rateProviders tokenIndex in
            ret (Some (bool_decide (provider = ZERO_ADDRESS)))
          else ret None
      | None => ret None
      end
    else ret None in
  let poolToken :=
    PoolTokenEntity.mk
      (PoolToken.mk poolTokenId (Pool.id pool) tokenAddress symbol decimals
                    ZERO_BD ZERO_BD ZERO_BD ONE_BD)
      assetManagerAddress name ZERO_BD ONE_BD (Token.id _token) tokenIndex exempt in
  savePoolToken (PoolTokenEntity.core poolToken) ;;
  ret poolToken.

(** The exemption flag the creation computes. *)
Definition exemption (pool : Pool.t) (tokenAddress : Address) (tokenIndex : Z)
  : option bool :=
  if isComposableStablePool pool then
    try_isTokenExemptFromYieldProtocolFee (Pool.address pool) tokenAddress
  else if bool_decide (Pool.poolType pool = Some PoolType_Weighted)
          && (poolTypeVersion pool =? 4) then
    match try_getRateProviders (Pool.address pool) with
    | Some rateProviders =>
        (fun provider => bool_decide (provider = ZERO_ADDRESS))
          <$> rateProviders !! Z.to_nat tokenIndex
    | None => None
    end
  else None.

Lemma createPoolTokenEntity_run (pool : Pool.t) (a : Address) (i : Z) (manager : Address) w :
  0 <= i ->
  (forall known, tokens (store w) !! a = Some known -> Token.id known = a) ->
  let T := tokens (store w) in
  let entity :=
    PoolTokenEntity.mk
      (PoolToken.mk (getPoolTokenId (Pool.id pool) a) (Pool.id pool) a
                    (default "" (try_symbol (erc20 a)))
                    (default 18 (try_decimals (erc20 a)))
                    ZERO_BD ZERO_BD ZERO_BD ONE_BD)
      manager (default "" (try_name (erc20 a))) ZERO_BD ONE_BD a i (exemption pool a i) in
  createPoolTokenEntity pool a i manager w
  = Ok (entity,
        mkWorld
          (set_poolTokens
             (<[getPoolTokenId (Pool.id pool) a := PoolTokenEntity.core entity]>
                (poolTokens (store w)))
             (set_tokens (<[a := tokenOrNew T a]> T) (store w)))
          (logs w) (dispatched w)).
Proof.
  intros Hi Hk T entity. unfold createPoolTokenEntity.
  unfold bind at 1. rewrite (getToken_run a w Hk). fold T.
  rewrite (tokenOrNew_id T a Hk).
  assert (Hex : forall v,
             (if isComposableStablePool pool then
                ret (try_isTokenExemptFromYieldProtocolFee (Pool.address pool) a)
              else if bool_decide (Pool.poolType pool = Some PoolType_Weighted)
                      && (poolTypeVersion pool =? 4) then
                match try_getRateProviders (Pool.address pool) with
                | Some rateProviders =>
                    if Z.of_nat (length rateProviders) >? i then
                      let* provider := indexZ rateProviders i in
                      ret (Some (bool_decide (provider = ZERO_ADDRESS)))
                    else ret None
                | None => ret None
                end
              else ret None) v = Ok (exemption pool a i, v)).
  { intros v. unfold exemption.
    destruct (isComposableStablePool pool); [ reflexivity | ].
    destruct (_ && _); [ | reflexivity ].
    destruct (try_getRateProviders (Pool.address pool)) as [providers | ]; [ | reflexivity ].
    destruct (Z.gtb_spec (Z.of_nat (length providers)) i) as [Hlt | Hge].
    - destruct (lookup_lt_is_Some_2 providers (Z.to_nat i)) as [p Hp]; [ lia | ].
      unfold bind, indexZ, index. destruct (Z.ltb_spec i 0); [ lia | ].
      rewrite Hp. reflexivity.
    - rewrite lookup_ge_None_2 by lia. reflexivity. }
  unfold bind at 1. rewrite Hex.
  unfold bind, savePoolToken, modify, ret.
  cbn [PoolTokenEntity.core PoolToken.id store logs dispatched].
  subst entity. cbn [PoolTokenEntity.core].
  destruct (try_symbol (erc20 a)), (try_name (erc20 a)), (try_decimals (erc20 a));
    reflexivity.
Qed.

End CreatePoolToken.

(** X28: [createPoolTokenEntity] registers a token of a pool: the pool
    token it stores under [poolId-token] has balance, cash and managed
    balance zero and price rate one, whatever was stored there before, and it
    is what [loadPoolToken] returns from then on.  Its decimals are those
    the token contract reports and 18 when the call reverts, whereas the
    [Token] entity created along with it for a token seen for the first time
    gets 0 in that case; a known [Token] entity is left as it is.  The yield
    exemption is asked from the pool contract for a composable stable pool
    and is left unset for a pool that is neither composable stable nor
    weighted. *)
Theorem createPoolTokenEntity_registers `{Collaborators}
        (PoolType_Weighted : string) (poolTypeVersion : Pool.t -> Z)
        (try_isTokenExempt : Address -> Address -> option bool)
        (try_getRateProviders : Address -> option (list Address))
        (pool : Pool.t) (a : Address) (tokenIndex : Z) (manager : Address) (w : World) :
  let key := getPoolTokenId (Pool.id pool) a in
  0 <= tokenIndex ->
  keyed Token.id (tokens (store w)) ->
  exists entity w' token,
    createPoolTokenEntity PoolType_Weighted poolTypeVersion try_isTokenExempt
                          try_getRateProviders pool a tokenIndex manager w
    = Ok (entity, w')
    /\ loadPoolToken (Pool.id pool) a w' = Ok (Some (PoolTokenEntity.core entity), w')
    /\ PoolToken.balance (PoolTokenEntity.core entity) = BigDecimal.zero
    /\ PoolToken.cashBalance (PoolTokenEntity.core entity) = BigDecimal.zero
    /\ PoolToken.managedBalance (PoolTokenEntity.core entity) = BigDecimal.zero
    /\ PoolToken.priceRate (PoolTokenEntity.core entity) = BigDecimal.one
    /\ PoolToken.decimals (PoolTokenEntity.core entity) = default 18 (try_decimals (erc20 a))
    /\ tokens (store w') !! a = Some token
    /\ PoolTokenEntity.token entity = Token.id token
    /\ (forall known, tokens (store w) !! a = Some known -> token = known)
    /\ (tokens (store w) !! a = None ->
        Token.decimals token = default 0 (try_decimals (erc20 a)))
    /\ (forall k, k <> key -> poolTokens (store w') !! k = poolTokens (store w) !! k)
    /\ (forall b, b <> a -> tokens (store w') !! b = tokens (store w) !! b)
    /\ pools (store w') = pools (store w)
    /\ (isComposableStablePool pool = true ->
        PoolTokenEntity.isExemptFromYieldProtocolFee entity
        = try_isTokenExempt (Pool.address pool) a)
    /\ (isComposableStablePool pool = false ->
        Pool.poolType pool <> Some PoolType_Weighted ->
        PoolTokenEntity.isExemptFromYieldProtocolFee entity = None).
Proof.
  intros key Hi HkT.
  rewrite createPoolTokenEntity_run; [ | assumption | intros t Ht; exact (HkT _ _ Ht) ].
  cbn zeta. fold key.
  eexists _, _, _. split; [ reflexivity | ].
  cbn [PoolTokenEntity.core PoolTokenEntity.token PoolTokenEntity.isExemptFromYieldProtocolFee
       PoolToken.balance PoolToken.cashBalance PoolToken.managedBalance PoolToken.priceRate
       PoolToken.decimals store poolTokens tokens pools set_poolTokens set_tokens].
  split.
  { unfold loadPoolToken, gets. cbn [store poolTokens set_poolTokens]. fold key.
    now rewrite lookup_insert_eq. }
  repeat (split; [ reflexivity | ]).
  split; [ apply lookup_insert_eq | ].
  split; [ symmetry; apply tokenOrNew_id; intros t Ht; exact (HkT _ _ Ht) | ].
  split; [ intros known Hknown; unfold tokenOrNew; now rewrite Hknown | ].
  split; [ intros Hnone; unfold tokenOrNew; now rewrite Hnone | ].
  split; [ intros k Hk; now apply lookup_insert_ne | ].
  split; [ intros b Hb; now apply lookup_insert_ne | ].
  split; [ reflexivity | ].
  unfold exemption. split.
  - now intros ->.
  - intros -> Hkind. now rewrite (bool_decide_eq_false_2 _ Hkind).
Qed.

Lemma createPoolTokenEntity_registers_witness :
  exists entity w' token,
    createPoolTokenEntity (H := Demo.collaborators) "Weighted" (fun _ => 1)
                          (fun _ _ => None) (fun _ => None)
                          Demo.poolQ "0xcccc" 1 Demo.zeroAddress Demo.world1
    = Ok (entity, w')
    /\ loadPoolToken "0xpoolQ0003" "0xcccc" w' = Ok (Some (PoolTokenEntity.core entity), w')
    /\ PoolToken.balance (PoolTokenEntity.core entity) = BigDecimal.zero
    /\ PoolToken.decimals (PoolTokenEntity.core entity) = 18
    /\ tokens (store w') !! "0xcccc" = Some token.
Proof.
  destruct (createPoolTokenEntity_registers (H := Demo.collaborators)
              "Weighted" (fun _ => 1) (fun _ _ => None) (fun _ => None)
              Demo.poolQ "0xcccc" 1 Demo.zeroAddress Demo.world1)
    as (entity & w' & token & Hrun & Hload & Hbal & _ & _ & _ & Hdec & Htoken & _).
  - lia.
  - apply Demo.keyed_compute. reflexivity.
  - exists entity, w', token. repeat split; assumption.
Defined.
